(** * Event extraction and event algebra of [mne/event.py]

    A shallow embedding of the trigger-channel step detector, the masking
    stage, the event extractor and the event-list operations of
    [mne/event.py], with the properties of its specification stated and
    proved (or refuted and amended) over the embedding.

    Conventions of the embedding.
    - An [(n, 3)] integer array is a [list row]; a row is a triple
      [(column 0, column 1, column 2)].  Integers are unbounded ([Z]); the
      fixed widths of numpy only appear where the source casts explicitly
      ([astype(np.uint16)], [astype(np.uint32)]) and where the stim samples
      are converted to integers ([astype(np.int)], 64 bits).
    - Python floats ([sfreq], [tmin], [duration], raw samples) are exact
      rationals ([Q]); [int(x)] and [astype(int)] truncate toward zero.
    - A call either returns a value or raises: [result A].
    - Where a claim is about which array object is written or returned, the
      arrays live in a store ([Module Store]) and the calls are store
      transformers. *)

From Stdlib Require Import ZArith QArith Qround Qabs List String Ascii Lia Lqa.
From Stdlib Require Import DecimalString DecimalZ DecimalPos.
From stdpp Require Import base list gmap sorting strings.

Open Scope Z_scope.

(** ** Exceptions and results *)

(** The exceptions the module raises itself, plus the ones numpy raises on
    the paths modelled here.  Each constructor is one [raise] site (or one
    numpy failure) of the source. *)
Inductive exn : Type :=
| RuntimeError_no_events            (* pick_events: "No events found" *)
| TypeError_mask_not_int            (* _mask_trigs: "Mask must be an int." *)
| ValueError_no_stim_channel        (* find_events / find_stim_steps *)
| ValueError_short_events (n : nat) (* find_events: "You have %i events shorter ..." *)
| Exception_invalid_output          (* _find_events: "Invalid output parameter %r" *)
| ValueError_no_text_lines          (* read_events: "No text lines found" *)
| ValueError_unknown_columns        (* read_events: "Unknown number of columns ..." *)
| ValueError_id_not_int             (* make_fixed_length_events: "id must be an integer" *)
| ValueError_no_events_produced     (* make_fixed_length_events: "No events produced, ..." *)
| ValueError_lengths_differ         (* concatenate_events: "... must all have the same lengths" *)
| Numpy_ValueError_empty_reduction  (* data.min() of an array without elements *)
| Numpy_ValueError_broadcast        (* a[:, 2] = b with incompatible lengths *)
| Numpy_ValueError_concatenate_none (* np.concatenate([]) *)
| Numpy_ValueError_arange_step      (* np.arange with a zero step *)
| Numpy_ValueError_loadtxt          (* np.loadtxt: a field is not a number, or ragged rows *)
| Numpy_IndexError                  (* index out of bounds *)
| TypeError_len_unsized             (* len() of a 0-d array *)
| ZeroDivisionError.                (* float division by zero *)

Inductive result (A : Type) : Type :=
| OK (a : A)
| Raise (e : exn).
Arguments OK {A} a.
Arguments Raise {A} e.

#[global] Instance result_ret : MRet result := λ A a, OK a.
#[global] Instance result_bind : MBind result := λ A B k r,
  match r with
  | OK a => k a
  | Raise e => Raise e
  end.
#[global] Instance result_fmap : FMap result := λ A B f r,
  match r with
  | OK a => OK (f a)
  | Raise e => Raise e
  end.

(** ** Python values used as loosely typed arguments *)

Inductive pyobj : Type :=
| PyInt (z : Z)
| PyBool (b : bool)
| PyFloat (q : Q)
| PyStr (s : string)
| PyNone.

(** [isinstance(x, int)]: [bool] is a subclass of [int]. *)
Definition isinstance_int (x : pyobj) : bool :=
  match x with
  | PyInt _ | PyBool _ => true
  | _ => false
  end.

(** ** Rows and numpy helpers *)

Definition row : Type := Z * Z * Z.

Definition col0 (r : row) : Z := r.1.1.
Definition col1 (r : row) : Z := r.1.2.
Definition col2 (r : row) : Z := r.2.

Definition set_col0 (v : Z) (r : row) : row := (v, col1 r, col2 r).
Definition set_col1 (v : Z) (r : row) : row := (col0 r, v, col2 r).
Definition set_col2 (v : Z) (r : row) : row := (col0 r, col1 r, v).

(** [int(x)] and [x.astype(int)] on a float: truncation toward zero. *)
Definition py_int (q : Q) : Z :=
  if Qlt_le_dec q 0 then Qceiling q else Qfloor q.

(** [a.astype(np.int)] on a float array: numpy's integers have 64 bits;
    the conversion truncates toward zero, and a float whose integer part
    lies outside [-2^63, 2^63) comes out as [-2^63]. *)
Definition np_astype_int (q : Q) : Z :=
  let z := py_int q in
  if bool_decide (- 2 ^ 63 ≤ z < 2 ^ 63) then z else - 2 ^ 63.

(** [np.abs] on 64-bit integers: [-2^63] has no opposite and stays as it
    is. *)
Definition np_abs_int (z : Z) : Z :=
  if bool_decide (z = - 2 ^ 63) then z else Z.abs z.

(** [np.diff(a)]: [a[i+1] - a[i]]. *)
Definition np_diff (a : list Z) : list Z :=
  zip_with (λ x y, y - x) a (tail a).

(** [np.where(mask)[0]]: the positions that hold [True], ascending. *)
Definition np_where (mask : list bool) : list nat :=
  filter (λ i, mask !! i = Some true) (seq 0 (length mask)).

(** [a[mask]] for a boolean [mask] of the length of [a]. *)
Definition np_select {A : Type} (a : list A) (mask : list bool) : list A :=
  fst <$> filter (λ p, snd p = true) (zip a mask).

(** [a[idx]] for an integer index array [idx] that is in range. *)
Definition np_take `{Inhabited A} (a : list A) (idx : list nat) : list A :=
  (λ i, a !!! i) <$> idx.

(** [np.any(mask)]. *)
Definition np_any (mask : list bool) : bool := existsb id mask.

(** [np.all(m, axis=0)] for a matrix given as its first row and the others. *)
Definition np_all_axis0 (first : list bool) (others : list (list bool)) : list bool :=
  imap (λ i b, b && forallb (λ r, default true (r !! i)) others) first.

(** [a[targets, col] = vals]: fancy-index assignment.  [vals] has been read
    (copied) before the first write, and [targets] holds no duplicates. *)
Definition assign_col (setc : Z → row → row) (targets : list nat) (vals : list Z)
    (a : list row) : list row :=
  foldl (λ acc p, alter (setc (snd p)) (fst p) acc) a (zip targets vals).

(** ** StepDetector: [_find_stim_steps] *)

(** Lines 310-319: the transitions of the matrix, one row
    [(sample, value before, value after)] per column where every channel
    changes, values taken from channel 0. *)
Definition changed (ch : list Z) : list bool :=
  (λ d, bool_decide (d ≠ 0)) <$> np_diff ch.

Definition detect_steps (ch0 : list Z) (others : list (list Z)) (first_samp : Z)
    : list row :=
  let idx := np_where (np_all_axis0 (changed ch0) (changed <$> others)) in
  (λ i, (Z.of_nat (i + 1) + first_samp, ch0 !!! i, ch0 !!! (i + 1)%nat)) <$> idx.

(** Lines 321-324; [steps] is not empty here. *)
Definition pad_steps_start (pad_start : option Z) (steps : list row) : list row :=
  match pad_start, steps with
  | Some p, r :: _ => if bool_decide (col1 r ≠ p) then (0, p, col1 r) :: steps else steps
  | _, _ => steps
  end.

(** Lines 326-330. *)
Definition pad_steps_stop (pad_stop : option Z) (n_samples : nat) (first_samp : Z)
    (steps : list row) : list row :=
  match pad_stop, last steps with
  | Some p, Some r =>
      if bool_decide (col2 r ≠ p)
      then steps ++ [(Z.of_nat n_samples + first_samp, col2 r, p)]
      else steps
  | _, _ => steps
  end.

(** Lines 332-349. *)
Definition merge_steps (merge : Z) (steps : list row) : list row :=
  if bool_decide (merge ≠ 0) then
    let diff := np_diff (col0 <$> steps) in
    let idx := (λ d, bool_decide (d ≤ Z.abs merge)) <$> diff in
    if np_any idx then
      let where_ := np_where idx in
      let keep := negb <$> idx in
      let '(steps1, keep1) :=
        if bool_decide (merge > 0) then
          (* drop the earlier event *)
          (assign_col set_col1 (S <$> where_) ((λ w, col1 (steps !!! w)) <$> where_) steps,
           keep ++ [true])
        else
          (* drop the later event *)
          (assign_col set_col2 where_ ((λ w, col2 (steps !!! S w)) <$> where_) steps,
           true :: keep) in
      let is_step := (λ r, bool_decide (col1 r ≠ col2 r)) <$> steps1 in
      np_select steps1 (zip_with andb keep1 is_step)
    else steps
  else steps.

(** [data] is the matrix as the list of its channels.  A matrix without
    channels cannot be indexed by [data[0, idx]]; the callers in this module
    rule it out before the call. *)
Definition _find_stim_steps (data : list (list Z)) (first_samp : Z)
    (pad_start pad_stop : option Z) (merge : Z) : result (list row) :=
  match data with
  | [] => Raise Numpy_IndexError
  | ch0 :: others =>
      let steps := detect_steps ch0 others first_samp in
      if bool_decide (length steps = 0%nat) then OK []
      else
        let steps := pad_steps_start pad_start steps in
        let steps := pad_steps_stop pad_stop (length ch0) first_samp steps in
        OK (merge_steps merge steps)
  end.

(** *** The merging rule in the words of the specification

    Written from the specification, for comparison with [merge_steps]: one
    pass over the transitions; two consecutive transitions are combined
    when their sample indices differ by at most [|merge|]; for a positive
    [merge] the later one stays and takes the value-before of the earlier
    one, for a negative [merge] the earlier one stays and takes the
    value-after of the later one; the neighbour consulted is always the
    transition as it was before the pass (no cascade); afterwards the
    transitions whose two values are equal are dropped. *)

Definition close_pair (merge : Z) (r s : row) : bool :=
  bool_decide (col0 s - col0 r ≤ Z.abs merge).

(** Two neighbours are combined when both exist and are close. *)
Definition combined (merge : Z) (a b : option row) : bool :=
  match a, b with
  | Some r, Some s => close_pair merge r s
  | _, _ => false
  end.

Definition inherit_before (merge : Z) (prev : option row) (r : row) : row :=
  if combined merge prev (Some r) then set_col1 (from_option col1 0 prev) r else r.

Definition inherit_after (merge : Z) (r : row) (next : option row) : row :=
  if combined merge (Some r) next then set_col2 (from_option col2 0 next) r else r.

(** [prev] is the transition before the head of [steps], as it was in the
    input. *)
Fixpoint spec_merge_later (merge : Z) (prev : option row) (steps : list row) : list row :=
  match steps with
  | [] => []
  | r :: rest =>
      (if combined merge (Some r) (head rest) then [] else [inherit_before merge prev r])
        ++ spec_merge_later merge (Some r) rest
  end.

Fixpoint spec_merge_earlier (merge : Z) (prev : option row) (steps : list row) : list row :=
  match steps with
  | [] => []
  | r :: rest =>
      (if combined merge prev (Some r) then [] else [inherit_after merge r (head rest)])
        ++ spec_merge_earlier merge (Some r) rest
  end.

Definition spec_merge (merge : Z) (steps : list row) : list row :=
  filter (λ r, col1 r ≠ col2 r)
    (if bool_decide (merge > 0) then spec_merge_later merge None steps
     else spec_merge_earlier merge None steps).

(** ** Masker: [_mask_trigs] (value level) *)

(** [np.bitwise_not(mask)] followed by [np.bitwise_and(values, _)]: on an
    [int] the complement is two's complement; on a [bool] numpy's
    [bitwise_not] is the logical negation, which then enters the [and] as
    0 or 1. *)
Definition bitwise_not_mask (mask : pyobj) : option Z :=
  match mask with
  | PyInt m => Some (Z.lnot m)
  | PyBool b => Some (if b then 0 else 1)
  | _ => None
  end.

Definition mask_row (m : Z) (r : row) : row :=
  (col0 r, Z.land (col1 r) m, Z.land (col2 r) m).

Definition is_step (r : row) : bool := bool_decide (col1 r ≠ col2 r).

Definition _mask_trigs (events : list row) (mask : pyobj) : result (list row) :=
  if negb (isinstance_int mask) then Raise TypeError_mask_not_int
  else if bool_decide (length events = 0%nat) then OK events
  else
    match bitwise_not_mask mask with
    | Some m => OK (filter (λ r, is_step r = true) (mask_row m <$> events))
    | None => Raise TypeError_mask_not_int
    end.

(** ** EventExtractor: [_find_events] and [find_events] *)

(** The [consecutive] argument: ['increasing'], [True] or [False]. *)
Inductive consecutive_mode : Type :=
| Increasing
| Consecutive (b : bool).

(** Lines 434-443: the onset and offset flags of one transition. *)
Definition is_onset (c : consecutive_mode) (r : row) : bool :=
  match c with
  | Increasing => bool_decide (col2 r > col1 r)
  | Consecutive true => bool_decide (col2 r > 0)
  | Consecutive false => bool_decide (col1 r = 0)
  end.

Definition is_offset (c : consecutive_mode) (r : row) : bool :=
  match c with
  | Increasing =>
      (bool_decide (col2 r > col1 r) || bool_decide (col2 r = 0))
      && bool_decide (col1 r > 0)
  | Consecutive true => bool_decide (col1 r > 0)
  | Consecutive false => bool_decide (col2 r = 0)
  end.

(** [np.union1d]: the sorted union without repetitions. *)
Definition np_union1d (a b : list nat) : list nat :=
  merge_sort le (remove_dups (a ++ b)).

(** [a[:, 2] = v] for a one-dimensional [v]: equal lengths, or a single
    value broadcast to every row. *)
Definition assign_col2_broadcast (a : list row) (v : list Z) : result (list row) :=
  if bool_decide (length v = length a) then OK (zip_with (λ r x, set_col2 x r) a v)
  else match v with
       | [x] => OK (set_col2 x <$> a)
       | _ => Raise Numpy_ValueError_broadcast
       end.

(** Lines 413-418. *)
Definition merge_of_min_samples (min_samples : Q) : Z :=
  if Qlt_le_dec 0 min_samples then
    let merge := Qfloor min_samples in
    if Qeq_bool (inject_Z merge) min_samples then merge - 1 else merge
  else 0.

(** Lines 420-428: conversion to 64-bit integers, optional [uint16] wrap,
    absolute value when some sample is negative.  [data.min()] needs an
    element.  A sample at or beyond [2^63] in size is converted to [-2^63]
    and stays negative after [np.abs]. *)
Definition prepare_data (data : list (list Q)) (uint_cast : bool) : result (list (list Z)) :=
  let data := fmap (M := list) np_astype_int <$> data in
  let data := if uint_cast then fmap (M := list) (λ z, z `mod` 65536) <$> data else data in
  if bool_decide (concat data = []) then Raise Numpy_ValueError_empty_reduction
  else if existsb (λ z, bool_decide (z < 0)) (concat data)
       then OK (fmap (M := list) np_abs_int <$> data)
       else OK data.

(** Lines 433-477: onsets and offsets of the masked transitions, orphan
    trimming and the shape of the output. *)
Definition shape_events (events : list row) (output : string)
    (consecutive : consecutive_mode) : result (list row) :=
  let onset_idx := np_where (is_onset consecutive <$> events) in
  let offset_idx := np_where (is_offset consecutive <$> events) in
  match onset_idx, offset_idx with
  | [], _ | _, [] => OK []
  | on0 :: _, off0 :: offset_rest =>
      (* delete orphaned onsets/offsets *)
      let offset_idx := if bool_decide (off0 < on0)%nat then offset_rest else offset_idx in
      match last onset_idx, last offset_idx with
      | Some on_last, Some off_last =>
          let onset_idx :=
            if bool_decide (off_last < on_last)%nat then removelast onset_idx else onset_idx in
          if String.eqb output "onset" then OK (np_take events onset_idx)
          else if String.eqb output "step" then
            OK (np_take events (np_union1d onset_idx offset_idx))
          else if String.eqb output "offset" then
            let event_id := col2 <$> np_take events onset_idx in
            let events := np_take events offset_idx in
            let events := (λ r, set_col1 (col2 r) r) <$> events in
            events ← assign_col2_broadcast events event_id;
            OK ((λ r, set_col0 (col0 r - 1) r) <$> (events : list row))
          else Raise Exception_invalid_output
      | _, _ => Raise Numpy_IndexError
      end
  end.

Definition _find_events (data : list (list Q)) (first_samp : Z) (output : string)
    (consecutive : consecutive_mode) (min_samples : Q) (mask : pyobj)
    (uint_cast : bool) : result (list row) :=
  let merge := merge_of_min_samples min_samples in
  data ← prepare_data data uint_cast;
  events ← _find_stim_steps data first_samp None (Some 0) merge;
  events ← _mask_trigs events mask;
  (* Determine event onsets and offsets *)
  shape_events events output consecutive.

(** What [find_events] reads from the recording.  [stim_data] is
    [raw[pick, :]] for the stim channels that [_get_stim_channel] and
    [pick_channels] resolve; it has no channel when none is found. *)
Record Raw : Type := mkRaw {
  stim_data : list (list Q);
  first_samp : Z;
  last_samp : Z;
  sfreq : Q
}.

(** Line 618: [np.sum(np.diff(events[:, 0]) < shortest_event)]. *)
Definition n_short_events (events : list row) (shortest_event : Z) : nat :=
  length (filter (λ d, d < shortest_event) (np_diff (col0 <$> events))).

Definition find_events (raw : Raw) (output : string) (consecutive : consecutive_mode)
    (min_duration : Q) (shortest_event : Z) (mask : pyobj) (uint_cast : bool)
    : result (list row) :=
  let min_samples := (min_duration * sfreq raw)%Q in
  if bool_decide (length (stim_data raw) = 0%nat) then Raise ValueError_no_stim_channel
  else
    events ← _find_events (stim_data raw) (first_samp raw) output consecutive
               min_samples mask uint_cast;
    let n := n_short_events events shortest_event in
    if bool_decide (0 < n)%nat then Raise (ValueError_short_events n)
    else OK events.

(** A recording with one pulse of a single sample: [0, 5, 0, 0]. *)
Definition example_pulse : Raw :=
  mkRaw [(inject_Z <$> [0; 5; 0; 0])] 0 3 1000.

(** The recording of the docstring of [find_events]. *)
Definition example_raw : Raw :=
  mkRaw [(inject_Z <$> [0; 32; 32; 33; 32; 0])] 0 5 1000.


(** ** EventAlgebra (value level) *)

(** [pick_events].  [include] and [exclude] are [None] or the list of ids
    (a single [int] is wrapped into a list by the source).  Lines 48-67: the
    selected rows. *)
Definition pick_rows (events : list row) (include exclude : option (list Z))
    (step : bool) : list row :=
  match include, exclude with
  | Some include, _ =>
      let mask :=
        foldl (λ mask e,
                 let mask := zip_with orb mask ((λ r, bool_decide (col2 r = e)) <$> events) in
                 if step
                 then zip_with orb mask ((λ r, bool_decide (col1 r = e)) <$> events)
                 else mask)
              (replicate (length events) false) include in
      np_select events mask
  | None, Some exclude =>
      let mask :=
        foldl (λ mask e,
                 let mask := zip_with andb mask ((λ r, bool_decide (col2 r ≠ e)) <$> events) in
                 if step
                 then zip_with andb mask ((λ r, bool_decide (col1 r ≠ e)) <$> events)
                 else mask)
              (replicate (length events) true) exclude in
      np_select events mask
  | None, None => events
  end.

Definition pick_events (events : list row) (include exclude : option (list Z))
    (step : bool) : result (list row) :=
  let events := pick_rows events include exclude step in
  if bool_decide (length events = 0%nat) then Raise RuntimeError_no_events
  else OK events.

(** Column access by its number, as in [events[:, col]]. *)
Definition get_col (col : nat) (r : row) : Z :=
  match col with
  | 0%nat => col0 r
  | 1%nat => col1 r
  | _ => col2 r
  end.

Definition set_col (col : nat) (v : Z) (r : row) : row :=
  match col with
  | 0%nat => set_col0 v r
  | 1%nat => set_col1 v r
  | _ => set_col2 v r
  end.

(** [a[mask, col] = v] for a boolean [mask] and a scalar [v]. *)
Definition assign_where (mask : list bool) (col : nat) (v : Z) (a : list row) : list row :=
  zip_with (λ r (b : bool), if b then set_col col v r else r) a mask.

(** [np.unique]: the sorted values without repetitions. *)
Definition np_unique (a : list nat) : list nat := merge_sort le (remove_dups a).

(** The order of [np.lexsort(events.T[::-1])]: column 0 first, then
    column 1, then column 2, each ascending. *)
Definition row_le (r s : row) : Prop :=
  col0 r < col0 s
  ∨ (col0 r = col0 s ∧ (col1 r < col1 s ∨ (col1 r = col1 s ∧ col2 r ≤ col2 s))).

#[global] Instance row_le_dec : RelDecision row_le.
Proof. intros r s. unfold row_le. apply _. Defined.

(** [a[np.lexsort(a.T[::-1])]]: lexsort is a stable sort; rows that tie on
    all three keys are equal, so the sorted array is determined. *)
Definition lexsort_rows (a : list row) : list row := merge_sort row_le a.

(** Lines 693-697: the double loop, carrying [events_out] and
    [idx_touched]. *)
Definition merge_loop (events : list row) (ids : list Z) (new_id : Z)
    : list row * list (list nat) :=
  foldl (λ st col,
           foldl (λ (st : list row * list (list nat)) i,
                    let mask := (λ r, bool_decide (get_col col r = i)) <$> events in
                    (assign_where mask col new_id st.1, st.2 ++ [np_where mask]))
                 st ids)
        (events, []) [1%nat; 2%nat].

Definition merge_events (events : list row) (ids : list Z) (new_id : Z)
    (replace_events : bool) : result (list row) :=
  let '(events_out, idx_touched) := merge_loop events ids new_id in
  if negb replace_events then
    if bool_decide (length idx_touched = 0%nat) then Raise Numpy_ValueError_concatenate_none
    else
      let idx_touched := np_unique (concat idx_touched) in
      let events_out := events_out ++ np_take events idx_touched in
      (* Now sort in lexical order *)
      OK (lexsort_rows events_out)
  else OK events_out.

(** *** What [merge_events] promises, in the words of the specification *)

(** A row is touched when its paired value or its id is one of [ids]. *)
Definition touched (ids : list Z) (r : row) : Prop := col1 r ∈ ids ∨ col2 r ∈ ids.

#[global] Instance touched_dec ids r : Decision (touched ids r).
Proof. unfold touched. apply _. Defined.

(** The relabelled copy of a row: every occurrence of an id of [ids], in the
    paired-value and the id column, becomes [new_id]. *)
Definition relabel (ids : list Z) (new_id : Z) (r : row) : row :=
  (col0 r,
   if bool_decide (col1 r ∈ ids) then new_id else col1 r,
   if bool_decide (col2 r ∈ ids) then new_id else col2 r).

(** The order the specification names: sample ascending, then paired value
    descending, then id descending. *)
Definition row_le_spec (r s : row) : Prop :=
  col0 r < col0 s
  ∨ (col0 r = col0 s ∧ (col1 s < col1 r ∨ (col1 r = col1 s ∧ col2 s ≤ col2 r))).

#[global] Instance row_le_spec_dec : RelDecision row_le_spec.
Proof. intros r s. unfold row_le_spec. apply _. Defined.

(** [shift_time_events]: the loop runs over [ids] in order; a row is shifted
    once for every occurrence of its id in [ids]. *)
Definition shift_time_events (events : list row) (ids : list Z) (tshift sfreq : Q)
    : list row :=
  foldl (λ events ii,
           (λ r, if bool_decide (col2 r = ii)
                 then set_col0 (col0 r + py_int (tshift * sfreq)) r else r) <$> events)
        events ids.

(** [np.arange(start, stop, step)] with a float step, then [astype(int)]. *)
Definition np_arange_int (start stop : Z) (step : Q) : result (list Z) :=
  if Qeq_bool step 0 then Raise Numpy_ValueError_arange_step
  else
    let n := Z.to_nat (Qceiling ((inject_Z stop - inject_Z start) / step)) in
    OK ((λ k, py_int (inject_Z start + inject_Z (Z.of_nat k) * step)) <$> seq 0 n).

(** [id * np.ones(n, dtype=int)] for an [id] that passed [isinstance(id, int)]. *)
Definition int_value (x : pyobj) : Z :=
  match x with
  | PyInt z => z
  | PyBool b => if b then 1 else 0
  | _ => 0
  end.

Section FixedLength.

(** [Raw.time_as_index] is defined outside this module ([mne/io/base.py]):
  it is a parameter here. *)
Variable time_as_index : Raw → Q → Z.

(** [len(raw.times)]: the number of samples of the recording. *)
Definition n_times (raw : Raw) : Z := last_samp raw - first_samp raw + 1.

(** Lines 761-770 and 774: the first index and the inclusive stop bound of
  the generated sequence. *)
Definition fixed_length_start (raw : Raw) (start : Q) (use_first_samp : bool) : Z :=
let start := time_as_index raw start in
if use_first_samp then start + first_samp raw else start.

Definition fixed_length_stop (raw : Raw) (stop : option Q) (duration : Q)
  (use_first_samp : bool) : Z :=
let stop :=
  match stop with
  | Some stop => time_as_index raw stop
  | None => last_samp raw + 1
  end in
let stop :=
  if use_first_samp then Z.min (stop + first_samp raw) (last_samp raw + 1)
  else Z.min stop (n_times raw) in
(* Make sure we don't go out the end of the file: *)
stop - Qceiling (sfreq raw * duration).

Definition make_fixed_length_events (raw : Raw) (id : pyobj) (start : Q)
  (stop : option Q) (duration : Q) (use_first_samp : bool) : result (list row) :=
let start := fixed_length_start raw start use_first_samp in
let stop := fixed_length_stop raw stop duration use_first_samp in
if negb (isinstance_int id) then Raise ValueError_id_not_int
else
  (* This should be inclusive due to how we generally use start and stop... *)
  ts ← np_arange_int start (stop + 1) (sfreq raw * duration);
  let n_events := length ts in
  if bool_decide (n_events = 0%nat) then Raise ValueError_no_events_produced
  else OK (zip_with (λ t p, (t, p.1, p.2)) ts
             (zip (replicate n_events 0) (replicate n_events (int_value id)))).

End FixedLength.

(** The conversion that [Raw.time_as_index] performs (times multiplied by
    the sampling rate, as integers) and a recording of the samples 0..99 at
    1 Hz: they serve to run [make_fixed_length_events] on examples. *)
Definition example_time_as_index (raw : Raw) (t : Q) : Z := py_int (t * sfreq raw).

Definition example_recording : Raw := mkRaw [] 0 99 1.

(** [a.any()] on an integer array: some entry is not zero. *)
Definition rows_any (a : list row) : bool :=
  existsb (λ r, negb (bool_decide (col0 r = 0 ∧ col1 r = 0 ∧ col2 r = 0))) a.

(** A lag is a float; [None] is [nan]. *)
Definition lags_any (lag : list (option Q)) : bool :=
  existsb (λ x, match x with Some q => negb (Qeq_bool q 0) | None => true end) lag.

(** Lines 122-135: the loop over the rows of [events.copy()].  [event] is
    a view of its row of the copy, so [event[2] = ...] relabels the copy;
    the state is the rows of the copy visited so far, [new_events] and
    [lag].  One round: *)
Definition target_step (events : list row) (reference_id target_id : Z)
    (imin imax : Z) (new_id : Z) (fill_na : option Z)
    (st : list row * list row * list (option Q)) (event : row)
    : list row * list row * list (option Q) :=
  let '(copy, new_events, lag) := st in
  if bool_decide (col2 event = reference_id) then
    let lower := col0 event + imin in
    let upper := col0 event + imax in
    let res := filter (λ e, lower < col0 e ∧ col0 e < upper ∧ col2 e = target_id) events in
    if rows_any res then
      let lag := lag ++ [Some (inject_Z (col0 event - col0 (res !!! 0%nat)))] in
      let event := set_col2 new_id event in
      (copy ++ [event], new_events ++ [event], lag)
    else
      match fill_na with
      | Some fill =>
          let event := set_col2 fill event in
          (copy ++ [event], new_events ++ [event], lag ++ [None])
      | None => (copy ++ [event], new_events, lag)
      end
  else (copy ++ [event], new_events, lag).

Definition target_loop (events : list row) (reference_id target_id : Z)
    (imin imax : Z) (new_id : Z) (fill_na : option Z)
    : list row * list row * list (option Q) :=
  foldl (target_step events reference_id target_id imin imax new_id fill_na)
        ([], [], []) events.

Definition define_target_events (events : list row) (reference_id target_id : Z)
    (sfreq tmin tmax : Q) (new_id fill_na : option Z)
    : result (list row * list (option Q)) :=
  let new_id := default reference_id new_id in
  if Qeq_bool sfreq 0 then Raise ZeroDivisionError
  else
    let tsample := (1000 / sfreq)%Q in
    let imin := py_int (tmin * sfreq) in
    let imax := py_int (tmax * sfreq) in
    let '(_, new_events, lag) :=
      target_loop events reference_id target_id imin imax new_id fill_na in
    let lag := fmap (M := list) (fmap (M := option) Qabs) lag in
    let lag :=
      if lags_any lag then fmap (M := list) (fmap (M := option) (λ x, x * tsample)%Q) lag
      else [] in
    OK (if rows_any new_events then new_events else [], lag).

(** *** What [define_target_events] does for one event, in the words of
    the specification

    For a reference event at sample [s]: the first target event strictly
    inside the window [(s + lo, s + hi)] decides.  On a match the reference
    event is relabelled to [new_id] and the lag is [lagf (s - target
    sample)]; without a match it is relabelled to [fill_na] with a missing
    lag ([None]), or dropped when [fill_na] is unset.  Other events are
    skipped. *)
Definition spec_target (events : list row) (reference_id target_id : Z) (lo hi : Z)
    (new_id : Z) (fill_na : option Z) (lagf : Z → Q) (event : row)
    : option (row * option Q) :=
  if bool_decide (col2 event = reference_id) then
    match filter (λ e, col0 event + lo < col0 e ∧ col0 e < col0 event + hi
                       ∧ col2 e = target_id) events with
    | t :: _ => Some (set_col2 new_id event, Some (lagf (col0 event - col0 t)))
    | [] => (λ fill, (set_col2 fill event, None)) <$> fill_na
    end
  else None.

(** The absolute lag in milliseconds of a difference of [d] samples. *)
Definition lag_ms (sfreq : Q) (d : Z) : Q := (Qabs (inject_Z d) * (1000 / sfreq))%Q.

(** [np.cumsum]. *)
Definition np_cumsum (a : list Z) : list Z :=
  (foldl (λ (st : Z * list Z) x, (st.1 + x, st.2 ++ [st.1 + x])) (0, []) a).2.

Definition concatenate_events (events : list (list row)) (first_samps last_samps : list Z)
    : result (list row) :=
  if negb (bool_decide (length events = length last_samps)
           && bool_decide (length events = length first_samps))
  then Raise ValueError_lengths_differ
  else
    let n_samps := np_cumsum (zip_with (λ l f, l - f + 1) last_samps first_samps) in
    match events, first_samps with
    | events0 :: events_rest, first0 :: first_rest =>
        OK (foldl (λ events_out p,
                     let '(e, f, n) := p in
                     (* remove any skip since it doesn't exist in concatenated files;
                        add offset due to previous files, plus original file offset *)
                     events_out ++ ((λ r, set_col0 (col0 r - f + (n + first0)) r) <$> e))
                  events0
                  (zip (zip events_rest first_rest) (removelast n_samps)))
    | _, _ => Raise Numpy_IndexError
    end.

(** ** Plain-text event files: [write_events] and [read_events] *)

(** The content of a text file is its sequence of characters. *)
Definition text : Type := list ascii.

Definition newline : ascii := ascii_of_nat 10.

(** ['%d' % z]. *)
Definition str_of_int (z : Z) : text :=
  list_ascii_of_string (NilZero.string_of_int (Z.to_int z)).

(** ['%<width>d' % z]: right-justified in a field of [width] characters. *)
Definition format_d (width : nat) (z : Z) : text :=
  let digits := str_of_int z in
  replicate (width - length digits) " "%char ++ digits.

(** ['%6d %6d %3d\n' % tuple(e)]. *)
Definition format_event (e : row) : text :=
  format_d 6 (col0 e) ++ [" "%char] ++ format_d 6 (col1 e) ++ [" "%char]
    ++ format_d 3 (col2 e) ++ [newline].

(** The text branch of [write_events] (lines 303-306): what the file holds
    after the call. *)
Definition write_events (event_list : list row) : text :=
  concat (format_event <$> event_list).

(** [s.split(sep)]: the segments between the separators. *)
Fixpoint split_on (sep : ascii → bool) (s : text) : list text :=
  match s with
  | [] => [[]]
  | c :: s' =>
      if sep c then [] :: split_on sep s'
      else match split_on sep s' with
           | seg :: segs => (c :: seg) :: segs
           | [] => [[c]]
           end
  end.

(** The whitespace of [str.split()]. *)
Definition is_space (c : ascii) : bool :=
  let n := nat_of_ascii c in
  bool_decide (n = 32 ∨ (9 ≤ n ∧ n ≤ 13))%nat.

Definition is_char (c d : ascii) : bool := Ascii.eqb d c.

(** [float(tok)] for the literals [[+-]digits] and [[+-]digits.digits];
    exponents, [inf] and [nan] are outside the embedding and count as a
    conversion failure. *)
Definition float_of_text (tok : text) : option Q :=
  let '(negative, body) :=
    match tok with
    | c :: t => if is_char "-" c then (true, t)
                else if is_char "+" c then (false, t) else (false, tok)
    | [] => (false, tok)
    end in
  let signed (q : Q) : Q := if negative then (- q)%Q else q in
  match split_on (is_char ".") body with
  | [ip] =>
      u ← NilZero.uint_of_string (string_of_list_ascii ip);
      Some (signed (inject_Z (Z.of_uint u)))
  | [ip; fp] =>
      if bool_decide (ip = [] ∧ fp = []) then None
      else
        i ← NilEmpty.uint_of_string (string_of_list_ascii ip);
        f ← NilEmpty.uint_of_string (string_of_list_ascii fp);
        Some (signed (inject_Z (Z.of_uint i)
                      + inject_Z (Z.of_uint f) / inject_Z (10 ^ Z.of_nat (length fp)))%Q)
  | _ => None
  end.

(** [np.loadtxt(filename, dtype=np.float64)] before the final squeeze: the
    rows of numbers of the lines that hold a field; [#] starts a comment.
    All rows must have as many fields as the first. *)
Definition loadtxt_rows (content : text) : result (list (list Q)) :=
  let lines := split_on (is_char newline) content in
  let fields line :=
    filter (λ f, f ≠ []) (split_on is_space (hd [] (split_on (is_char "#") line))) in
  let lines := filter (λ fs, fs ≠ []) (fields <$> lines) in
  match mapM (mapM float_of_text) lines with
  | None => Raise Numpy_ValueError_loadtxt
  | Some rows =>
      match rows with
      | [] => OK []
      | r :: _ =>
          if forallb (λ r', bool_decide (length r' = length r)) rows then OK rows
          else Raise Numpy_ValueError_loadtxt
      end
  end.

(** [x.astype(np.uint32)] of a float. *)
Definition astype_uint32 (q : Q) : Z := py_int q `mod` 2 ^ 32.

(** Lines 245-250: the loaded array is squeezed by [loadtxt] (one row, or one
    column, gives a 1-D array; one number gives a 0-d array) and a 1-D array
    becomes a single row. *)
Definition load_lines (content : text) : result (list (list Z)) :=
  rows ← loadtxt_rows content;
  let rows := fmap (M := list) astype_uint32 <$> rows in
  match rows with
  | [] => Raise ValueError_no_text_lines
  | [[_]] => Raise TypeError_len_unsized
  | [r] => OK [r]
  | r :: _ => if bool_decide (length r = 1%nat) then OK [concat rows] else OK rows
  end.

(** The text branch of [read_events] (lines 242-266). *)
Definition read_events (content : text) (include exclude : option (list Z))
    (mask : pyobj) : result (list row) :=
  lines ← load_lines content;
  goods ← match lines with
          | r :: _ =>
              if bool_decide (length r = 4%nat) then OK [0; 2; 3]%nat  (* Omit "time" variable *)
              else if bool_decide (length r = 3%nat) then OK [0; 1; 2]%nat
              else Raise ValueError_unknown_columns
          | [] => Raise Numpy_IndexError
          end;
  let event_list : list row :=
    (λ line, match np_take line goods with
             | [a; b; c] => (a, b, c)
             | _ => (0, 0, 0)
             end) <$> lines in
  let event_list :=
    match event_list with
    | e :: rest => if bool_decide (col2 e = 0) then rest else event_list
    | [] => event_list
    end in
  event_list ← pick_events event_list include exclude false;
  _mask_trigs event_list mask.

(** ** The arrays as objects: which array a call writes and returns *)

Module Store.

(** An array object is a location; the store gives every live array its
  rows.  A call runs on a store and leaves a store, also when it
  raises. *)
Abbreviation loc := positive.
Abbreviation store := (gmap loc (list row)).
Definition M (A : Type) : Type := store → result A * store.

#[global] Instance M_ret : MRet M := λ A a σ, (OK a, σ).
#[global] Instance M_bind : MBind M := λ A B k m σ,
match m σ with
| (OK a, σ') => k a σ'
| (Raise e, σ') => (Raise e, σ')
end.

Definition raise {A : Type} (e : exn) : M A := λ σ, (Raise e, σ).

(** The value-level functions, for the contents computed by a call. *)
#[local] Abbreviation shifted_rows := shift_time_events (only parsing).
#[local] Abbreviation target_events := define_target_events (only parsing).

(** A new array object holding [a]: [a.copy()], [np.array(...)],
  [a[mask]], [np.concatenate(...)]. *)
Definition alloc (a : list row) : M loc := λ σ,
let l := fresh (dom σ) in (OK l, <[l := a]> σ).

(** The rows of an array object. *)
Definition read (l : loc) : M (list row) := λ σ, (OK (default [] (σ !! l)), σ).

(** In-place assignment into an array object. *)
Definition write (l : loc) (a : list row) : M unit := λ σ, (OK tt, <[l := a]> σ).

(** Lines 629-642.  [events[:, 1:] = ...] assigns into the argument;
  [events[events[:, 1] != events[:, 2]]] is a new array. *)
Definition _mask_trigs (events : loc) (mask : pyobj) : M loc :=
if negb (isinstance_int mask) then raise TypeError_mask_not_int
else
  a ← read events;
  if bool_decide (length a = 0%nat) then alloc a
  else
    match bitwise_not_mask mask with
    | Some m =>
        _ ← write events (mask_row m <$> a);
        a ← read events;
        alloc (filter (λ r, is_step r = true) a)
    | None => raise TypeError_mask_not_int
    end.

(** Lines 48-72: [events[mask]] and [np.copy(events)] are new arrays. *)
Definition pick_events (events : loc) (include exclude : option (list Z))
  (step : bool) : M loc :=
a ← read events;
events ← alloc (pick_rows a include exclude step);
a ← read events;
if bool_decide (length a = 0%nat) then raise RuntimeError_no_events
else mret events.

(** Lines 690-703: [np.asarray] of an array is the array itself;
  [events_out] is a copy, written by the loop; concatenation and the
  sorted selection are new arrays. *)
Definition merge_events (events : loc) (ids : list Z) (new_id : Z)
  (replace_events : bool) : M loc :=
a ← read events;
events_out ← alloc a;
let '(out, idx_touched) := merge_loop a ids new_id in
_ ← write events_out out;
if negb replace_events then
  if bool_decide (length idx_touched = 0%nat) then raise Numpy_ValueError_concatenate_none
  else
    let idx_touched := np_unique (concat idx_touched) in
    events_out ← alloc (out ++ np_take a idx_touched);
    out ← read events_out;
    alloc (lexsort_rows out)
else mret events_out.

(** Lines 726-729: the loop writes into the copy. *)
Definition shift_time_events (events : loc) (ids : list Z) (tshift sfreq : Q) : M loc :=
a ← read events;
events ← alloc a;
_ ← write events (shifted_rows a ids tshift sfreq);
mret events.

(** Lines 112-146: the loop runs over the rows of a copy and relabels
  them there; [res] is read from the argument; the returned events are a
  new array.  The lags are returned by value. *)
Definition define_target_events (events : loc) (reference_id target_id : Z)
  (sfreq tmin tmax : Q) (new_id fill_na : option Z) : M (loc * list (option Q)) :=
a ← read events;
if Qeq_bool sfreq 0 then raise ZeroDivisionError
else
  copy ← alloc a;
  let '(relabelled, _, _) :=
    target_loop a reference_id target_id (py_int (tmin * sfreq)) (py_int (tmax * sfreq))
      (default reference_id new_id) fill_na in
  _ ← write copy relabelled;
  match target_events a reference_id target_id sfreq tmin tmax new_id fill_na with
  | Raise e => raise e
  | OK (new_events, lag) => out ← alloc new_events; mret (out, lag)
  end.

(** Lines 821-827: one round of the loop of [concatenate_events]; [e] is
  copied, the copy is shifted in place twice, and a new array holds the
  concatenation. *)
Definition concatenate_step (first0 : Z) (acc : M loc) (p : loc * Z * Z) : M loc :=
let '(e, f, n) := p in
events_out ← acc;
a ← read e;
e2 ← alloc a;
(* remove any skip since it doesn't exist in concatenated files *)
_ ← write e2 ((λ r, set_col0 (col0 r - f) r) <$> a);
(* add offset due to previous files, plus original file offset *)
a2 ← read e2;
_ ← write e2 ((λ r, set_col0 (col0 r + (n + first0)) r) <$> a2);
out ← read events_out;
a2 ← read e2;
alloc (out ++ a2).

(** Lines 811-829: [events_out] starts as the first array itself. *)
Definition concatenate_events (events : list loc) (first_samps last_samps : list Z)
  : M loc :=
if negb (bool_decide (length events = length last_samps)
         && bool_decide (length events = length first_samps))
then raise ValueError_lengths_differ
else
  let n_samps := np_cumsum (zip_with (λ l f, l - f + 1) last_samps first_samps) in
  match events, first_samps with
  | events0 :: events_rest, first0 :: first_rest =>
      foldl (concatenate_step first0) (mret events0)
            (zip (zip events_rest first_rest) (removelast n_samps))
  | _, _ => raise Numpy_IndexError
  end.

(** A store with one array, for the examples. *)
Definition example_store : gmap positive (list row) :=
{[ 1%positive := [(1, 3, 1); (4, 0, 7)] ]}.

End Store.


(** ** The public step detector: [find_stim_steps] *)

(** Lines 395-406.  [raw[picks, :]] is [stim_data raw], as in
    [find_events]; here the absolute value is taken on the float samples,
    when one of them is negative, before the conversion to 64-bit
    integers. *)
Definition find_stim_steps (raw : Raw) (pad_start pad_stop : option Z) (merge : Z)
    : result (list row) :=
  if bool_decide (length (stim_data raw) = 0%nat) then Raise ValueError_no_stim_channel
  else
    let data := stim_data raw in
    let data :=
      if existsb (λ q, if Qlt_le_dec q 0 then true else false) (concat data)
      then fmap (M := list) Qabs <$> data  (* make sure trig channel is positive *)
      else data in
    let data := fmap (M := list) np_astype_int <$> data in
    _find_stim_steps data (first_samp raw) pad_start pad_stop merge.

(** ** Event lists in FIF files: [_read_events_fif] *)

(** The failures of [_read_events_fif] and of the numpy and Python
    operations it uses. *)
Inductive fif_exn : Type :=
| ValueError_no_event_data   (* "Could not find event data" *)
| ValueError_no_event_list   (* "Could not find any events" *)
| ValueError_unpack          (* for v, k in m_: an item without a ':' *)
| ValueError_int_literal     (* int(v): v is not an integer literal *)
| Numpy_ValueError_reshape.  (* reshape: the size is not a multiple of 3 *)

Inductive fif_result (A : Type) : Type :=
| Read (a : A)
| Fail (e : fif_exn).
Arguments Read {A} a.
Arguments Fail {A} e.

(** [s.split(sep, 1)]: split at the first separator only. *)
Fixpoint split_once (sep : ascii → bool) (s : text) : list text :=
  match s with
  | [] => [[]]
  | c :: s' =>
      if sep c then [[]; s']
      else match split_once sep s' with
           | seg :: segs => (c :: seg) :: segs
           | [] => [[c]]
           end
  end.

(** [s.lstrip()] and [s.strip()]. *)
Fixpoint lstrip (s : text) : text :=
  match s with
  | c :: s' => if is_space c then lstrip s' else s
  | [] => []
  end.

Definition strip (s : text) : text := reverse (lstrip (reverse (lstrip s))).

(** [int(v)] on a string: blanks around an optional sign and decimal
    digits.  Other literals are a conversion failure. *)
Definition int_of_text (tok : text) : option Z :=
  let tok := strip tok in
  let '(negative, body) :=
    match tok with
    | c :: t => if is_char "-" c then (true, t)
                else if is_char "+" c then (false, t) else (false, tok)
    | [] => (false, tok)
    end in
  u ← NilZero.uint_of_string (string_of_list_ascii body);
  Some (if negative then - Z.of_uint u else Z.of_uint u).

(** Lines 181-184: the description [key:id;key:id;...] becomes a dict;
    every item is cut at its last [':'] ("deal with ':' in keys"), and a
    key that comes again replaces the earlier one. *)
Definition parse_mappings (mappings : text) : fif_result (gmap text Z) :=
  let m_ :=
    (λ m, reverse <$> split_once (is_char ":") (reverse m))
      <$> split_on (is_char ";") mappings in
  foldl (λ acc item,
           match acc with
           | Fail e => Fail e
           | Read d =>
               match item with
               | [v; k] =>
                   match int_of_text v with
                   | Some z => Read (<[k := z]> d)
                   | None => Fail ValueError_int_literal
                   end
               | _ => Fail ValueError_unpack
               end
           end)
        (Read ∅) m_.

(** [event_list.reshape(len(event_list) // 3, 3)]. *)
Fixpoint reshape3 (a : list Z) : option (list row) :=
  match a with
  | [] => Some []
  | x :: y :: z :: rest => cons (x, y, z) <$> reshape3 rest
  | _ => None
  end.

(** An entry of the directory of a block, with the data that [read_tag]
    reads at its position: the kind of a tag decides what it holds. *)
Inductive dir_entry : Type :=
| Tag_event_list (data : list Z)   (* kind FIFF.FIFF_MNE_EVENT_LIST *)
| Tag_description (data : text)    (* kind FIFF.FIFF_DESCRIPTION *)
| Tag_other.

(** The [for ... else] searches: the first tag of the kind, if any. *)
Fixpoint first_event_list (directory : list dir_entry) : option (list Z) :=
  match directory with
  | [] => None
  | Tag_event_list data :: _ => Some data
  | _ :: rest => first_event_list rest
  end.

Fixpoint first_description (directory : list dir_entry) : option text :=
  match directory with
  | [] => None
  | Tag_description data :: _ => Some data
  | _ :: rest => first_description rest
  end.

(** Lines 149-188.  [events] is [dir_tree_find(tree, FIFF.FIFFB_MNE_EVENTS)],
    the directories of the event blocks of the file. *)
Definition _read_events_fif (events : list (list dir_entry))
    : fif_result (list row * option (gmap text Z)) :=
  match events with
  | [] => Fail ValueError_no_event_data
  | directory :: _ =>
      match first_event_list directory with
      | None => Fail ValueError_no_event_list
      | Some event_list =>
          let mappings :=
            match first_description directory with
            | Some mappings =>  (* deal with ':' in keys *)
                match parse_mappings mappings with
                | Read d => Read (Some d)
                | Fail e => Fail e
                end
            | None => Read None
            end in
          match mappings with
          | Fail e => Fail e
          | Read mappings =>
              match reshape3 event_list with
              | Some event_list => Read (event_list, mappings)
              | None => Fail Numpy_ValueError_reshape
              end
          end
      end
  end.

(** The description that holds the pairs [items]: [key:id] joined by
    [';']. *)
Fixpoint format_mappings (items : list (text * Z)) : text :=
  match items with
  | [] => []
  | [(k, z)] => k ++ ":"%char :: str_of_int z
  | (k, z) :: rest => k ++ ":"%char :: str_of_int z ++ ";"%char :: format_mappings rest
  end.

(** * Properties *)

(** ** Facts about the numpy helpers *)

Lemma filter_seq_last (P : nat → Prop) `{∀ i, Decision (P i)} (n i : nat) :
  last (filter P (seq 0 n)) = Some i →
  (i < n)%nat ∧ P i ∧ ∀ j, (i < j < n)%nat → ¬ P j.
Proof.
  induction n as [|n IH]; [done|].
  rewrite seq_S, filter_app. cbn [Nat.add].
  rewrite filter_cons, filter_nil. destruct (decide (P n)) as [HP|HP].
  - rewrite last_snoc. intros [= <-]. split; [lia|]. split; [done|]. intros j ?; lia.
  - rewrite app_nil_r. intros Hl. destruct (IH Hl) as (? & ? & Hj).
    split; [lia|]. split; [done|]. intros j ?.
    destruct (decide (j = n)) as [->|]; [done|]. apply Hj; lia.
Qed.

Lemma elem_of_np_where (mask : list bool) (i : nat) :
  i ∈ np_where mask ↔ mask !! i = Some true.
Proof.
  unfold np_where. rewrite list_elem_of_filter, elem_of_seq. split; [tauto|].
  intros Hi. split; [done|]. apply lookup_lt_Some in Hi. lia.
Qed.

Lemma np_diff_lookup (a : list Z) (i : nat) (x y : Z) :
  a !! i = Some x → a !! S i = Some y → np_diff a !! i = Some (y - x).
Proof.
  intros Hx Hy. unfold np_diff. apply lookup_zip_with_Some.
  exists x, y. rewrite lookup_tail. done.
Qed.

Lemma np_diff_length (a : list Z) : length (np_diff a) = pred (length a).
Proof.
  unfold np_diff. rewrite length_zip_with, length_tl. lia.
Qed.

Lemma np_all_axis0_single (first : list bool) : np_all_axis0 first [] = first.
Proof.
  unfold np_all_axis0. rewrite <- (list_fmap_id first) at 2.
  rewrite <- imap_const. apply imap_ext. intros i b _. cbn. apply andb_true_r.
Qed.

(** ** The docstring recording *)

(** C1.  The calls of the docstring of [find_events] on the samples
    [0, 32, 32, 33, 32, 0] with [first_samp = 0], evaluated as the docstring
    writes them (every other argument at its default, so
    [shortest_event=2]): the calls with [consecutive='increasing'] and
    [consecutive=False] return the rows the docstring lists, but the three
    calls with [consecutive=True] do not return the listed rows: the events
    at samples 3 and 4 are one sample apart and the spacing check raises
    [ValueError]. *)
Theorem find_events_docstring_example :
  find_events example_raw "onset" Increasing 0 2 (PyInt 0) false
    = OK [(1, 0, 32); (3, 32, 33)]
  ∧ find_events example_raw "onset" (Consecutive false) 0 2 (PyInt 0) false
    = OK [(1, 0, 32)]
  ∧ find_events example_raw "onset" (Consecutive true) 0 2 (PyInt 0) false
    = Raise (ValueError_short_events 1)
  ∧ find_events example_raw "offset" (Consecutive true) 0 2 (PyInt 0) false
    = Raise (ValueError_short_events 2)
  ∧ find_events example_raw "step" (Consecutive true) 0 2 (PyInt 0) false
    = Raise (ValueError_short_events 2).
Proof. repeat split; vm_compute; reflexivity. Qed.

(** The rows that the docstring lists for [consecutive=True] are what the
    call returns once [shortest_event=1] is passed. *)
Example find_events_docstring_shortest_event_1 :
  find_events example_raw "onset" (Consecutive true) 0 1 (PyInt 0) false
    = OK [(1, 0, 32); (3, 32, 33); (4, 33, 32)]
  ∧ find_events example_raw "offset" (Consecutive true) 0 1 (PyInt 0) false
    = OK [(2, 33, 32); (3, 32, 33); (4, 0, 32)]
  ∧ find_events example_raw "step" (Consecutive true) 0 1 (PyInt 0) false
    = OK [(1, 0, 32); (3, 32, 33); (4, 33, 32); (5, 32, 0)].
Proof. repeat split; vm_compute; reflexivity. Qed.

(** The helper [_find_events], which has no spacing check, returns the five
    listed results. *)
Example _find_events_docstring_example :
  let data := [inject_Z <$> [0; 32; 32; 33; 32; 0]] in
  _find_events data 0 "onset" Increasing 0 (PyInt 0) false = OK [(1, 0, 32); (3, 32, 33)]
  ∧ _find_events data 0 "onset" (Consecutive false) 0 (PyInt 0) false = OK [(1, 0, 32)]
  ∧ _find_events data 0 "onset" (Consecutive true) 0 (PyInt 0) false
    = OK [(1, 0, 32); (3, 32, 33); (4, 33, 32)]
  ∧ _find_events data 0 "offset" (Consecutive true) 0 (PyInt 0) false
    = OK [(2, 33, 32); (3, 32, 33); (4, 0, 32)]
  ∧ _find_events data 0 "step" (Consecutive true) 0 (PyInt 0) false
    = OK [(1, 0, 32); (3, 32, 33); (4, 33, 32); (5, 32, 0)].
Proof. repeat split; vm_compute; reflexivity. Qed.

(** ** Masker *)

(** C6 (amended).  [_mask_trigs] raises exactly when the mask is not an
    instance of [int]; every [int] mask, negative ones included, is
    accepted: the complement of the mask is ANDed into both value columns,
    the rows whose two values are then equal are dropped, and an empty input
    gives an empty output.  A [bool], being an [int] for [isinstance], is
    accepted as well. *)
Theorem mask_trigs_contract (events : list row) :
  (∀ m : Z,
     _mask_trigs events (PyInt m)
     = OK (filter (λ r, col1 r ≠ col2 r)
             ((λ r, (col0 r, Z.land (col1 r) (Z.lnot m), Z.land (col2 r) (Z.lnot m)))
                <$> events)))
  ∧ (∀ m : Z, _mask_trigs [] (PyInt m) = OK [])
  ∧ (∀ b : bool, ∃ kept, _mask_trigs events (PyBool b) = OK kept)
  ∧ (∀ q, _mask_trigs events (PyFloat q) = Raise TypeError_mask_not_int)
  ∧ (∀ s, _mask_trigs events (PyStr s) = Raise TypeError_mask_not_int)
  ∧ _mask_trigs events PyNone = Raise TypeError_mask_not_int.
Proof.
  split; [|split; [done|split; [|done]]].
  - intros m. unfold _mask_trigs. cbn.
    case_bool_decide as Hlen.
    + destruct events; [done | discriminate].
    + f_equal. apply list_filter_iff. intros r. unfold is_step.
      rewrite bool_decide_eq_true. done.
  - intros b. unfold _mask_trigs. cbn. case_bool_decide; eauto.
Qed.

(** A negative mask is an [int]: it is not rejected. *)
Lemma mask_trigs_negative_mask_accepted :
  ¬ (∃ e, _mask_trigs [(1, 0, 5)] (PyInt (-1)) = Raise e).
Proof. intros [e He]. vm_compute in He. discriminate. Qed.

Example mask_trigs_negative_mask_result :
  _mask_trigs [(1, 0, 5); (4, 5, 0)] (PyInt (-1)) = OK [].
Proof. reflexivity. Qed.

(** ** StepDetector: boundary padding *)

Lemma changed_lookup_false (ch : list Z) (j : nat) :
  changed ch !! j = Some false → ch !! S j = ch !! j.
Proof.
  unfold changed. rewrite list_lookup_fmap. intros Hj.
  destruct (np_diff ch !! j) as [d|] eqn:Hd; [|done].
  cbn in Hj. injection Hj as Hj. apply bool_decide_eq_false in Hj.
  assert (d = 0) by (destruct (decide (d = 0)); tauto). subst d.
  unfold np_diff in Hd. apply lookup_zip_with_Some in Hd.
  destruct Hd as (x & y & Hxy & Hx & Hy). rewrite lookup_tail in Hy.
  rewrite Hx, Hy. f_equal. lia.
Qed.

Lemma changed_length (ch : list Z) : length (changed ch) = pred (length ch).
Proof. unfold changed. rewrite length_fmap. apply np_diff_length. Qed.

(** After the last change of a single channel the value stays what it is. *)
Lemma constant_after_last_change (ch : list Z) (i : nat) :
  (∀ j, (i < j < length (changed ch))%nat → changed ch !! j ≠ Some true) →
  ∀ k, (i < k < length ch)%nat → ch !! k = ch !! S i.
Proof.
  intros Hflat k. induction k as [|k IH]; [lia|].
  intros Hk. destruct (decide (k = i)) as [->|Hne]; [done|].
  rewrite <- IH by lia. apply changed_lookup_false.
  assert (k < length (changed ch))%nat as Hlt by (rewrite changed_length; lia).
  destruct (lookup_lt_is_Some_2 _ _ Hlt) as [[|] Hb]; [|done].
  exfalso. apply (Hflat k); [lia | done].
Qed.

Lemma detect_steps_single (ch0 : list Z) (first_samp : Z) :
  detect_steps ch0 [] first_samp
  = (λ i, (Z.of_nat (i + 1) + first_samp, ch0 !!! i, ch0 !!! (i + 1)%nat))
      <$> np_where (changed ch0).
Proof. unfold detect_steps. cbn. by rewrite np_all_axis0_single. Qed.

Lemma detect_steps_last_single (ch0 : list Z) (first_samp : Z) (r : row) :
  last (detect_steps ch0 [] first_samp) = Some r → last ch0 = Some (col2 r).
Proof.
  rewrite detect_steps_single, fmap_last. unfold np_where.
  destruct (last _) as [i|] eqn:Hi; [|done]. intros [= <-].
  apply filter_seq_last in Hi as (Hlt & _ & Hflat).
  rewrite changed_length in Hlt.
  rewrite last_lookup.
  rewrite (constant_after_last_change ch0 i).
  - unfold col2. cbn. replace (i + 1)%nat with (S i) by lia.
    apply list_lookup_lookup_total_lt. lia.
  - intros j Hj. apply Hflat. rewrite changed_length in Hj. rewrite changed_length. lia.
  - lia.
Qed.

(** Every detected transition lies after the first sample of the recording,
    and is a real change of channel 0. *)
Lemma detect_steps_elem (ch0 : list Z) (others : list (list Z)) (first_samp : Z) (r : row) :
  r ∈ detect_steps ch0 others first_samp →
  ∃ i : nat, r = (Z.of_nat (i + 1) + first_samp, ch0 !!! i, ch0 !!! (i + 1)%nat)
             ∧ (i + 1 < length ch0)%nat ∧ ch0 !!! i ≠ ch0 !!! (i + 1)%nat.
Proof.
  unfold detect_steps. intros Hr. apply list_elem_of_fmap in Hr as (i & -> & Hi).
  exists i. split; [done|]. apply elem_of_np_where in Hi.
  unfold np_all_axis0 in Hi. rewrite list_lookup_imap in Hi.
  destruct (_ !! i) as [b|] eqn:Hb; [|done]. cbn in Hi. injection Hi as Hi.
  apply andb_true_iff in Hi as [-> _].
  unfold changed in Hb. rewrite list_lookup_fmap in Hb.
  destruct (np_diff ch0 !! i) as [d|] eqn:Hd; [|done].
  cbn in Hb. injection Hb as Hb. apply bool_decide_eq_true in Hb.
  unfold np_diff in Hd. apply lookup_zip_with_Some in Hd.
  destruct Hd as (x & y & Hxy & Hx & Hy). rewrite lookup_tail in Hy.
  replace (i + 1)%nat with (S i) by lia.
  rewrite (list_lookup_total_correct _ _ _ Hx), (list_lookup_total_correct _ _ _ Hy).
  apply lookup_lt_Some in Hy. split; [lia|]. lia.
Qed.

(** A channel that holds the same nonzero value throughout has a nonzero
    final sample, yet the detector (called as [_find_events] calls it)
    returns no transition: nothing is appended. *)
Lemma constant_channel_gets_no_tail_pad :
  last [5; 5; 5] = Some 5
  ∧ ¬ ((3, 5, 0) ∈ default [] (match _find_stim_steps [[5; 5; 5]] 0 None (Some 0) 0 with
                               | OK steps => Some steps
                               | Raise _ => None
                               end)).
Proof. split; [reflexivity|]. vm_compute. apply not_elem_of_nil. Qed.

Example constant_channel_no_steps :
  _find_stim_steps [[5; 5; 5]] 0 None (Some 0) 0 = OK []
  ∧ find_events (mkRaw [[5; 5; 5]%Q] 0 2 1000) "step" (Consecutive true) 0 2 (PyInt 0) false
    = OK [].
Proof. split; vm_compute; reflexivity. Qed.

(** ** StepDetector: merging *)

Section Merge.

Variable merge : Z.

(** The flags [diff <= abs(merge)] of the source, pair by pair. *)
Lemma merge_flags (steps : list row) :
  (λ d, bool_decide (d ≤ Z.abs merge)) <$> np_diff (col0 <$> steps)
  = zip_with (close_pair merge) steps (tail steps).
Proof.
  destruct steps as [|r rest]; [done|]. revert r.
  induction rest as [|s rest IH]; intros r; [done|].
  specialize (IH s). unfold np_diff in *. cbn in *. by rewrite IH.
Qed.

Lemma flags_lookup (steps : list row) (w : nat) :
  zip_with (close_pair merge) steps (tail steps) !! w = Some true
  ↔ ∃ r s, steps !! w = Some r ∧ steps !! S w = Some s ∧ close_pair merge r s = true.
Proof.
  rewrite lookup_zip_with_Some. setoid_rewrite lookup_tail.
  split; intros (r & s & H1 & H2 & H3); exists r, s; [by subst | done].
Qed.

(** Fancy-index assignment: a position that is no target keeps its row;
    a target gets the value read for it. *)
Lemma assign_col_other setc (t : nat → nat) (v : nat → Z) (ws : list nat)
    (a : list row) (j : nat) :
  (∀ w, w ∈ ws → t w ≠ j) →
  assign_col setc (t <$> ws) (v <$> ws) a !! j = a !! j.
Proof.
  unfold assign_col. revert a. induction ws as [|w ws IH]; intros a Hj; [done|].
  cbn. rewrite IH by (intros w' ?; apply Hj; by right).
  apply list_lookup_alter_ne, Hj. by left.
Qed.

Lemma assign_col_target setc (t : nat → nat) (v : nat → Z)
    (ws : list nat) (a : list row) (w : nat) :
  Inj (=) (=) t → NoDup ws → w ∈ ws →
  assign_col setc (t <$> ws) (v <$> ws) a !! t w = setc (v w) <$> a !! t w.
Proof.
  intros Hinj. revert a.
  induction ws as [|w0 ws IH]; intros a Hnd Hw; [by apply elem_of_nil in Hw|].
  apply NoDup_cons in Hnd as [Hw0 Hnd].
  apply elem_of_cons in Hw as [->|Hw].
  - change (assign_col setc (t <$> w0 :: ws) (v <$> w0 :: ws) a)
      with (assign_col setc (t <$> ws) (v <$> ws) (alter (setc (v w0)) (t w0) a)).
    rewrite assign_col_other; [apply list_lookup_alter_eq|].
    intros w' Hw' Heq. apply (inj t) in Heq. by subst.
  - change (assign_col setc (t <$> w0 :: ws) (v <$> w0 :: ws) a)
      with (assign_col setc (t <$> ws) (v <$> ws) (alter (setc (v w0)) (t w0) a)).
    rewrite IH by done. f_equal. apply list_lookup_alter_ne.
    intros Heq. apply (inj t) in Heq. by subst.
Qed.

Lemma np_where_NoDup (mask : list bool) : NoDup (np_where mask).
Proof. unfold np_where. apply NoDup_filter, NoDup_seq. Qed.

(** The rows after [steps[where + 1, 1] = steps[where, 1]]. *)
Lemma assign_later (steps : list row) :
  let where_ := np_where (zip_with (close_pair merge) steps (tail steps)) in
  assign_col set_col1 (S <$> where_) ((λ w, col1 (steps !!! w)) <$> where_) steps
  = zip_with (inherit_before merge) (None :: (Some <$> steps)) steps.
Proof.
  intros where_. apply list_eq. intros j.
  rewrite lookup_zip_with. destruct j as [|w].
  - rewrite assign_col_other by (intros; lia). cbn.
    by destruct (steps !! 0%nat).
  - change ((None :: (Some <$> steps)) !! S w) with ((Some <$> steps) !! w).
    rewrite list_lookup_fmap.
    destruct (decide (w ∈ where_)) as [Hw|Hw].
    + rewrite (assign_col_target set_col1 S)
        by (done || apply np_where_NoDup || apply Nat.succ_inj).
      apply elem_of_np_where, flags_lookup in Hw as (r & s & Hr & Hs & Hc).
      rewrite Hr, Hs. cbn. unfold inherit_before, combined. rewrite Hc.
      by rewrite (list_lookup_total_correct _ _ _ Hr).
    + rewrite assign_col_other by (intros w' ? [= ->]; done).
      destruct (steps !! w) as [r|] eqn:Hr; cbn.
      * destruct (steps !! S w) as [s|] eqn:Hs; [|done]. cbn.
        unfold inherit_before, combined.
        destruct (close_pair merge r s) eqn:Hc; [|done].
        exfalso. apply Hw, elem_of_np_where, flags_lookup. eauto.
      * assert (steps !! S w = None) as ->; [|done].
        apply lookup_ge_None. apply lookup_ge_None in Hr. lia.
Qed.

(** The rows after [steps[where, 2] = steps[where + 1, 2]]. *)
Lemma assign_earlier (steps : list row) :
  let where_ := np_where (zip_with (close_pair merge) steps (tail steps)) in
  assign_col set_col2 where_ ((λ w, col2 (steps !!! S w)) <$> where_) steps
  = zip_with (inherit_after merge) steps ((Some <$> tail steps) ++ [None]).
Proof.
  intros where_. apply list_eq. intros j.
  rewrite lookup_zip_with.
  destruct (decide (j ∈ where_)) as [Hj|Hj].
  - pose proof (assign_col_target set_col2 id (λ w, col2 (steps !!! S w)) where_ steps j
                  _ (np_where_NoDup _) Hj) as Hlook.
    rewrite list_fmap_id in Hlook. unfold id in Hlook at 1. rewrite Hlook. clear Hlook.
    apply elem_of_np_where, flags_lookup in Hj as (r & s & Hr & Hs & Hc).
    rewrite Hr. cbn. rewrite lookup_app_l.
    2:{ rewrite length_fmap, length_tl. apply lookup_lt_Some in Hs. lia. }
    rewrite list_lookup_fmap, lookup_tail, Hs. cbn.
    unfold inherit_after, combined. rewrite Hc.
    rewrite (list_lookup_total_correct _ _ _ Hs). unfold id. by rewrite Hr.
  - pose proof (assign_col_other set_col2 id (λ w, col2 (steps !!! S w)) where_ steps j)
      as Hlook.
    rewrite list_fmap_id in Hlook. rewrite Hlook by (intros w' ? Heq; unfold id in Heq; by subst). clear Hlook.
    destruct (steps !! j) as [r|] eqn:Hr; [|done]. cbn.
    destruct (steps !! S j) as [s|] eqn:Hs.
    + rewrite lookup_app_l.
      2:{ rewrite length_fmap, length_tl. apply lookup_lt_Some in Hs. lia. }
      rewrite list_lookup_fmap, lookup_tail, Hs. cbn.
      unfold inherit_after, combined.
      destruct (close_pair merge r s) eqn:Hc; [|done].
      exfalso. apply Hj, elem_of_np_where, flags_lookup. eauto.
    + apply lookup_ge_None in Hs. apply lookup_lt_Some in Hr.
      rewrite lookup_app_r by (rewrite length_fmap, length_tl; lia).
      rewrite length_fmap, length_tl.
      replace (j - (length steps - 1))%nat with 0%nat by lia. done.
Qed.

Lemma filter_all {A} (P : A → Prop) `{∀ x, Decision (P x)} (l : list A) :
  Forall P l → filter P l = l.
Proof.
  induction 1 as [|x l Hx _ IH]; [done|].
  rewrite filter_cons, decide_True by done. by rewrite IH.
Qed.

Lemma np_select_cons {A} (x : A) (a : list A) (b : bool) (mask : list bool) :
  np_select (x :: a) (b :: mask) = if b then x :: np_select a mask else np_select a mask.
Proof.
  unfold np_select. change (zip (x :: a) (b :: mask)) with ((x, b) :: zip a mask).
  rewrite filter_cons. by destruct b.
Qed.

Lemma filter_step_singleton (r : row) :
  filter (λ r, col1 r ≠ col2 r) [r] = if bool_decide (col1 r ≠ col2 r) then [r] else [].
Proof. rewrite filter_cons, filter_nil. by case_bool_decide; case_decide. Qed.

(** Selection by [keep & is_step] against the one-pass rule, [merge > 0]. *)
Lemma select_later (prev : option row) (steps : list row) :
  let rows := zip_with (inherit_before merge) (prev :: (Some <$> steps)) steps in
  np_select rows
    (zip_with andb
       ((negb <$> zip_with (close_pair merge) steps (tail steps)) ++ [true])
       ((λ r, bool_decide (col1 r ≠ col2 r)) <$> rows))
  = filter (λ r, col1 r ≠ col2 r) (spec_merge_later merge prev steps).
Proof.
  revert prev. induction steps as [|r rest IH]; intros prev; [done|].
  specialize (IH (Some r)). cbn zeta in *.
  cbn [spec_merge_later]. rewrite filter_app, <- IH. clear IH.
  destruct rest as [|s rest]; simpl.
  - rewrite np_select_cons. rewrite filter_step_singleton.
    by destruct (bool_decide _).
  - rewrite np_select_cons.
    destruct (close_pair merge r s); simpl; [done|].
    rewrite filter_step_singleton. by destruct (bool_decide _).
Qed.

(** The same for [merge < 0]; the first flag is [True] when there is no
    earlier transition. *)
Lemma select_earlier (prev : option row) (steps : list row) :
  let rows := zip_with (inherit_after merge) steps ((Some <$> tail steps) ++ [None]) in
  np_select rows
    (zip_with andb
       (negb (combined merge prev (head steps))
          :: (negb <$> zip_with (close_pair merge) steps (tail steps)))
       ((λ r, bool_decide (col1 r ≠ col2 r)) <$> rows))
  = filter (λ r, col1 r ≠ col2 r) (spec_merge_earlier merge prev steps).
Proof.
  revert prev. induction steps as [|r rest IH]; intros prev; [done|].
  specialize (IH (Some r)). cbn zeta in *.
  cbn [spec_merge_earlier]. rewrite filter_app, <- IH. clear IH.
  destruct rest as [|s rest]; simpl.
  - rewrite np_select_cons.
    destruct (combined merge prev (Some r)); simpl; [done|].
    rewrite filter_step_singleton. by destruct (bool_decide _).
  - rewrite np_select_cons.
    destruct (combined merge prev (Some r)); simpl; [done|].
    rewrite filter_step_singleton. by destruct (bool_decide _).
Qed.

(** Without a close pair the one-pass rule changes nothing. *)
Lemma spec_merge_later_none (prev : option row) (steps : list row) :
  np_any (zip_with (close_pair merge) steps (tail steps)) = false →
  combined merge prev (head steps) = false →
  spec_merge_later merge prev steps = steps.
Proof.
  revert prev. induction steps as [|r rest IH]; intros prev Hany Hprev; [done|].
  cbn [spec_merge_later]. cbn in Hprev. unfold inherit_before. rewrite Hprev.
  destruct rest as [|s rest]; [done|].
  cbn in Hany. apply orb_false_iff in Hany as [Hrs Hany]. unfold id in Hrs.
  cbn [head combined]. rewrite Hrs. cbn [app]. f_equal.
  apply IH; [done|]. done.
Qed.

Lemma spec_merge_earlier_none (prev : option row) (steps : list row) :
  np_any (zip_with (close_pair merge) steps (tail steps)) = false →
  combined merge prev (head steps) = false →
  spec_merge_earlier merge prev steps = steps.
Proof.
  revert prev. induction steps as [|r rest IH]; intros prev Hany Hprev; [done|].
  cbn [spec_merge_earlier]. cbn in Hprev. rewrite Hprev.
  destruct rest as [|s rest]; [done|].
  cbn in Hany. apply orb_false_iff in Hany as [Hrs Hany]. unfold id in Hrs.
  unfold inherit_after. cbn [head combined]. rewrite Hrs. cbn [app]. f_equal.
  apply IH; [done|]. done.
Qed.

(** [merge_steps] is the one-pass rule on every list of genuine
    transitions. *)
Lemma merge_steps_spec (steps : list row) :
  merge ≠ 0 →
  Forall (λ r, col1 r ≠ col2 r) steps →
  merge_steps merge steps = spec_merge merge steps.
Proof.
  intros Hm Hsteps. unfold merge_steps, spec_merge.
  rewrite bool_decide_true by done. cbn zeta.
  rewrite merge_flags.
  destruct (np_any _) eqn:Hany.
  - case_bool_decide.
    + rewrite assign_later. apply select_later.
    + rewrite assign_earlier. apply (select_earlier None).
  - symmetry. case_bool_decide.
    + rewrite spec_merge_later_none by done.
      apply filter_all, Hsteps.
    + rewrite spec_merge_earlier_none by done.
      apply filter_all, Hsteps.
Qed.

End Merge.

(** Every row the detector hands to the merging stage is a genuine
    transition: its two values differ. *)
Lemma padded_steps_genuine (ch0 : list Z) (others : list (list Z)) (first_samp : Z)
    (pad_start pad_stop : option Z) :
  Forall (λ r, col1 r ≠ col2 r)
    (pad_steps_stop pad_stop (length ch0) first_samp
       (pad_steps_start pad_start (detect_steps ch0 others first_samp))).
Proof.
  assert (Forall (λ r, col1 r ≠ col2 r) (detect_steps ch0 others first_samp)) as Hd.
  { apply Forall_forall. intros r Hr.
    apply detect_steps_elem in Hr as (i & -> & _ & Hne). done. }
  assert (Forall (λ r, col1 r ≠ col2 r)
            (pad_steps_start pad_start (detect_steps ch0 others first_samp))) as Hs.
  { unfold pad_steps_start. destruct pad_start as [p|]; [|done].
    destruct (detect_steps _ _ _) as [|r l]; [done|].
    case_bool_decide as Hp; [|done]. apply Forall_cons. split; [|done].
    unfold col1, col2 in *. cbn. congruence. }
  unfold pad_steps_stop. destruct pad_stop as [p|]; [|done].
  destruct (last _) as [r|]; [|done].
  case_bool_decide as Hp; [|done]. apply Forall_app. split; [done|].
  apply Forall_singleton. done.
Qed.

(** C3.  For every [merge ≠ 0] the merging stage is the one-pass rule of
    the specification ([spec_merge]): on every list of transitions (rows
    whose two values differ) [merge_steps] combines the pairs at most
    [|merge|] samples apart once, toward the later transition (which takes
    the earlier value-before) for [merge > 0], toward the earlier one
    (which takes the later value-after) for [merge < 0], each pair judged
    on the transitions as they were before the pass, and then drops the
    transitions whose two values are equal.  What the step detector returns
    is that rule applied to the transitions it detected and padded (nothing
    when none is detected). *)
Theorem merge_single_pass (merge : Z) :
  merge ≠ 0 →
  (∀ steps, Forall (λ r, col1 r ≠ col2 r) steps →
            merge_steps merge steps = spec_merge merge steps)
  ∧ (∀ ch0 others first_samp pad_start pad_stop,
       _find_stim_steps (ch0 :: others) first_samp pad_start pad_stop merge
       = OK (spec_merge merge
               (if bool_decide (detect_steps ch0 others first_samp = []) then []
                else pad_steps_stop pad_stop (length ch0) first_samp
                       (pad_steps_start pad_start
                          (detect_steps ch0 others first_samp))))).
Proof.
  intros Hm. split; [intros steps; by apply merge_steps_spec|].
  intros ch0 others first_samp pad_start pad_stop. unfold _find_stim_steps.
  destruct (detect_steps ch0 others first_samp) as [|r steps] eqn:Hd.
  - rewrite !bool_decide_true by done. unfold spec_merge. by case_bool_decide.
  - rewrite !bool_decide_false by done. f_equal.
    apply merge_steps_spec; [done|]. rewrite <- Hd. apply padded_steps_genuine.
Qed.

Lemma merge_single_pass_witness :
  (1 ≠ 0)
  ∧ merge_steps 1 [(1, 0, 1); (2, 1, 2); (3, 2, 3); (4, 3, 0); (6, 0, 5); (8, 5, 0)]
    = spec_merge 1 [(1, 0, 1); (2, 1, 2); (3, 2, 3); (4, 3, 0); (6, 0, 5); (8, 5, 0)]
  ∧ _find_stim_steps [[0; 1; 2; 3; 0; 0; 5; 5; 0]] 0 None (Some 0) 1
    = OK (spec_merge 1
            [(1, 0, 1); (2, 1, 2); (3, 2, 3); (4, 3, 0); (6, 0, 5); (8, 5, 0)]).
Proof.
  split; [discriminate|].
  destruct (merge_single_pass 1 ltac:(discriminate)) as [Hlist Hdetector].
  split.
  - apply Hlist. repeat constructor; discriminate.
  - apply (Hdetector [0; 1; 2; 3; 0; 0; 5; 5; 0] [] 0 None (Some 0)).
Defined.

Example merge_single_pass_run :
  _find_stim_steps [[0; 1; 2; 3; 0; 0; 5; 5; 0]] 0 None (Some 0) 0
    = OK [(1, 0, 1); (2, 1, 2); (3, 2, 3); (4, 3, 0); (6, 0, 5); (8, 5, 0)]
  ∧ _find_stim_steps [[0; 1; 2; 3; 0; 0; 5; 5; 0]] 0 None (Some 0) 1
    = OK [(4, 2, 0); (6, 0, 5); (8, 5, 0)]
  ∧ _find_stim_steps [[0; 1; 2; 3; 0; 0; 5; 5; 0]] 0 None (Some 0) (-1)
    = OK [(1, 0, 2); (6, 0, 5); (8, 5, 0)]
  ∧ spec_merge 1 [(1, 0, 1); (2, 1, 2); (3, 2, 3); (4, 3, 0); (6, 0, 5); (8, 5, 0)]
    = [(4, 2, 0); (6, 0, 5); (8, 5, 0)]
  ∧ spec_merge (-1) [(1, 0, 1); (2, 1, 2); (3, 2, 3); (4, 3, 0); (6, 0, 5); (8, 5, 0)]
    = [(1, 0, 2); (6, 0, 5); (8, 5, 0)].
Proof. repeat split; vm_compute; reflexivity. Qed.

(** ** EventAlgebra: [merge_events] *)

#[global] Instance row_le_total : Total row_le.
Proof. intros r s. unfold row_le. lia. Qed.

#[global] Instance row_le_trans : Transitive row_le.
Proof. intros r s t. unfold row_le. lia. Qed.

#[global] Instance row_le_antisymm : AntiSymm (=) row_le.
Proof.
  intros [[a b] c] [[a' b'] c']. unfold row_le, col0, col1, col2. cbn.
  intros H1 H2. repeat f_equal; lia.
Qed.

Section MergeEvents.

Variables (ids : list Z) (new_id : Z).

Lemma zip_with_zip_with_r {A B} (f g : A → B → A) (l : list A) (k : list B) :
  zip_with f (zip_with g l k) k = zip_with (λ a b, f (g a b) b) l k.
Proof.
  revert k. induction l as [|a l IH]; intros [|b k]; [done..|].
  cbn. by rewrite IH.
Qed.

(** One row under the inner loop over [ids] for column [col]. *)
Lemma relabel_col_fold (col : nat) (orig out : row) :
  foldl (λ o i, if bool_decide (get_col col orig = i) then set_col col new_id o else o)
        out ids
  = if bool_decide (get_col col orig ∈ ids) then set_col col new_id out else out.
Proof.
  revert out. induction ids as [|i l IH]; intros out.
  - cbn. rewrite bool_decide_false; [done | apply not_elem_of_nil].
  - cbn [foldl]. rewrite IH. clear IH.
    destruct (decide (get_col col orig = i)) as [Heq|Hne].
    + rewrite (bool_decide_true (get_col col orig = i)) by done.
      rewrite (bool_decide_true (_ ∈ i :: l)) by (rewrite Heq; left).
      case_bool_decide; [|done].
      destruct out as [[a b] c]. by destruct col as [|[|?]].
    + rewrite (bool_decide_false (get_col col orig = i)) by done.
      rewrite (bool_decide_ext (get_col col orig ∈ i :: l) (get_col col orig ∈ l)); [done|].
      rewrite elem_of_cons. tauto.
Qed.

(** The inner loop of [merge_events] for one column. *)
Lemma merge_inner_loop (events : list row) (col : nat)
    (out : list row) (t : list (list nat)) :
  length out = length events →
  foldl (λ (st : list row * list (list nat)) i,
           let mask := (λ r, bool_decide (get_col col r = i)) <$> events in
           (assign_where mask col new_id st.1, st.2 ++ [np_where mask]))
        (out, t) ids
  = (zip_with (λ o r, if bool_decide (get_col col r ∈ ids)
                      then set_col col new_id o else o) out events,
     t ++ ((λ i, np_where ((λ r, bool_decide (get_col col r = i)) <$> events)) <$> ids)).
Proof.
  intros Hlen.
  transitivity
    (zip_with (λ o r,
       foldl (λ o i, if bool_decide (get_col col r = i) then set_col col new_id o else o)
             o ids) out events,
     t ++ ((λ i, np_where ((λ r, bool_decide (get_col col r = i)) <$> events)) <$> ids)).
  2:{ f_equal. apply zip_with_ext; [|done..]. intros o r. apply relabel_col_fold. }
  clear -Hlen. revert out t Hlen. induction ids as [|i l IH]; intros out t Hlen.
  - cbn. rewrite app_nil_r. f_equal.
    clear -Hlen. revert events Hlen.
    induction out as [|o out IH]; intros [|r ev] Hlen; [done..|].
    cbn. rewrite <- IH; [done|]. cbn in Hlen. lia.
  - cbn [foldl]. cbn zeta. cbn [fst snd]. rewrite IH.
    + f_equal.
      * unfold assign_where. rewrite zip_with_fmap_r.
        rewrite zip_with_zip_with_r. done.
      * rewrite <- app_assoc. done.
    + unfold assign_where. rewrite length_zip_with, length_fmap. lia.
Qed.

Lemma relabel_both_columns (r : row) :
  (if bool_decide (get_col 2 r ∈ ids)
   then set_col 2 new_id
          (if bool_decide (get_col 1 r ∈ ids) then set_col 1 new_id r else r)
   else if bool_decide (get_col 1 r ∈ ids) then set_col 1 new_id r else r)
  = relabel ids new_id r.
Proof.
  destruct r as [[a b] c]. unfold relabel, col0, col1, col2. cbn.
  by repeat case_bool_decide.
Qed.

(** The double loop: [events_out] is the relabelled copy of every row;
    [idx_touched] holds, per column and id, the positions that matched. *)
Lemma merge_loop_spec (events : list row) :
  merge_loop events ids new_id
  = (relabel ids new_id <$> events,
     ((λ i, np_where ((λ r, bool_decide (get_col 1 r = i)) <$> events)) <$> ids)
       ++ ((λ i, np_where ((λ r, bool_decide (get_col 2 r = i)) <$> events)) <$> ids)).
Proof.
  unfold merge_loop. cbn [foldl].
  rewrite merge_inner_loop by done.
  rewrite merge_inner_loop by (rewrite length_zip_with; lia). f_equal.
  rewrite zip_with_zip_with_r. rewrite zip_with_diag.
  apply list_fmap_ext. intros _ r _. apply relabel_both_columns.
Qed.

Lemma elem_of_np_where_fmap {A} (P : A → Prop) `{∀ x, Decision (P x)}
    (l : list A) (j : nat) :
  j ∈ np_where ((λ x, bool_decide (P x)) <$> l) ↔ ∃ x, l !! j = Some x ∧ P x.
Proof.
  rewrite elem_of_np_where, list_lookup_fmap. split.
  - destruct (l !! j) as [x|]; [|done]. cbn. intros [= Hx].
    apply bool_decide_eq_true in Hx. eauto.
  - intros (x & -> & Hx). cbn. by rewrite bool_decide_true.
Qed.

Lemma elem_of_concat {A} (x : A) (ls : list (list A)) :
  x ∈ concat ls ↔ ∃ l, x ∈ l ∧ l ∈ ls.
Proof.
  induction ls as [|l ls IH]; cbn.
  - split; [by intros ?%elem_of_nil | by intros (? & _ & ?%elem_of_nil)].
  - rewrite elem_of_app, IH. split.
    + intros [?|(l' & ? & ?)]; [exists l; split; [done | left] | exists l'; split; [done | by right]].
    + intros (l' & ? & [->|?]%elem_of_cons); [by left | right; eauto].
Qed.

(** The positions collected in [idx_touched] are those of the touched
    rows. *)
Lemma elem_of_idx_touched (events : list row) (j : nat) :
  j ∈ concat (merge_loop events ids new_id).2
  ↔ ∃ r, events !! j = Some r ∧ touched ids r.
Proof.
  rewrite merge_loop_spec. cbn [snd]. rewrite concat_app, elem_of_app.
  unfold touched. split.
  - intros [Hj|Hj]; apply elem_of_concat in Hj as (w & Hj & Hw);
      apply list_elem_of_fmap in Hw as (i & -> & Hi);
      apply elem_of_np_where_fmap in Hj as (r & Hr & Hc); cbn in Hc; subst i;
      exists r; auto.
  - intros (r & Hr & [Hc|Hc]); [left|right]; apply elem_of_concat.
    + exists (np_where ((λ r', bool_decide (get_col 1 r' = col1 r)) <$> events)).
      split; [apply elem_of_np_where_fmap; eauto|].
      apply list_elem_of_fmap. eauto.
    + exists (np_where ((λ r', bool_decide (get_col 2 r' = col2 r)) <$> events)).
      split; [apply elem_of_np_where_fmap; eauto|].
      apply list_elem_of_fmap. eauto.
Qed.

End MergeEvents.

Lemma filter_ext_elem {A} (P Q : A → Prop) `{∀ x, Decision (P x)} `{∀ x, Decision (Q x)}
    (l : list A) :
  (∀ x, x ∈ l → (P x ↔ Q x)) → filter P l = filter Q l.
Proof.
  induction l as [|x l IH]; intros HPQ; [done|].
  rewrite !filter_cons. rewrite IH by (intros y ?; apply HPQ; by right).
  destruct (decide (P x)) as [HP|HP], (decide (Q x)) as [HQ|HQ]; try done;
    exfalso; apply (HPQ x) in HP || apply HP, (HPQ x); (done || left).
Qed.

Lemma np_where_snoc (mask : list bool) (b : bool) :
  np_where (mask ++ [b]) = np_where mask ++ (if b then [length mask] else []).
Proof.
  unfold np_where. rewrite length_app. cbn [length].
  rewrite seq_app, filter_app. f_equal.
  - apply filter_ext_elem. intros i Hi. apply elem_of_seq in Hi.
    rewrite lookup_app_l by lia. done.
  - change (seq (0 + length mask) 1) with [length mask].
    rewrite filter_cons, filter_nil.
    rewrite list_lookup_middle by done.
    destruct b; [by rewrite decide_True | by rewrite decide_False].
Qed.

(** [a[np.where(mask)[0]]] is [a[mask]]: the rows that satisfy the test. *)
Lemma np_take_where `{Inhabited A} (P : A → Prop) `{∀ x, Decision (P x)} (l : list A) :
  np_take l (np_where ((λ x, bool_decide (P x)) <$> l)) = filter P l.
Proof.
  induction l as [|x l IH] using rev_ind; [done|].
  rewrite fmap_app. cbn [fmap list_fmap]. rewrite np_where_snoc.
  unfold np_take in *. rewrite fmap_app, filter_app, <- IH. f_equal.
  - apply list_fmap_ext. intros k i Hi.
    apply list_elem_of_lookup_2, elem_of_np_where, lookup_lt_Some in Hi.
    rewrite length_fmap in Hi. by apply lookup_total_app_l.
  - rewrite length_fmap, filter_cons, filter_nil.
    destruct (decide (P x)) as [HP|HP].
    + rewrite bool_decide_true by done. cbn. f_equal.
      by rewrite list_lookup_total_middle.
    + by rewrite bool_decide_false.
Qed.

Lemma np_unique_Permutation (a : list nat) : np_unique a ≡ₚ remove_dups a.
Proof. unfold np_unique. apply merge_sort_Permutation. Qed.

(** The rows added by [replace_events=False] are the touched rows. *)
Lemma take_touched (events : list row) (ids : list Z) (new_id : Z) :
  np_take events (np_unique (concat (merge_loop events ids new_id).2))
  ≡ₚ filter (touched ids) events.
Proof.
  rewrite <- (np_take_where (touched ids)). unfold np_take.
  apply fmap_Permutation. rewrite np_unique_Permutation.
  apply NoDup_Permutation.
  - apply NoDup_remove_dups.
  - apply NoDup_filter, NoDup_seq.
  - intros j. rewrite elem_of_remove_dups, elem_of_idx_touched.
    by rewrite elem_of_np_where_fmap.
Qed.

Lemma relabel_untouched (ids : list Z) (new_id : Z) (r : row) :
  ¬ touched ids r → relabel ids new_id r = r.
Proof.
  unfold touched, relabel. intros Hr. destruct r as [[a b] c].
  unfold col0, col1, col2 in *. cbn in *.
  rewrite !bool_decide_false by tauto. done.
Qed.

(** Relabelled copies of all rows plus the touched originals are the
    originals plus the relabelled copies of the touched rows. *)
Lemma relabelled_plus_touched (ids : list Z) (new_id : Z) (events : list row) :
  (relabel ids new_id <$> events) ++ filter (touched ids) events
  ≡ₚ events ++ (relabel ids new_id <$> filter (touched ids) events).
Proof.
  induction events as [|r events IH]; [done|].
  rewrite filter_cons. destruct (decide (touched ids r)) as [Hr|Hr]; cbn.
  - rewrite <- !Permutation_middle, IH. apply perm_swap.
  - rewrite relabel_untouched by done. by rewrite IH.
Qed.

(** C4 (amended).  With [replace_events=True] every paired value and id
    that is in [ids] is replaced by [new_id] and the number of rows is
    unchanged.  With [replace_events=False] and at least one id, the result
    holds every original row unmodified plus one relabelled copy of each
    touched row (so its length is the original length plus the number of
    touched rows), sorted by (sample, paired value, id), each ascending;
    this order is total, so the result is the only sorted arrangement of
    these rows. *)
Theorem merge_events_contract (events : list row) (ids : list Z) (new_id : Z) :
  merge_events events ids new_id true = OK (relabel ids new_id <$> events)
  ∧ length (relabel ids new_id <$> events) = length events
  ∧ (ids ≠ [] →
     ∃ out,
       merge_events events ids new_id false = OK out
       ∧ out ≡ₚ events ++ (relabel ids new_id <$> filter (touched ids) events)
       ∧ length out = (length events + length (filter (touched ids) events))%nat
       ∧ Sorted row_le out
       ∧ ∀ out', out' ≡ₚ out → Sorted row_le out' → out' = out).
Proof.
  unfold merge_events.
  pose proof (take_touched events ids new_id) as Htake.
  pose proof (merge_loop_spec ids new_id events) as Hloop.
  destruct (merge_loop events ids new_id) as [out t] eqn:Hml.
  injection Hloop as Hout Ht. cbn [snd] in Htake.
  split; [by rewrite Hout|]. split; [by rewrite length_fmap|].
  intros Hids. cbn [negb]. rewrite bool_decide_false.
  2:{ rewrite Ht, length_app, !length_fmap. destruct ids; [done | cbn; lia]. }
  eexists. split; [done|].
  assert (lexsort_rows (out ++ np_take events (np_unique (concat t)))
          ≡ₚ events ++ (relabel ids new_id <$> filter (touched ids) events)) as Hperm.
  { unfold lexsort_rows. rewrite merge_sort_Permutation, Htake, Hout.
    apply relabelled_plus_touched. }
  split; [done|]. split.
  { rewrite Hperm, length_app, length_fmap. done. }
  split; [apply Sorted_merge_sort, _|].
  intros out' Hp Hs. apply (Sorted_unique row_le); [done| |done].
  apply Sorted_merge_sort, _.
Qed.

Lemma merge_events_contract_witness :
  [1; 2] ≠ []
  ∧ ∃ out,
      merge_events [(134, 0, 1); (341, 0, 2); (502, 0, 3)] [1; 2] 12 false = OK out
      ∧ out ≡ₚ [(134, 0, 1); (341, 0, 2); (502, 0, 3)]
               ++ (relabel [1; 2] 12
                     <$> filter (touched [1; 2]) [(134, 0, 1); (341, 0, 2); (502, 0, 3)])
      ∧ length out
        = (3 + length (filter (touched [1; 2]%Z) [(134, 0, 1); (341, 0, 2); (502, 0, 3)]%Z))%nat
      ∧ Sorted row_le out
      ∧ ∀ out', out' ≡ₚ out → Sorted row_le out' → out' = out.
Proof.
  split; [discriminate|].
  apply (merge_events_contract [(134, 0, 1); (341, 0, 2); (502, 0, 3)] [1; 2] 12).
  discriminate.
Defined.

(** The docstring example of [merge_events]. *)
Example merge_events_docstring :
  merge_events [(134, 0, 1); (341, 0, 2); (502, 0, 3)] [1; 2] 12 true
    = OK [(134, 0, 12); (341, 0, 12); (502, 0, 3)]
  ∧ merge_events [(134, 0, 1); (341, 0, 2); (502, 0, 3)] [1; 2] 12 false
    = OK [(134, 0, 1); (134, 0, 12); (341, 0, 2); (341, 0, 12); (502, 0, 3)].
Proof. split; vm_compute; reflexivity. Qed.

(** The result of the docstring example is not in the order the
    specification names (paired value and id descending): the ids 1 and 12
    at sample 134 come in ascending order. *)
Lemma merge_events_not_descending :
  ¬ (∀ out, merge_events [(134, 0, 1); (341, 0, 2); (502, 0, 3)] [1; 2] 12 false = OK out →
            Sorted row_le_spec out).
Proof.
  intros Hs. specialize (Hs _ (proj2 merge_events_docstring)).
  apply Sorted_inv in Hs as [_ Hhd]. apply HdRel_inv in Hhd.
  unfold row_le_spec, col0, col1, col2 in Hhd. cbn in Hhd. lia.
Qed.

(** ** Which arrays a call writes and returns *)

Section StoreFrame.

Implicit Types (σ : Store.store) (l : Store.loc) (a : list row).

Lemma fresh_lookup σ : σ !! fresh (dom σ) = None.
Proof. apply not_elem_of_dom, is_fresh. Qed.

Lemma fresh_outside σ0 σ : σ0 ⊆ σ → σ0 !! fresh (dom σ) = None.
Proof. intros Hsub. eapply lookup_weaken_None; [apply fresh_lookup | done]. Qed.

Lemma frame_insert σ0 σ l a : σ0 ⊆ σ → σ0 !! l = None → σ0 ⊆ <[l := a]> σ.
Proof. intros Hsub Hl. by apply insert_subseteq_r. Qed.

Ltac run_store :=
  unfold mbind, Store.M_bind, Store.read, Store.alloc, Store.write, Store.raise,
    mret, Store.M_ret; cbn beta iota zeta.

Lemma pick_events_frame σ (events : Store.loc) include exclude step :
  let '(res, σ') := Store.pick_events events include exclude step σ in
  σ ⊆ σ'
  ∧ match res with
    | OK l =>
        σ !! l = None
        ∧ ∃ out, pick_events (default [] (σ !! events)) include exclude step = OK out
                 ∧ σ' !! l = Some out
    | Raise e => pick_events (default [] (σ !! events)) include exclude step = Raise e
    end.
Proof.
  unfold Store.pick_events, pick_events. run_store.
  rewrite lookup_insert_eq. cbn [default from_option]. unfold id.
  set (picked := pick_rows _ _ _ _).
  pose proof (fresh_lookup σ) as Hfresh.
  destruct (decide (length picked = 0%nat)) as [Hl|Hl].
  - rewrite !bool_decide_true by done. split; [by apply frame_insert | done].
  - rewrite !bool_decide_false by done. split; [by apply frame_insert|].
    split; [done|]. exists picked. by rewrite lookup_insert_eq.
Qed.

Lemma merge_events_frame σ (events : Store.loc) ids new_id replace_events :
  let '(res, σ') := Store.merge_events events ids new_id replace_events σ in
  σ ⊆ σ'
  ∧ match res with
    | OK l =>
        σ !! l = None
        ∧ ∃ out, merge_events (default [] (σ !! events)) ids new_id replace_events = OK out
                 ∧ σ' !! l = Some out
    | Raise e => merge_events (default [] (σ !! events)) ids new_id replace_events = Raise e
    end.
Proof.
  unfold Store.merge_events, merge_events. run_store.
  set (a := default [] (σ !! events)).
  destruct (merge_loop a ids new_id) as [out t].
  pose proof (fresh_lookup σ) as Hfresh.
  set (l1 := fresh (dom σ)) in *. run_store.
  assert (σ ⊆ <[l1:=out]> (<[l1:=a]> σ)) as Hsub
    by (apply frame_insert; [by apply frame_insert | done]).
  destruct replace_events; cbn [negb].
  - split; [done|]. split; [done|]. exists out. by rewrite lookup_insert_eq.
  - case_bool_decide; [done|]. run_store.
    rewrite lookup_insert_eq. cbn [default from_option]. unfold id.
    set (σ2 := <[l1:=out]> (<[l1:=a]> σ)) in *.
    set (l2 := fresh (dom σ2)).
    assert (σ ⊆ <[l2:=out ++ np_take a (np_unique (concat t))]> σ2) as Hsub2
      by (apply frame_insert; [done | by apply fresh_outside]).
    split.
    + apply frame_insert; [done | by apply fresh_outside].
    + split; [by apply fresh_outside|]. eexists. split; [done|].
      by rewrite lookup_insert_eq.
Qed.

Lemma shift_time_events_frame σ (events : Store.loc) ids tshift sfreq :
  let '(res, σ') := Store.shift_time_events events ids tshift sfreq σ in
  σ ⊆ σ'
  ∧ ∃ l, res = OK l ∧ σ !! l = None
         ∧ σ' !! l = Some (shift_time_events (default [] (σ !! events)) ids tshift sfreq).
Proof.
  unfold Store.shift_time_events. run_store.
  pose proof (fresh_lookup σ) as Hfresh.
  split; [apply frame_insert; [by apply frame_insert | done]|].
  eexists. split; [done|]. split; [done|]. by rewrite lookup_insert_eq.
Qed.

Lemma define_target_events_frame σ (events : Store.loc) reference_id target_id
    sfreq tmin tmax new_id fill_na :
  let '(res, σ') :=
    Store.define_target_events events reference_id target_id sfreq tmin tmax
      new_id fill_na σ in
  σ ⊆ σ'
  ∧ match res with
    | OK (l, lag) =>
        σ !! l = None
        ∧ ∃ out, define_target_events (default [] (σ !! events)) reference_id target_id
                   sfreq tmin tmax new_id fill_na = OK (out, lag)
                 ∧ σ' !! l = Some out
    | Raise e =>
        define_target_events (default [] (σ !! events)) reference_id target_id
          sfreq tmin tmax new_id fill_na = Raise e
    end.
Proof.
  unfold Store.define_target_events. run_store.
  set (a := default [] (σ !! events)).
  destruct (Qeq_bool sfreq 0) eqn:Hs.
  { cbn beta iota zeta. split; [done|]. unfold define_target_events. by rewrite Hs. }
  destruct (target_loop a _ _ _ _ _ _) as [[relabelled ?] ?]. run_store.
  pose proof (fresh_lookup σ) as Hfresh.
  set (l1 := fresh (dom σ)) in *.
  assert (σ ⊆ <[l1:=relabelled]> (<[l1:=a]> σ)) as Hsub
    by (apply frame_insert; [by apply frame_insert | done]).
  destruct (define_target_events a _ _ _ _ _ _ _) as [[out lag]|e]; run_store.
  - split; [apply frame_insert; [done | by apply fresh_outside]|].
    split; [by apply fresh_outside|]. exists out. split; [done|].
    by rewrite lookup_insert_eq.
  - done.
Qed.

(** One round of the loop of [concatenate_events] keeps every array that
    existed before the call, and its result is a new array. *)
Lemma concatenate_step_frame σ0 first0 (acc : Store.M Store.loc) p :
  (∀ σ, σ0 ⊆ σ → σ0 ⊆ (acc σ).2) →
  ∀ σ, σ0 ⊆ σ →
    let '(res, σ') := Store.concatenate_step first0 acc p σ in
    σ0 ⊆ σ' ∧ ∀ l, res = OK l → σ0 !! l = None ∧ is_Some (σ' !! l).
Proof.
  intros Hacc σ Hsub. destruct p as [[e f] n].
  unfold Store.concatenate_step. run_store.
  specialize (Hacc σ Hsub). destruct (acc σ) as [[events_out|err] σ1]; cbn [snd] in Hacc.
  2:{ split; [done | discriminate]. }
  run_store. set (l1 := fresh (dom σ1)).
  assert (σ0 !! l1 = None) as Hl1 by by apply fresh_outside.
  set (σ2 := <[l1:=_]> (<[l1:=_]> (<[l1:=_]> σ1))).
  assert (σ0 ⊆ σ2) as Hsub2 by (do 3 (apply frame_insert; [|done]); done).
  split.
  - apply frame_insert; [done | by apply fresh_outside].
  - intros l [= <-]. split; [by apply fresh_outside|].
    rewrite lookup_insert_eq. done.
Qed.

Lemma concatenate_fold_frame σ0 first0 (acc : Store.M Store.loc) ps :
  (∀ σ, σ0 ⊆ σ → σ0 ⊆ (acc σ).2) →
  ∀ σ, σ0 ⊆ σ →
    let '(res, σ') := foldl (Store.concatenate_step first0) acc ps σ in
    σ0 ⊆ σ'
    ∧ ∀ l, res = OK l →
           match ps with
           | [] => acc σ = (OK l, σ')
           | _ => σ0 !! l = None ∧ is_Some (σ' !! l)
           end.
Proof.
  induction ps as [|p ps IH] using rev_ind; intros Hacc σ Hsub.
  - cbn. specialize (Hacc σ Hsub). destruct (acc σ) as [res σ']. split; [done|].
    by intros l ->.
  - rewrite foldl_app. cbn [foldl].
    assert (∀ σ, σ0 ⊆ σ → σ0 ⊆ (foldl (Store.concatenate_step first0) acc ps σ).2) as Hfold.
    { intros σ1 Hsub1. specialize (IH Hacc σ1 Hsub1).
      destruct (foldl (Store.concatenate_step first0) acc ps σ1). tauto. }
    pose proof (concatenate_step_frame σ0 first0 _ p Hfold σ Hsub) as Hstep.
    destruct (Store.concatenate_step first0 _ p σ) as [res σ'].
    destruct Hstep as [? Hres]. split; [done|]. intros l Hl.
    destruct ps; by apply Hres.
Qed.

Lemma np_cumsum_length (a : list Z) : length (np_cumsum a) = length a.
Proof.
  unfold np_cumsum.
  assert (∀ s acc, length (foldl (λ (st : Z * list Z) x, (st.1 + x, st.2 ++ [st.1 + x]))
                             (s, acc) a).2 = (length acc + length a)%nat) as Hgen.
  { induction a as [|x a IH]; intros s acc; cbn; [lia|].
    rewrite IH, length_app. cbn. lia. }
  apply Hgen.
Qed.

Lemma concatenate_events_frame σ (events : list Store.loc) first_samps last_samps :
  let '(res, σ') := Store.concatenate_events events first_samps last_samps σ in
  σ ⊆ σ'
  ∧ ∀ l, res = OK l →
         match events with
         | [e] => l = e ∧ σ' = σ
         | _ => σ !! l = None ∧ is_Some (σ' !! l)
         end.
Proof.
  unfold Store.concatenate_events.
  destruct (bool_decide (length events = length last_samps)) eqn:Hl1; cbn [andb negb];
    [|run_store; split; [done | discriminate]].
  destruct (bool_decide (length events = length first_samps)) eqn:Hl2; cbn [andb negb];
    [|run_store; split; [done | discriminate]].
  apply bool_decide_eq_true in Hl1, Hl2.
  destruct events as [|events0 events_rest]; [run_store; split; [done | discriminate]|].
  destruct first_samps as [|first0 first_rest]; [done|].
  set (ps := zip _ _).
  pose proof (concatenate_fold_frame σ first0 (mret events0) ps) as Hfold.
  specialize (Hfold (λ σ1 H, H) σ (reflexivity σ)).
  destruct (foldl (Store.concatenate_step first0) (mret events0) ps σ) as [res σ'].
  destruct Hfold as [Hsub Hres].
  split; [done|]. intros l Hl. specialize (Hres l Hl).
  destruct events_rest as [|e1 events_rest].
  - cbn in ps. subst ps. cbn in Hres. by injection Hres as -> ->.
  - destruct ps eqn:Hps; [|done]. exfalso.
    apply (f_equal length) in Hps. subst ps.
    rewrite !length_zip_with, removelast_firstn_len, length_take in Hps.
    rewrite np_cumsum_length, length_zip_with in Hps. cbn [length] in Hps, Hl1, Hl2. lia.
Qed.

(** The array [concatenate_events] returns holds what the value-level
    function computes from the contents of its arguments. *)
Lemma concatenate_fold_value σ0 first0 (events0 : Store.loc) v0
    (ps : list (Store.loc * Z * Z)) (qs : list (list row * Z * Z)) :
  σ0 !! events0 = Some v0 →
  Forall2 (λ p q, σ0 !! p.1.1 = Some q.1.1 ∧ p.1.2 = q.1.2 ∧ p.2 = q.2) ps qs →
  ∀ σ, σ0 ⊆ σ →
    ∃ l σ', foldl (Store.concatenate_step first0) (mret events0) ps σ = (OK l, σ')
            ∧ σ0 ⊆ σ'
            ∧ σ' !! l
              = Some (foldl (λ events_out q,
                               let '(e, f, n) := q in
                               events_out
                                 ++ ((λ r, set_col0 (col0 r - f + (n + first0)) r) <$> e))
                            v0 qs).
Proof.
  intros H0 Hps. revert qs Hps.
  induction ps as [|p ps IH] using rev_ind; intros qs Hps σ Hsub.
  - apply Forall2_nil_inv_l in Hps as ->. exists events0, σ. cbn.
    split; [done|]. split; [done|]. by eapply lookup_weaken.
  - apply Forall2_app_inv_l in Hps as (qs1 & qs2 & Hps1 & Hp & ->).
    apply Forall2_cons_inv_l in Hp as (q & qs3 & Hpq & Hnil & ->).
    apply Forall2_nil_inv_l in Hnil as ->.
    rewrite !foldl_app. cbn [foldl].
    destruct (IH qs1 Hps1 σ Hsub) as (l1 & σ1 & Hrun & Hsub1 & Hl1).
    destruct p as [[e f] n], q as [[a f'] n']. cbn [fst snd] in Hpq.
    destruct Hpq as (He & <- & <-).
    set (acc := foldl _ _ ps) in *.
    unfold Store.concatenate_step. run_store. rewrite Hrun. run_store.
    rewrite (lookup_weaken _ _ _ _ He Hsub1). cbn [default from_option]. unfold id.
    pose proof (fresh_lookup σ1) as Hf. set (l2 := fresh (dom σ1)) in *.
    rewrite !lookup_insert_eq. cbn [default from_option].
    assert (l1 ≠ l2) as Hne by (intros ->; by rewrite Hf in Hl1).
    rewrite !lookup_insert_ne by done. rewrite Hl1. cbn [default from_option].
    assert (σ0 !! l2 = None) as Hf0 by by apply fresh_outside.
    set (σ2 := <[l2:=_]> (<[l2:=_]> (<[l2:=_]> σ1))).
    assert (σ0 ⊆ σ2) as Hsub2 by (do 3 (apply frame_insert; [|done]); done).
    eexists _, _. split; [done|]. split.
    + apply frame_insert; [done | by apply fresh_outside].
    + rewrite lookup_insert_eq. f_equal. f_equal.
      rewrite <- list_fmap_compose. apply list_fmap_ext. intros _ [[s b] c] _.
      unfold set_col0, col0, col1, col2. cbn. done.
Qed.

Lemma concatenate_events_value σ (events : list Store.loc) (arrays : list (list row))
    first_samps last_samps :
  Forall2 (λ l a, σ !! l = Some a) events arrays →
  match concatenate_events arrays first_samps last_samps with
  | OK out =>
      ∃ l σ', Store.concatenate_events events first_samps last_samps σ = (OK l, σ')
              ∧ σ' !! l = Some out
  | Raise e =>
      Store.concatenate_events events first_samps last_samps σ = (Raise e, σ)
  end.
Proof.
  intros Hev. unfold concatenate_events, Store.concatenate_events.
  rewrite <- (Forall2_length _ _ _ Hev).
  destruct (negb _); [done|].
  destruct Hev as [|events0 v0 events_rest arrays_rest H0 Hrest]; [done|].
  destruct first_samps as [|first0 first_rest]; [done|].
  set (ns := removelast _).
  assert (Forall2 (λ p q, σ !! p.1.1 = Some q.1.1 ∧ p.1.2 = q.1.2 ∧ p.2 = q.2)
            (zip (zip events_rest first_rest) ns)
            (zip (zip arrays_rest first_rest) ns)) as Hz.
  { clearbody ns. clear H0. revert first_rest ns.
    induction Hrest as [|e a es as_ He Hes IH]; intros fs ns; [constructor|].
    destruct fs as [|f fs]; [constructor|]. destruct ns as [|n ns]; [constructor|].
    cbn. constructor; [done | apply IH]. }
  destruct (concatenate_fold_value σ first0 events0 v0 _ _ H0 Hz σ (reflexivity σ))
    as (l & σ' & Hrun & _ & Hl).
  eauto.
Qed.

Lemma mask_trigs_frame σ (events : Store.loc) (mask : pyobj) :
  let '(res, σ') := Store._mask_trigs events mask σ in
  delete events σ ⊆ σ'
  ∧ match res with
    | OK l =>
        σ !! l = None
        ∧ ∃ out, _mask_trigs (default [] (σ !! events)) mask = OK out
                 ∧ σ' !! l = Some out
    | Raise e => _mask_trigs (default [] (σ !! events)) mask = Raise e ∧ σ' = σ
    end.
Proof.
  unfold Store._mask_trigs, _mask_trigs.
  destruct (isinstance_int mask) eqn:Hint; cbn [negb]; run_store.
  2:{ split; [apply delete_subseteq | done]. }
  set (a := default [] (σ !! events)).
  pose proof (fresh_lookup σ) as Hfresh.
  case_bool_decide as Hlen; run_store.
  - split; [|split; [done|]].
    + etrans; [apply delete_subseteq|]. by apply insert_subseteq.
    + exists a. by rewrite lookup_insert_eq.
  - destruct (bitwise_not_mask mask) as [m|] eqn:Hm; run_store.
    2:{ split; [apply delete_subseteq | done]. }
    rewrite lookup_insert_eq. cbn [default from_option]. unfold id.
    set (σ1 := <[events:=mask_row m <$> a]> σ).
    assert (σ1 !! fresh (dom σ1) = None) as Hf1 by apply fresh_lookup.
    assert (σ !! fresh (dom σ1) = None) as Hf.
    { apply not_elem_of_dom. intros Hin. apply (is_fresh (dom σ1)).
      revert Hin. generalize (fresh (dom σ1)). intros l Hin.
      unfold σ1. rewrite dom_insert_L. apply elem_of_union. by right. }
    split; [|split; [done|]].
    + apply insert_subseteq_r; [by rewrite lookup_delete_None; right|].
      unfold σ1. rewrite <- insert_delete_eq. apply insert_subseteq.
      apply lookup_delete_eq.
    + eexists. split; [done|]. by rewrite lookup_insert_eq.
Qed.

(** What the masking stage leaves in its argument. *)
Lemma mask_trigs_argument_after σ (events : Store.loc) (mask : pyobj) a m :
  σ !! events = Some a → a ≠ [] → bitwise_not_mask mask = Some m →
  (Store._mask_trigs events mask σ).2 !! events = Some (mask_row m <$> a).
Proof.
  intros Ha Hne Hm. unfold Store._mask_trigs.
  assert (isinstance_int mask = true) as -> by by destruct mask.
  cbn [negb]. run_store. rewrite Ha. cbn [default from_option]. unfold id.
  rewrite bool_decide_false by (by destruct a).
  rewrite Hm. run_store. cbn [snd].
  rewrite lookup_insert_ne; [by rewrite lookup_insert_eq|].
  intros Heq. pose proof (is_fresh (dom (<[events:=mask_row m <$> a]> σ))) as Hf.
  rewrite Heq in Hf. apply Hf. rewrite dom_insert_L. apply elem_of_union. left.
  by apply elem_of_singleton.
Qed.

End StoreFrame.

(** C5 (amended).  [pick_events], [merge_events], [shift_time_events] and
    [define_target_events] leave every array that existed before the call
    as it was, and return a new array.  [concatenate_events] leaves every
    existing array as it was; it returns a new array when it is given at
    least two event arrays, and the first array itself when it is given
    exactly one.  The masking stage [_mask_trigs] returns a new array and
    leaves every other array as it was, but it assigns the masked values
    into the two value columns of its argument when the argument has a
    row. *)
Theorem event_algebra_frame (σ : gmap positive (list row)) :
  (∀ events include exclude step,
     σ ⊆ (Store.pick_events events include exclude step σ).2
     ∧ ∀ l, (Store.pick_events events include exclude step σ).1 = OK l →
            σ !! l = None
            ∧ is_Some ((Store.pick_events events include exclude step σ).2 !! l))
  ∧ (∀ events ids new_id replace_events,
       σ ⊆ (Store.merge_events events ids new_id replace_events σ).2
       ∧ ∀ l, (Store.merge_events events ids new_id replace_events σ).1 = OK l →
              σ !! l = None
              ∧ is_Some ((Store.merge_events events ids new_id replace_events σ).2 !! l))
  ∧ (∀ events ids tshift sfreq,
       σ ⊆ (Store.shift_time_events events ids tshift sfreq σ).2
       ∧ ∀ l, (Store.shift_time_events events ids tshift sfreq σ).1 = OK l →
              σ !! l = None
              ∧ is_Some ((Store.shift_time_events events ids tshift sfreq σ).2 !! l))
  ∧ (∀ events reference_id target_id sfreq tmin tmax new_id fill_na,
       let call := Store.define_target_events events reference_id target_id
                     sfreq tmin tmax new_id fill_na σ in
       σ ⊆ call.2
       ∧ ∀ l lag, call.1 = OK (l, lag) → σ !! l = None ∧ is_Some (call.2 !! l))
  ∧ (∀ events first_samps last_samps,
       let call := Store.concatenate_events events first_samps last_samps σ in
       σ ⊆ call.2
       ∧ ∀ l, call.1 = OK l →
              match events with
              | [e] => l = e
              | _ => σ !! l = None ∧ is_Some (call.2 !! l)
              end)
  ∧ (∀ events mask,
       let call := Store._mask_trigs events mask σ in
       delete events σ ⊆ call.2
       ∧ (∀ l, call.1 = OK l → σ !! l = None ∧ is_Some (call.2 !! l))
       ∧ (∀ a m, σ !! events = Some a → a ≠ [] → bitwise_not_mask mask = Some m →
                 call.2 !! events = Some (mask_row m <$> a))).
Proof.
  repeat apply conj.
  - intros events include exclude step.
    pose proof (pick_events_frame σ events include exclude step) as H.
    destruct (Store.pick_events _ _ _ _ _) as [res σ']. cbn [fst snd].
    destruct H as [? H]. split; [done|]. intros l ->.
    destruct H as (? & out & _ & ->). eauto.
  - intros events ids new_id replace_events.
    pose proof (merge_events_frame σ events ids new_id replace_events) as H.
    destruct (Store.merge_events _ _ _ _ _) as [res σ']. cbn [fst snd].
    destruct H as [? H]. split; [done|]. intros l ->.
    destruct H as (? & out & _ & ->). eauto.
  - intros events ids tshift sfreq.
    pose proof (shift_time_events_frame σ events ids tshift sfreq) as H.
    destruct (Store.shift_time_events _ _ _ _ _) as [res σ']. cbn [fst snd].
    destruct H as (? & l' & -> & ? & Hl). split; [done|]. intros l [= <-].
    rewrite Hl. eauto.
  - intros events reference_id target_id sfreq tmin tmax new_id fill_na.
    pose proof (define_target_events_frame σ events reference_id target_id sfreq tmin tmax
                  new_id fill_na) as H.
    destruct (Store.define_target_events _ _ _ _ _ _ _ _ _) as [res σ']. cbn [fst snd].
    destruct H as [? H]. split; [done|]. intros l lag ->.
    destruct H as (? & out & _ & ->). eauto.
  - intros events first_samps last_samps.
    pose proof (concatenate_events_frame σ events first_samps last_samps) as H.
    destruct (Store.concatenate_events _ _ _ _) as [res σ']. cbn [fst snd].
    destruct H as [? H]. split; [done|]. intros l Hl. specialize (H l Hl).
    destruct events as [|e [|e' events]]; tauto.
  - intros events mask.
    pose proof (mask_trigs_frame σ events mask) as H.
    pose proof (mask_trigs_argument_after σ events mask) as Harg.
    destruct (Store._mask_trigs _ _ _) as [res σ']. cbn [fst snd] in *.
    destruct H as [? H]. split; [done|]. split; [|done]. intros l ->.
    destruct H as (? & out & _ & ->). eauto.
Qed.

Lemma event_algebra_frame_witness :
  (Store._mask_trigs 1%positive (PyInt 2) Store.example_store).1 = OK 2%positive
  ∧ Store.example_store !! 2%positive = None
  ∧ (Store._mask_trigs 1%positive (PyInt 2) Store.example_store).2 !! 1%positive
    = Some (mask_row (Z.lnot 2) <$> [(1, 3, 1); (4, 0, 7)]).
Proof.
  destruct (event_algebra_frame Store.example_store) as (_ & _ & _ & _ & _ & H).
  destruct (H 1%positive (PyInt 2)) as (_ & Hfresh & Harg).
  split; [reflexivity|]. split.
  - apply (Hfresh 2%positive). reflexivity.
  - apply Harg; [reflexivity | discriminate | reflexivity].
Defined.

(** The masking stage does change its input array: after the call on
    [[1,3,1],[4,0,7]] with mask 2 the argument holds [[1,1,1],[4,0,5]]. *)
Lemma mask_trigs_overwrites_its_input :
  ¬ ((Store._mask_trigs 1%positive (PyInt 2) Store.example_store).2 !! 1%positive
     = Store.example_store !! 1%positive).
Proof. vm_compute. discriminate. Qed.

Example mask_trigs_input_after_call :
  (Store._mask_trigs 1%positive (PyInt 2) Store.example_store).1 = OK 2%positive
  ∧ (Store._mask_trigs 1%positive (PyInt 2) Store.example_store).2 !! 1%positive
    = Some [(1, 1, 1); (4, 0, 5)]
  ∧ (Store._mask_trigs 1%positive (PyInt 2) Store.example_store).2 !! 2%positive
    = Some [(4, 0, 5)].
Proof. repeat split; vm_compute; reflexivity. Qed.

(** With a single event array [concatenate_events] returns that array, not
    a new one. *)
Example concatenate_events_single_is_alias :
  Store.concatenate_events [1%positive] [3] [8] Store.example_store
  = (OK 1%positive, Store.example_store).
Proof. reflexivity. Qed.

(** ** EventAlgebra: [make_fixed_length_events] *)

Lemma py_int_inject_Z (z : Z) : py_int (inject_Z z) = z.
Proof. unfold py_int. destruct (Qlt_le_dec _ _); [apply Qceiling_Z | apply Qfloor_Z]. Qed.

Lemma py_int_comp (x y : Q) : (x == y)%Q → py_int x = py_int y.
Proof.
  intros Hxy. unfold py_int.
  destruct (Qlt_le_dec x 0), (Qlt_le_dec y 0);
    try (by apply Qceiling_comp); try (by apply Qfloor_comp); exfalso; lra.
Qed.

(** The length of [np.arange(start, stop, step)] for a positive step, and
    where its values lie. *)
Lemma arange_bounds (start stop : Z) (step : Q) :
  (0 < step)%Q →
  let n := Z.to_nat (Qceiling ((inject_Z stop - inject_Z start) / step)) in
  (∀ k, (k < n)%nat → (inject_Z start + inject_Z (Z.of_nat k) * step < inject_Z stop)%Q)
  ∧ (inject_Z stop <= inject_Z start + inject_Z (Z.of_nat n) * step)%Q
  ∧ (n = 0%nat ↔ stop ≤ start).
Proof.
  intros Hstep n.
  set (D := (inject_Z stop - inject_Z start)%Q) in *.
  set (x := (D / step)%Q) in *.
  assert (x * step == D)%Q as Hx by (unfold x; field; lra).
  pose proof (Qle_ceiling x) as Hc1. pose proof (Qceiling_lt x) as Hc2.
  assert (Qceiling x ≤ Z.of_nat n) as Hn by (unfold n; lia).
  repeat split.
  - intros k Hk.
    assert (Z.of_nat k ≤ Qceiling x - 1) as Hk' by (unfold n in Hk; lia).
    rewrite Zle_Qle in Hk'.
    assert (inject_Z (Z.of_nat k) * step < x * step)%Q
      by (apply Qmult_lt_compat_r; [done | lra]).
    unfold D in *. lra.
  - rewrite Zle_Qle in Hn.
    assert (x * step <= inject_Z (Z.of_nat n) * step)%Q
      by (apply Qmult_le_compat_r; lra).
    unfold D in *. lra.
  - intros Hn0. rewrite Zle_Qle.
    assert (Qceiling x ≤ 0) as Hc0 by (unfold n in Hn0; lia).
    rewrite Zle_Qle in Hc0. change (inject_Z 0) with 0%Q in Hc0.
    assert (x * step <= 0 * step)%Q by (apply Qmult_le_compat_r; lra).
    unfold D in *. lra.
  - intros Hle. rewrite Zle_Qle in Hle.
    assert (x <= 0)%Q as Hx0.
    { apply (Qmult_lt_0_le_reg_r _ _ step); [done|]. unfold D in *. lra. }
    apply Qceiling_resp_le in Hx0. change (Qceiling 0) with 0 in Hx0.
    unfold n. lia.
Qed.

Lemma zip_with_replicate_rows (ts : list Z) (id : Z) (n : nat) :
  length ts = n →
  zip_with (λ t (p : Z * Z), (t, p.1, p.2)) ts (zip (replicate n 0) (replicate n id))
  = (λ t, (t, 0, id)) <$> ts.
Proof.
  intros <-. induction ts as [|t ts IH]; [done|]. cbn. by rewrite IH.
Qed.

Section FixedLengthFacts.

Variable time_as_index : Raw → Q → Z.

(** For every positive interval, the generated rows and where they lie;
  the call raises exactly when no index is generated. *)
Lemma fixed_length_rows (raw : Raw) (id : Z) (start : Q) (stop : option Q)
  (duration : Q) (use_first_samp : bool) :
let step := (sfreq raw * duration)%Q in
let s := fixed_length_start time_as_index raw start use_first_samp in
let e := fixed_length_stop time_as_index raw stop duration use_first_samp in
let n := Z.to_nat (Qceiling ((inject_Z (e + 1) - inject_Z s) / step)) in
(0 < step)%Q →
make_fixed_length_events time_as_index raw (PyInt id) start stop duration use_first_samp
= (if bool_decide (e < s) then Raise ValueError_no_events_produced
   else OK ((λ k, (py_int (inject_Z s + inject_Z (Z.of_nat k) * step), 0, id))
              <$> seq 0 n))
∧ (e < s ↔ n = 0%nat)
∧ (∀ k, (k < n)%nat → (inject_Z s + inject_Z (Z.of_nat k) * step < inject_Z (e + 1))%Q)
∧ (inject_Z (e + 1) <= inject_Z s + inject_Z (Z.of_nat n) * step)%Q.
Proof.
intros step s e n Hstep.
destruct (arange_bounds s (e + 1) step Hstep) as (Hlt & Hge & Hn0).
fold n in Hlt, Hge, Hn0.
assert (e < s ↔ n = 0%nat) as Hempty by (rewrite Hn0; lia).
split; [|done].
unfold make_fixed_length_events. fold s e step. cbn [isinstance_int negb].
unfold np_arange_int.
assert (Qeq_bool step 0 = false) as ->.
{ apply not_true_is_false. intros Heq%Qeq_bool_iff. lra. }
fold n. cbn [mbind result_bind]. rewrite length_fmap, length_seq.
case_bool_decide as Hn; case_bool_decide as Hes; try (exfalso; tauto); [done|].
f_equal. rewrite zip_with_replicate_rows by (by rewrite length_fmap, length_seq).
rewrite <- list_fmap_compose. done.
Qed.

(** C8 (amended).  With an interval of [d > 0] samples
  ([sfreq * duration = d]) [make_fixed_length_events] generates the
  sample indices [start, start + d, start + 2 d, ...] up to and including
  the last one that is at most the stop bound, each row carrying paired
  value 0 and the given id.  The stop bound is the requested stop index,
  or by default one past the last sample index ([last_samp + 1]), capped
  at the end of the recording and then reduced by [d].  The call raises
  the "No events produced" [ValueError] exactly when the index sequence is
  empty, that is when the stop bound lies before the start. *)
Theorem make_fixed_length_events_spec (raw : Raw) (id : Z) (start : Q) (stop : option Q)
  (duration : Q) (use_first_samp : bool) (d : Z) :
let s := fixed_length_start time_as_index raw start use_first_samp in
let e := fixed_length_stop time_as_index raw stop duration use_first_samp in
let call :=
  make_fixed_length_events time_as_index raw (PyInt id) start stop duration
    use_first_samp in
0 < d →
(sfreq raw * duration == inject_Z d)%Q →
e = (let stop0 := match stop with
                  | Some t => time_as_index raw t
                  | None => last_samp raw + 1
                  end in
     if use_first_samp then Z.min (stop0 + first_samp raw) (last_samp raw + 1)
     else Z.min stop0 (last_samp raw - first_samp raw + 1)) - d
∧ (call = Raise ValueError_no_events_produced ↔ e < s)
∧ (s ≤ e →
   ∃ n : nat,
     (0 < n)%nat
     ∧ call = OK ((λ k, (s + Z.of_nat k * d, 0, id)) <$> seq 0 n)
     ∧ s + (Z.of_nat n - 1) * d ≤ e < s + Z.of_nat n * d).
Proof.
intros s e call Hd Hstep.
assert (0 < sfreq raw * duration)%Q as Hpos.
{ rewrite Hstep. change 0%Q with (inject_Z 0). by rewrite <- Zlt_Qlt. }
destruct (fixed_length_rows raw id start stop duration use_first_samp Hpos)
  as (Hcall & Hempty & Hlt & Hge).
fold s e call in Hcall, Hempty, Hlt, Hge.
set (n := Z.to_nat _) in *.
split; [|split].
- unfold e, fixed_length_stop, n_times.
  rewrite (Qceiling_comp _ _ Hstep), Qceiling_Z. by destruct stop, use_first_samp.
- rewrite Hcall. case_bool_decide; [done|]. split; [discriminate | done].
- intros Hse. exists n.
  assert (n ≠ 0%nat) as Hn by (rewrite <- Hempty; lia).
  split; [lia|]. split.
  + rewrite Hcall, bool_decide_false by lia. f_equal.
    apply list_fmap_ext. intros _ k _. f_equal. f_equal.
    rewrite <- (py_int_inject_Z (s + Z.of_nat k * d)). apply py_int_comp.
    rewrite inject_Z_plus, inject_Z_mult, Hstep. reflexivity.
  + specialize (Hlt (n - 1)%nat ltac:(lia)).
    rewrite Hstep, <- inject_Z_mult, <- inject_Z_plus, <- Zlt_Qlt in Hlt.
    rewrite Hstep, <- inject_Z_mult, <- inject_Z_plus, <- Zle_Qle in Hge.
    split; [|lia]. replace (Z.of_nat n - 1) with (Z.of_nat (n - 1)) by lia. lia.
Qed.

End FixedLengthFacts.

Lemma make_fixed_length_events_spec_witness :
  (0 < 10)
  ∧ (sfreq example_recording * 10 == inject_Z 10)%Q
  ∧ (make_fixed_length_events example_time_as_index example_recording (PyInt 5)
       0 None 10 true
       = Raise ValueError_no_events_produced
     ↔ fixed_length_stop example_time_as_index example_recording None 10 true
       < fixed_length_start example_time_as_index example_recording 0 true).
Proof.
  split; [reflexivity|]. split; [reflexivity|].
  apply (make_fixed_length_events_spec example_time_as_index example_recording
           5 0 None 10 true 10); reflexivity.
Defined.

Example make_fixed_length_events_run :
  make_fixed_length_events example_time_as_index example_recording (PyInt 5) 0 None 10 true
    = OK [(0, 0, 5); (10, 0, 5); (20, 0, 5); (30, 0, 5); (40, 0, 5);
          (50, 0, 5); (60, 0, 5); (70, 0, 5); (80, 0, 5); (90, 0, 5)]
  ∧ make_fixed_length_events example_time_as_index example_recording (PyInt 5)
      0 None 100 true
    = OK [(0, 0, 5)]
  ∧ make_fixed_length_events example_time_as_index example_recording (PyInt 5)
      0 None 101 true
    = Raise ValueError_no_events_produced
  ∧ make_fixed_length_events example_time_as_index example_recording (PyFloat 5)
      0 None 10 true
    = Raise ValueError_id_not_int.
Proof. repeat split; vm_compute; reflexivity. Qed.

(** The default stop bound is not the last sample index reduced by one
    interval: on a recording of the samples 0..99 with an interval of 10
    samples the row at sample 90 is generated, and 90 > 99 - 10. *)
Lemma fixed_length_default_stop_is_one_past_the_end :
  ¬ (∀ rows,
       make_fixed_length_events example_time_as_index example_recording (PyInt 5)
         0 None 10 true = OK rows →
       ∀ r, r ∈ rows → col0 r ≤ last_samp example_recording - 10).
Proof.
  intros Hall.
  specialize (Hall _ (proj1 make_fixed_length_events_run) (90, 0, 5)).
  assert ((90, 0, 5) ∈ [(0, 0, 5); (10, 0, 5); (20, 0, 5); (30, 0, 5); (40, 0, 5);
                        (50, 0, 5); (60, 0, 5); (70, 0, 5); (80, 0, 5); (90, 0, 5)]) as Hin
    by (repeat (first [left | right])).
  specialize (Hall Hin). vm_compute in Hall. by apply Hall.
Qed.

(** ** EventAlgebra: [define_target_events] *)

Section TargetEvents.

Variables (events : list row) (reference_id target_id imin imax new_id : Z).
Variable fill_na : option Z.

(** [res.any()] tells whether a target was found, as long as the target id
  is not 0. *)
Lemma rows_any_window (s : Z) :
target_id ≠ 0 →
rows_any (filter (λ e, s + imin < col0 e ∧ col0 e < s + imax ∧ col2 e = target_id) events)
= match filter (λ e, s + imin < col0 e ∧ col0 e < s + imax ∧ col2 e = target_id) events with
  | [] => false
  | _ :: _ => true
  end.
Proof.
intros Htgt. destruct (filter _ _) as [|t res] eqn:Hres; [done|].
assert (t ∈ t :: res) as Ht by left. rewrite <- Hres in Ht.
apply list_elem_of_filter in Ht as [(_ & _ & Hc) _].
cbn. rewrite bool_decide_false; [done|]. intros (_ & _ & ?). congruence.
Qed.

(** One round of the loop appends what [spec_target] gives for the
  event. *)
Lemma target_step_spec (copy new_events : list row) (lag : list (option Q)) (event : row) :
target_id ≠ 0 →
let spec := spec_target events reference_id target_id imin imax new_id fill_na inject_Z in
let st := target_step events reference_id target_id imin imax new_id fill_na
            (copy, new_events, lag) event in
st.1.2 = new_events ++ from_option (λ p, [p.1]) [] (spec event)
∧ st.2 = lag ++ from_option (λ p, [p.2]) [] (spec event).
Proof.
intros Htgt. cbn zeta. unfold target_step, spec_target.
case_bool_decide as Href; [|by rewrite !app_nil_r].
rewrite rows_any_window by done.
destruct (filter _ events) as [|t res] eqn:Hres; [|done].
destruct fill_na as [fill|]; [done|]. by rewrite !app_nil_r.
Qed.

(** The loop of [define_target_events]: what it appends to [new_events]
  and [lag]. *)
Lemma target_loop_from (evs copy new_events : list row) (lag : list (option Q)) :
target_id ≠ 0 →
let spec := spec_target events reference_id target_id imin imax new_id fill_na inject_Z in
let st :=
  foldl (target_step events reference_id target_id imin imax new_id fill_na)
        (copy, new_events, lag) evs in
st.1.2 = new_events ++ (omap spec evs).*1 ∧ st.2 = lag ++ (omap spec evs).*2.
Proof.
intros Htgt spec. revert copy new_events lag.
induction evs as [|event evs IH]; intros copy new_events lag.
- cbn. by rewrite !app_nil_r.
- cbn [foldl].
  pose proof (target_step_spec copy new_events lag event Htgt) as Hstep.
  cbn zeta in Hstep. fold spec in Hstep.
  destruct (target_step _ _ _ _ _ _ _ _ event) as [[copy1 new1] lag1].
  cbn [fst snd] in Hstep. destruct Hstep as [-> ->].
  destruct (IH copy1 (new_events ++ from_option (λ p, [p.1]) [] (spec event))
              (lag ++ from_option (λ p, [p.2]) [] (spec event))) as [-> ->].
  cbn [omap list_omap]. destruct (spec event) as [[e' lg]|]; cbn.
  + by rewrite <- !app_assoc.
  + by rewrite !app_nil_r.
Qed.

Lemma target_loop_spec :
target_id ≠ 0 →
let spec := spec_target events reference_id target_id imin imax new_id fill_na inject_Z in
let st := target_loop events reference_id target_id imin imax new_id fill_na in
st.1.2 = (omap spec events).*1 ∧ st.2 = (omap spec events).*2.
Proof. intros Htgt. apply (target_loop_from events [] [] [] Htgt). Qed.

(** Taking absolute values and scaling the lags afterwards is computing
  them in milliseconds event by event. *)
Lemma spec_target_lag (f : Q → Q) (event : row) :
spec_target events reference_id target_id imin imax new_id fill_na
  (λ d, f (inject_Z d)) event
= (λ p : row * option Q, (p.1, f <$> p.2))
    <$> spec_target events reference_id target_id imin imax new_id fill_na inject_Z event.
Proof.
unfold spec_target. case_bool_decide; [|done].
destruct (filter _ events); [by destruct fill_na | done].
Qed.

Lemma spec_target_lags (f : Q → Q) (evs : list row) :
let raw := spec_target events reference_id target_id imin imax new_id fill_na inject_Z in
let scaled := spec_target events reference_id target_id imin imax new_id fill_na
                (λ d, f (inject_Z d)) in
(omap raw evs).*1 = (omap scaled evs).*1
∧ fmap (M := list) (fmap (M := option) f) (omap raw evs).*2 = (omap scaled evs).*2.
Proof.
intros raw scaled. induction evs as [|event evs [IH1 IH2]]; [done|].
cbn [omap list_omap].
assert (scaled event = (λ p : row * option Q, (p.1, f <$> p.2)) <$> raw event) as ->
  by apply spec_target_lag.
destruct (raw event) as [[e' lg]|]; cbn; [by rewrite IH1, IH2 | done].
Qed.

End TargetEvents.

Lemma lags_any_scaled (t : Q) (lag : list (option Q)) :
  lags_any (fmap (M := list) (fmap (M := option) (λ x, x * t)%Q) lag) = true →
  lags_any lag = true.
Proof.
  induction lag as [|[q|] lag IH]; [done| |done].
  cbn. intros [Hq|Hl]%orb_true_iff; apply orb_true_iff; [left | right; by apply IH].
  apply negb_true_iff in Hq. apply negb_true_iff. apply not_true_is_false.
  intros Heq%Qeq_bool_iff. apply not_true_iff_false in Hq. apply Hq.
  apply Qeq_bool_iff. rewrite Heq. ring.
Qed.

(** C9 (amended).  [define_target_events] considers each reference-id event
    at sample [s] and takes the first target-id event whose sample lies
    strictly inside [(s + int(tmin*sfreq), s + int(tmax*sfreq))], the two
    bounds being truncated toward zero.  On a match it relabels the
    reference event to [new_id] (the reference id when unset) and records
    the absolute lag in milliseconds; without a match it drops the
    reference event when [fill_na] is unset, or relabels it to [fill_na] and
    records a missing lag.  The lags are parallel to the returned events.
    (Stated for a nonzero target id and a nonzero sampling rate, when some
    returned row has a nonzero entry and some lag is missing or nonzero.) *)
Theorem define_target_events_spec (events : list row) (reference_id target_id : Z)
    (sfreq tmin tmax : Q) (new_id fill_na : option Z) :
  let targets :=
    omap (spec_target events reference_id target_id
            (py_int (tmin * sfreq)) (py_int (tmax * sfreq))
            (default reference_id new_id) fill_na (lag_ms sfreq)) events in
  ¬ (sfreq == 0)%Q →
  target_id ≠ 0 →
  rows_any targets.*1 = true →
  lags_any targets.*2 = true →
  define_target_events events reference_id target_id sfreq tmin tmax new_id fill_na
  = OK (targets.*1, targets.*2)
  ∧ length targets.*1 = length targets.*2.
Proof.
  intros targets Hsfreq Htgt Hrows Hlags.
  split; [|by rewrite !length_fmap].
  unfold define_target_events.
  assert (Qeq_bool sfreq 0 = false) as ->.
  { apply not_true_is_false. by intros Heq%Qeq_bool_iff. }
  pose proof (target_loop_spec events reference_id target_id (py_int (tmin * sfreq))
                (py_int (tmax * sfreq)) (default reference_id new_id) fill_na Htgt)
    as [Hnew Hlag].
  destruct (target_loop _ _ _ _ _ _ _) as [[copy new_events] lag].
  cbn [fst snd] in Hnew, Hlag. subst new_events lag.
  pose proof (spec_target_lags events reference_id target_id (py_int (tmin * sfreq))
                (py_int (tmax * sfreq)) (default reference_id new_id) fill_na
                (λ x, Qabs x * (1000 / sfreq))%Q events) as [Hrows' Hlags'].
  cbn zeta in Hrows', Hlags'.
  change (λ d : Z, (Qabs (inject_Z d) * (1000 / sfreq))%Q) with (lag_ms sfreq)
    in Hrows', Hlags'.
  fold targets in Hrows', Hlags'.
  rewrite Hrows', Hrows.
  set (raw_lags := (omap _ events).*2) in *.
  assert (fmap (M := list) (fmap (M := option) (λ x, x * (1000 / sfreq))%Q)
            (fmap (M := list) (fmap (M := option) Qabs) raw_lags) = targets.*2) as Hscaled.
  { rewrite <- Hlags', <- list_fmap_compose. apply list_fmap_ext.
    intros _ [q|] _; done. }
  rewrite Hscaled.
  rewrite (lags_any_scaled (1000 / sfreq)) by (by rewrite Hscaled). done.
Qed.

Lemma define_target_events_spec_witness :
  ¬ (1 == 0)%Q
  ∧ define_target_events [(0, 0, 1); (9, 0, 2); (50, 0, 1)] 1 2 1 0 (105 # 10) (Some 7) (Some 8)
    = OK ([(0, 0, 7); (50, 0, 8)], [Some 9000%Q; None]).
Proof.
  split; [discriminate|].
  apply (define_target_events_spec [(0, 0, 1); (9, 0, 2); (50, 0, 1)] 1 2 1 0 (105 # 10)
           (Some 7) (Some 8)); [discriminate | discriminate | reflexivity | reflexivity].
Defined.

(** The window is bounded by the truncated products: with [sfreq = 1],
    [tmin = 0] and [tmax = 10.5] a target at sample 10 lies strictly inside
    [(0 + tmin*sfreq, 0 + tmax*sfreq)], yet the reference event at sample 0
    finds no target and is dropped. *)
Lemma define_target_events_fractional_window :
  ¬ ((inject_Z 0 + 0 * 1 < inject_Z 10)%Q ∧ (inject_Z 10 < inject_Z 0 + (105 # 10) * 1)%Q →
     ∃ rows lag,
       define_target_events [(0, 0, 1); (10, 0, 2)] 1 2 1 0 (105 # 10) None None
       = OK (rows, lag)
       ∧ (0, 0, 1) ∈ rows).
Proof.
  intros H. destruct H as (rows & lag & Hcall & Hin); [split; reflexivity|].
  vm_compute in Hcall. injection Hcall as <- <-. by apply elem_of_nil in Hin.
Qed.

Example define_target_events_runs :
  define_target_events [(0, 0, 1); (10, 0, 2)] 1 2 1 0 (105 # 10) None None = OK ([], [])
  ∧ define_target_events [(0, 0, 1); (9, 0, 2)] 1 2 1 0 (105 # 10) None None
    = OK ([(0, 0, 1)], [Some 9000%Q])
  ∧ define_target_events [(10, 0, 1); (10, 0, 2)] 1 2 1 (-1) 1 None None
    = OK ([(10, 0, 1)], []).
Proof. repeat split; vm_compute; reflexivity. Qed.


(** ** Plain-text event files: writing and reading back *)

(** A decimal digit, by its character code. *)
Abbreviation digit c := (48 ≤ nat_of_ascii c ≤ 57)%nat (only parsing).

Lemma digit_not_char (c d : ascii) :
  digit c → ¬ digit d → is_char d c = false.
Proof.
  intros Hc Hd. unfold is_char. apply Ascii.eqb_neq. intros ->. tauto.
Qed.

Lemma digit_not_space (c : ascii) : digit c → is_space c = false.
Proof. intros Hc. unfold is_space. apply bool_decide_eq_false. lia. Qed.

Lemma digits_of_uint (d : Decimal.uint) :
  Forall (λ c, digit c) (list_ascii_of_string (NilEmpty.string_of_uint d)).
Proof.
  induction d; cbn [NilEmpty.string_of_uint list_ascii_of_string];
    [constructor | (constructor; [vm_compute; lia | assumption])..].
Qed.

(** ['%d' % z] of a natural number: its digits, at least one. *)
Lemma str_of_int_nonneg (z : Z) :
  0 ≤ z →
  ∃ d, d ≠ Decimal.Nil
       ∧ str_of_int z = list_ascii_of_string (NilEmpty.string_of_uint d)
       ∧ Z.of_uint d = z.
Proof.
  intros Hz. unfold str_of_int.
  pose proof (DecimalZ.of_to z) as Hzz.
  destruct z as [|p|p]; [| |lia]; cbn [Z.to_int NilZero.string_of_int] in *.
  - exists (Decimal.D0 Decimal.Nil). done.
  - exists (Pos.to_uint p). split; [apply Unsigned.to_uint_nonnil|]. split; [|done].
    unfold NilZero.string_of_uint.
    destruct (Pos.to_uint p) eqn:Hp; [by apply Unsigned.to_uint_nonnil in Hp | done..].
Qed.

Lemma str_of_int_digits (z : Z) :
  0 ≤ z → str_of_int z ≠ [] ∧ Forall (λ c, digit c) (str_of_int z).
Proof.
  intros Hz. destruct (str_of_int_nonneg z Hz) as (d & Hd & -> & _).
  split; [|apply digits_of_uint]. by destruct d.
Qed.

(** Splitting text that holds no separator, and text up to its first
    separator. *)
Lemma split_on_no_sep (sep : ascii → bool) (w : text) :
  Forall (λ c, sep c = false) w → split_on sep w = [w].
Proof.
  induction 1 as [|c w Hc _ IH]; [done|]. cbn. by rewrite Hc, IH.
Qed.

Lemma split_on_sep (sep : ascii → bool) (w : text) (c : ascii) (rest : text) :
  Forall (λ c, sep c = false) w → sep c = true →
  split_on sep (w ++ c :: rest) = w :: split_on sep rest.
Proof.
  intros Hw Hc. induction Hw as [|c' w Hc' _ IH]; cbn; [by rewrite Hc|].
  by rewrite Hc', IH.
Qed.

(** The fields of a line: the non-empty segments between whitespace. *)
Lemma fields_leading_spaces (n : nat) (s : text) :
  filter (λ f, f ≠ []) (split_on is_space (replicate n " "%char ++ s))
  = filter (λ f, f ≠ []) (split_on is_space s).
Proof.
  induction n as [|n IH]; [done|].
  change (replicate (S n) " "%char ++ s) with (" "%char :: (replicate n " "%char ++ s)).
  change (split_on is_space (" "%char :: (replicate n " "%char ++ s)))
    with ([] :: split_on is_space (replicate n " "%char ++ s)).
  by rewrite filter_cons_False by tauto.
Qed.

Lemma fields_word_space (w s : text) :
  w ≠ [] → Forall (λ c, is_space c = false) w →
  filter (λ f, f ≠ []) (split_on is_space (w ++ " "%char :: s))
  = w :: filter (λ f, f ≠ []) (split_on is_space s).
Proof.
  intros Hne Hw. rewrite split_on_sep by done. by rewrite filter_cons_True.
Qed.

Lemma fields_last_word (w : text) :
  w ≠ [] → Forall (λ c, is_space c = false) w →
  filter (λ f, f ≠ []) (split_on is_space w) = [w].
Proof. intros Hne Hw. rewrite split_on_no_sep by done. by rewrite filter_cons_True. Qed.

Lemma digits_no_space (w : text) :
  Forall (λ c, digit c) w → Forall (λ c, is_space c = false) w.
Proof. intros Hw. eapply Forall_impl; [exact Hw|]. apply digit_not_space. Qed.

Lemma digits_no_char (d : ascii) (w : text) :
  ¬ digit d → Forall (λ c, digit c) w → Forall (λ c, is_char d c = false) w.
Proof.
  intros Hd Hw. eapply Forall_impl; [exact Hw|]. intros c Hc. by apply digit_not_char.
Qed.

(** [float] reads back what ['%d'] wrote. *)
Lemma float_of_text_str_of_int (z : Z) :
  0 ≤ z → float_of_text (str_of_int z) = Some (inject_Z z).
Proof.
  intros Hz. pose proof (str_of_int_digits z Hz) as [Hne Hdig].
  destruct (str_of_int_nonneg z Hz) as (d & Hd & Hstr & Hval).
  unfold float_of_text.
  destruct (str_of_int z) as [|c tok] eqn:Htok; [done|].
  assert (digit c) as Hc by (by apply Forall_cons in Hdig as [? _]).
  rewrite (digit_not_char c "-"), (digit_not_char c "+") by (done || vm_compute; lia).
  rewrite split_on_no_sep by (apply digits_no_char; [vm_compute; lia | done]).
  rewrite Hstr, string_of_list_ascii_of_string.
  assert (NilZero.uint_of_string (NilEmpty.string_of_uint d) = Some d) as ->.
  { rewrite <- (NilZero.usu d Hd). by destruct d. }
  cbn. by rewrite Hval.
Qed.

(** One written line, without its newline. *)
Lemma format_event_fields (e : row) :
  0 ≤ col0 e → 0 ≤ col1 e → 0 ≤ col2 e →
  ∃ line,
    format_event e = line ++ [newline]
    ∧ Forall (λ c, is_char newline c = false) line
    ∧ hd [] (split_on (is_char "#") line) = line
    ∧ filter (λ f, f ≠ []) (split_on is_space line)
      = [str_of_int (col0 e); str_of_int (col1 e); str_of_int (col2 e)].
Proof.
  intros H0 H1 H2.
  destruct (str_of_int_digits _ H0) as [Hn0 Hd0].
  destruct (str_of_int_digits _ H1) as [Hn1 Hd1].
  destruct (str_of_int_digits _ H2) as [Hn2 Hd2].
  unfold format_event, format_d.
  set (d0 := str_of_int (col0 e)) in *. set (d1 := str_of_int (col1 e)) in *.
  set (d2 := str_of_int (col2 e)) in *.
  set (p0 := replicate _ _). set (p1 := replicate _ _). set (p2 := replicate _ _).
  exists (p0 ++ d0 ++ [" "%char] ++ p1 ++ d1 ++ [" "%char] ++ p2 ++ d2).
  assert (∀ n, Forall (λ c, is_char newline c = false ∧ is_char "#" c = false)
                 (replicate n " "%char)) as Hpad.
  { intros n. apply Forall_replicate. by vm_compute. }
  assert (∀ w, Forall (λ c, digit c) w →
               Forall (λ c, is_char newline c = false ∧ is_char "#" c = false) w) as Hdig.
  { intros w Hw. eapply Forall_impl; [exact Hw|]. intros c Hc.
    split; apply digit_not_char; (done || vm_compute; lia). }
  assert (Forall (λ c, is_char newline c = false ∧ is_char "#" c = false)
            (p0 ++ d0 ++ [" "%char] ++ p1 ++ d1 ++ [" "%char] ++ p2 ++ d2)) as Hline.
  { repeat (apply Forall_app; split); try apply Hpad; try (by apply Hdig);
      by apply Forall_singleton. }
  split; [by rewrite <- !app_assoc|]. split; [|split].
  - eapply Forall_impl; [exact Hline|]. by intros c [? _].
  - rewrite split_on_no_sep; [done|].
    eapply Forall_impl; [exact Hline|]. by intros c [_ ?].
  - change (d0 ++ [" "%char] ++ p1 ++ d1 ++ [" "%char] ++ p2 ++ d2)
      with (d0 ++ " "%char :: (p1 ++ d1 ++ " "%char :: (p2 ++ d2))).
    unfold p0, p1, p2.
    rewrite fields_leading_spaces.
    rewrite fields_word_space by (done || by apply digits_no_space).
    rewrite fields_leading_spaces.
    rewrite fields_word_space by (done || by apply digits_no_space).
    rewrite fields_leading_spaces.
    rewrite fields_last_word by (done || by apply digits_no_space). done.
Qed.

(** The lines of a written file that hold a field. *)
Lemma written_lines (events : list row) :
  Forall (λ e, 0 ≤ col0 e ∧ 0 ≤ col1 e ∧ 0 ≤ col2 e) events →
  filter (λ fs, fs ≠ [])
    ((λ line, filter (λ f, f ≠ [])
                (split_on is_space (hd [] (split_on (is_char "#") line))))
       <$> split_on (is_char newline) (write_events events))
  = (λ e, [str_of_int (col0 e); str_of_int (col1 e); str_of_int (col2 e)]) <$> events.
Proof.
  unfold write_events. induction 1 as [|e events (H0 & H1 & H2) _ IH]; [done|].
  destruct (format_event_fields e H0 H1 H2) as (line & Hline & Hnl & Hcomment & Hfields).
  cbn [fmap list_fmap concat]. rewrite Hline, <- app_assoc. cbn [app].
  rewrite split_on_sep by (done || by vm_compute).
  cbn [fmap list_fmap]. rewrite Hcomment, Hfields.
  rewrite filter_cons_True by done. f_equal. apply IH.
Qed.

Lemma loadtxt_written (events : list row) :
  Forall (λ e, 0 ≤ col0 e ∧ 0 ≤ col1 e ∧ 0 ≤ col2 e) events →
  loadtxt_rows (write_events events)
  = OK ((λ e, [inject_Z (col0 e); inject_Z (col1 e); inject_Z (col2 e)]) <$> events).
Proof.
  intros Hev. unfold loadtxt_rows. cbn zeta. rewrite written_lines by done.
  assert (mapM (mapM float_of_text)
            ((λ e, [str_of_int (col0 e); str_of_int (col1 e); str_of_int (col2 e)]) <$> events)
          = Some ((λ e, [inject_Z (col0 e); inject_Z (col1 e); inject_Z (col2 e)]) <$> events))
    as ->.
  { apply mapM_Some_2, Forall2_fmap. induction Hev as [|e events (H0 & H1 & H2) _ IH];
      constructor; [|done].
    cbn. by rewrite !float_of_text_str_of_int by done. }
  destruct events as [|e events]; [done|].
  cbn [fmap list_fmap]. rewrite (proj2 (forallb_forall _ _)); [done|].
  intros r Hr. apply bool_decide_eq_true. apply list_elem_of_In in Hr.
  change (r ∈ (λ e, [inject_Z (col0 e); inject_Z (col1 e); inject_Z (col2 e)])
              <$> (e :: events)) in Hr.
  apply list_elem_of_fmap in Hr as (e' & -> & _). done.
Qed.

Lemma astype_uint32_inject_Z (z : Z) : 0 ≤ z < 2 ^ 32 → astype_uint32 (inject_Z z) = z.
Proof. intros Hz. unfold astype_uint32. rewrite py_int_inject_Z. by apply Z.mod_small. Qed.

Lemma load_lines_written (events : list row) :
  events ≠ [] →
  Forall (λ e, 0 ≤ col0 e < 2 ^ 32 ∧ 0 ≤ col1 e < 2 ^ 32 ∧ 0 ≤ col2 e < 2 ^ 32) events →
  load_lines (write_events events) = OK ((λ e, [col0 e; col1 e; col2 e]) <$> events).
Proof.
  intros Hne Hev. unfold load_lines. rewrite loadtxt_written.
  2:{ eapply Forall_impl; [exact Hev|]. cbn. intros e. lia. }
  cbn [mbind result_bind]. rewrite <- list_fmap_compose.
  assert ((fmap (M := list) astype_uint32
             ∘ (λ e, [inject_Z (col0 e); inject_Z (col1 e); inject_Z (col2 e)])) <$> events
          = (λ e, [col0 e; col1 e; col2 e]) <$> events) as ->.
  { apply Forall_fmap_ext. eapply Forall_impl; [exact Hev|]. cbn.
    intros e (? & ? & ?). by rewrite !astype_uint32_inject_Z. }
  destruct events as [|e [|e' events]]; done.
Qed.

Lemma mask_row_no_mask (e : row) : mask_row (Z.lnot 0) e = e.
Proof.
  destruct e as [[a b] c]. unfold mask_row, col0, col1, col2. cbn [fst snd].
  change (Z.lnot 0) with (-1). by rewrite !Z.land_m1_r.
Qed.

(** With the default mask 0 the masking stage only drops the rows whose two
    values are equal. *)
Lemma mask_trigs_no_mask (events : list row) :
  Forall (λ e, col1 e ≠ col2 e) events → _mask_trigs events (PyInt 0) = OK events.
Proof.
  intros Hstep. unfold _mask_trigs. cbn [isinstance_int negb bitwise_not_mask].
  case_bool_decide; [done|]. f_equal.
  transitivity (filter (λ r, is_step r = true) events).
  - f_equal. rewrite <- (list_fmap_id events) at 2.
    apply list_fmap_ext. intros. apply mask_row_no_mask.
  - apply filter_all. eapply Forall_impl; [exact Hstep|]. intros r Hr.
    unfold is_step. by apply bool_decide_eq_true.
Qed.

Lemma rows_of_lines (events : list row) :
  (λ line : list Z, match np_take line [0; 1; 2]%nat with
                    | [a; b; c] => (a, b, c)
                    | _ => (0, 0, 0)
                    end) <$> ((λ e, [col0 e; col1 e; col2 e]) <$> events)
  = events.
Proof.
  rewrite <- list_fmap_compose. rewrite <- (list_fmap_id events) at 2.
  apply list_fmap_ext. by intros _ [[a b] c] _.
Qed.

(** C7 (amended).  A non-empty event list whose entries all lie in
    [0, 2^32), whose first row has a nonzero id, and in which no row has a
    paired value equal to its id, is read back unchanged by [read_events]
    (default [include], [exclude] and [mask]) from the text that
    [write_events] writes. *)
Theorem write_read_roundtrip (events : list row) :
  events ≠ [] →
  Forall (λ e, 0 ≤ col0 e < 2 ^ 32 ∧ 0 ≤ col1 e < 2 ^ 32 ∧ 0 ≤ col2 e < 2 ^ 32) events →
  Forall (λ e, col1 e ≠ col2 e) events →
  (∀ e, head events = Some e → col2 e ≠ 0) →
  read_events (write_events events) None None (PyInt 0) = OK events.
Proof.
  intros Hne Hrange Hstep Hhead. unfold read_events.
  rewrite load_lines_written by done. cbn [mbind result_bind].
  destruct events as [|e events]; [done|].
  rewrite fmap_cons. cbn [length]. rewrite bool_decide_false by lia.
  rewrite bool_decide_true by done. cbn [mbind result_bind].
  rewrite fmap_cons, rows_of_lines.
  assert (match np_take [col0 e; col1 e; col2 e] [0; 1; 2]%nat with
          | [a; b; c] => (a, b, c)
          | _ => (0, 0, 0)
          end = e) as -> by (by destruct e as [[a b] c]).
  rewrite bool_decide_false by (by apply Hhead).
  unfold pick_events, pick_rows. cbn [length]. rewrite bool_decide_false by lia.
  cbn [mbind result_bind]. by apply mask_trigs_no_mask.
Qed.

Lemma write_read_roundtrip_witness :
  [(134, 0, 1); (341, 0, 2); (1234567, 3, 0)] ≠ []
  ∧ read_events (write_events [(134, 0, 1); (341, 0, 2); (1234567, 3, 0)]) None None (PyInt 0)
    = OK [(134, 0, 1); (341, 0, 2); (1234567, 3, 0)].
Proof.
  split; [discriminate|].
  apply (write_read_roundtrip [(134, 0, 1); (341, 0, 2); (1234567, 3, 0)]).
  - discriminate.
  - repeat constructor; (discriminate || reflexivity).
  - repeat constructor; discriminate.
  - intros e [= <-]. discriminate.
Defined.

(** A row whose paired value equals its id does not come back: the masking
    pass at the end of [read_events] drops it. *)
Lemma write_read_drops_equal_values :
  ¬ (read_events (write_events [(10, 5, 5)]) None None (PyInt 0) = OK [(10, 5, 5)]).
Proof. vm_compute. discriminate. Qed.

Example write_read_runs :
  string_of_list_ascii (write_events [(134, 0, 1); (1234567, 0, 3)])
  = String.append "   134      0   1" (String newline
      (String.append "1234567      0   3" (String newline EmptyString)))
  ∧ read_events (write_events [(10, 5, 5)]) None None (PyInt 0) = OK []
  ∧ read_events (write_events [(10, 0, 0); (20, 0, 3)]) None None (PyInt 0) = OK [(20, 0, 3)]
  ∧ read_events (write_events [(10, 0, 0)]) None None (PyInt 0) = Raise RuntimeError_no_events
  ∧ read_events (write_events []) None None (PyInt 0) = Raise ValueError_no_text_lines.
Proof. repeat split; vm_compute; reflexivity. Qed.

(** ** EventExtractor: the rows come in ascending sample order *)

(** Rows in strictly ascending sample order. *)
Abbreviation ascending rows := (StronglySorted Z.lt (col0 <$> rows)) (only parsing).

Lemma Forall_sublist {A} (P : A → Prop) (l l' : list A) :
  l' `sublist_of` l → Forall P l → Forall P l'.
Proof.
  induction 1 as [|x l1 l2 _ IH|x l1 l2 _ IH]; intros Hl; [done| |].
  - apply Forall_cons in Hl as [? ?]. apply Forall_cons. split; [done | by apply IH].
  - apply Forall_cons in Hl as [? ?]. by apply IH.
Qed.

Lemma StronglySorted_sublist {A} (R : relation A) (l l' : list A) :
  l' `sublist_of` l → StronglySorted R l → StronglySorted R l'.
Proof.
  induction 1 as [|x l1 l2 Hsub IH|x l1 l2 _ IH]; intros Hl; [done| |].
  - apply StronglySorted_cons in Hl as [Hx Hl]. apply StronglySorted_cons.
    split; [by eapply Forall_sublist | by apply IH].
  - apply StronglySorted_cons in Hl as [_ Hl]. by apply IH.
Qed.

Lemma StronglySorted_lookup {A} (R : relation A) (l : list A) (i j : nat) (x y : A) :
  StronglySorted R l → (i < j)%nat → l !! i = Some x → l !! j = Some y → R x y.
Proof.
  intros Hl. revert i j. induction Hl as [|a l Hl IH Ha]; intros i j Hij Hx Hy; [done|].
  destruct j as [|j]; [lia|]. destruct i as [|i].
  - injection Hx as <-. cbn in Hy.
    eapply Forall_forall in Ha; [done|]. by eapply list_elem_of_lookup_2.
  - cbn in Hx, Hy. eapply IH; [|done..]. lia.
Qed.

Lemma StronglySorted_fmap_elem {A B} (f : A → B) (R1 : relation A) (R2 : relation B)
    (l : list A) :
  (∀ x y, x ∈ l → y ∈ l → R1 x y → R2 (f x) (f y)) →
  StronglySorted R1 l → StronglySorted R2 (f <$> l).
Proof.
  intros Hf Hl. induction Hl as [|a l Hl IH Ha]; [constructor|].
  cbn. constructor.
  - apply IH. intros x y ? ?. apply Hf; by right.
  - apply Forall_fmap, Forall_forall. intros y Hy. apply Hf; [left | by right|].
    by eapply Forall_forall in Ha.
Qed.

Lemma seq_StronglySorted (a n : nat) : StronglySorted lt (seq a n).
Proof.
  revert a. induction n as [|n IH]; intros a; [constructor|].
  cbn. constructor; [apply IH|]. apply Forall_forall. intros x Hx%elem_of_seq. lia.
Qed.

Lemma np_where_sorted (mask : list bool) : StronglySorted lt (np_where mask).
Proof.
  unfold np_where. eapply StronglySorted_sublist; [apply sublist_filter|].
  apply seq_StronglySorted.
Qed.

Lemma np_where_in_range (mask : list bool) :
  Forall (λ i, (i < length mask)%nat) (np_where mask).
Proof.
  apply Forall_forall. intros i Hi%elem_of_np_where. by apply lookup_lt_Some in Hi.
Qed.

Lemma np_select_sublist {A} (a : list A) (mask : list bool) :
  np_select a mask `sublist_of` a.
Proof.
  revert mask. induction a as [|x a IH]; intros [|b mask]; try done.
  - apply sublist_nil_l.
  - rewrite np_select_cons. destruct b; [by apply sublist_skip | by apply sublist_cons].
Qed.

Lemma list_alter_same {A} (f : A → A) (i : nat) (l : list A) :
  (∀ x, f x = x) → alter f i l = l.
Proof.
  intros Hf. apply list_eq. intros j. rewrite list_lookup_alter.
  destruct (decide (i = j)) as [->|]; [|done]. destruct (l !! j); cbn; by rewrite ?Hf.
Qed.

Lemma assign_col_samples (setc : Z → row → row) (targets : list nat) (vals : list Z)
    (a : list row) :
  (∀ v r, col0 (setc v r) = col0 r) →
  col0 <$> assign_col setc targets vals a = col0 <$> a.
Proof.
  intros Hsetc. unfold assign_col. generalize (zip targets vals). intros zs.
  revert a. induction zs as [|[i v] zs IH]; intros a; [done|].
  cbn [foldl fst snd]. rewrite IH.
  rewrite (list_fmap_alter col0 (setc v) id); [by rewrite list_alter_same|].
  apply Forall_forall. intros r _. apply Hsetc.
Qed.

(** The detected transitions, the tail pad and merging. *)
Lemma detect_steps_ascending (ch0 : list Z) (others : list (list Z)) (first_samp : Z) :
  ascending (detect_steps ch0 others first_samp).
Proof.
  unfold detect_steps. cbn zeta. rewrite <- list_fmap_compose.
  eapply StronglySorted_fmap; [|apply np_where_sorted].
  intros i j Hij. unfold col0. cbn. lia.
Qed.

Lemma merge_steps_ascending (merge : Z) (steps : list row) :
  ascending steps → ascending (merge_steps merge steps).
Proof.
  intros Hs. unfold merge_steps. case_bool_decide; [|done]. cbn zeta.
  destruct (np_any _); [|done].
  case_bool_decide.
  - eapply StronglySorted_sublist; [apply fmap_sublist, np_select_sublist|].
    by rewrite assign_col_samples.
  - eapply StronglySorted_sublist; [apply fmap_sublist, np_select_sublist|].
    by rewrite assign_col_samples.
Qed.

Lemma find_stim_steps_ascending (data : list (list Z)) (first_samp merge : Z)
    (steps : list row) :
  _find_stim_steps data first_samp None (Some 0) merge = OK steps → ascending steps.
Proof.
  unfold _find_stim_steps. destruct data as [|ch0 others]; [done|].
  case_bool_decide; [by intros [= <-]; constructor|]. intros [= <-].
  apply merge_steps_ascending. unfold pad_steps_start, pad_steps_stop.
  pose proof (detect_steps_ascending ch0 others first_samp) as Hd.
  destruct (last _) as [r|]; [|done]. case_bool_decide; [|done].
  rewrite fmap_app. apply StronglySorted_app_2; [|done|repeat constructor].
  intros x1 x2 Hx1 Hx2. apply list_elem_of_fmap in Hx1 as (r1 & -> & Hr1).
  apply detect_steps_elem in Hr1 as (i & -> & Hi & _).
  apply list_elem_of_singleton in Hx2 as ->. unfold col0. cbn. lia.
Qed.

Lemma mask_trigs_ascending (events : list row) (mask : pyobj) (out : list row) :
  _mask_trigs events mask = OK out → ascending events → ascending out.
Proof.
  unfold _mask_trigs. destruct (isinstance_int mask); [|done]. cbn [negb].
  case_bool_decide; [by intros [= <-]|].
  destruct (bitwise_not_mask mask) as [m|]; [|done]. intros [= <-] Hev.
  eapply StronglySorted_sublist; [apply fmap_sublist, sublist_filter|].
  rewrite <- list_fmap_compose. done.
Qed.

(** Selecting rows by ascending positions keeps the order. *)
Lemma np_take_ascending (events : list row) (idx : list nat) :
  ascending events → StronglySorted lt idx →
  Forall (λ i, (i < length events)%nat) idx →
  ascending (np_take events idx).
Proof.
  intros Hev Hidx Hrange. unfold np_take. rewrite <- list_fmap_compose.
  eapply StronglySorted_fmap_elem; [|exact Hidx].
  intros i j Hi Hj Hij. cbn.
  eapply (StronglySorted_lookup _ _ i j); [exact Hev | done | |];
    rewrite list_lookup_fmap, list_lookup_lookup_total_lt; try done;
    by eapply Forall_forall in Hrange.
Qed.

Lemma np_union1d_sorted (a b : list nat) :
  StronglySorted lt (np_union1d a b) ∧ ∀ i, i ∈ np_union1d a b → i ∈ a ++ b.
Proof.
  unfold np_union1d. split.
  - assert (NoDup (merge_sort le (remove_dups (a ++ b)))) as Hnd.
    { rewrite merge_sort_Permutation. apply NoDup_remove_dups. }
    assert (StronglySorted le (merge_sort le (remove_dups (a ++ b)))) as Hs
      by (apply StronglySorted_merge_sort; apply _).
    induction Hs as [|x l Hs IH Hx]; [constructor|].
    apply NoDup_cons in Hnd as [Hxl Hnd]. constructor; [by apply IH|].
    apply Forall_forall. intros y Hy.
    assert (x ≠ y) by (by intros ->).
    eapply Forall_forall in Hx; [|done]. lia.
  - intros i. rewrite merge_sort_Permutation, elem_of_remove_dups. done.
Qed.

Lemma index_list_sublist (n : nat) (l l' : list nat) :
  l' `sublist_of` l →
  StronglySorted lt l ∧ Forall (λ i, (i < n)%nat) l →
  StronglySorted lt l' ∧ Forall (λ i, (i < n)%nat) l'.
Proof.
  intros Hsub [Hs Hr]. split; [by eapply StronglySorted_sublist | by eapply Forall_sublist].
Qed.

Lemma removelast_sublist {A} (l : list A) : removelast l `sublist_of` l.
Proof. rewrite removelast_firstn_len. apply sublist_take. Qed.

Lemma assign_col2_broadcast_samples (a : list row) (v : list Z) (out : list row) :
  assign_col2_broadcast a v = OK out → col0 <$> out = col0 <$> a.
Proof.
  unfold assign_col2_broadcast. case_bool_decide as Hlen.
  - intros [= <-]. revert v Hlen. induction a as [|r a IH]; intros [|x v] Hlen; try done.
    cbn. f_equal. apply IH. cbn in Hlen. lia.
  - destruct v as [|x [|? ?]]; [done| |done]. intros [= <-].
    rewrite <- list_fmap_compose. done.
Qed.

Lemma shape_events_ascending (events : list row) (output : string)
    (consecutive : consecutive_mode) (out : list row) :
  shape_events events output consecutive = OK out → ascending events → ascending out.
Proof.
  unfold shape_events. intros Hout Hev.
  assert (StronglySorted lt (np_where (is_onset consecutive <$> events))
          ∧ Forall (λ i, (i < length events)%nat)
              (np_where (is_onset consecutive <$> events))) as Hon.
  { split; [apply np_where_sorted|].
    rewrite <- (length_fmap (is_onset consecutive)). apply np_where_in_range. }
  assert (StronglySorted lt (np_where (is_offset consecutive <$> events))
          ∧ Forall (λ i, (i < length events)%nat)
              (np_where (is_offset consecutive <$> events))) as Hoff.
  { split; [apply np_where_sorted|].
    rewrite <- (length_fmap (is_offset consecutive)). apply np_where_in_range. }
  destruct (np_where (is_onset consecutive <$> events)) as [|on0 on_rest];
    [injection Hout as <-; constructor|].
  destruct (np_where (is_offset consecutive <$> events)) as [|off0 off_rest];
    [injection Hout as <-; constructor|].
  cbn zeta in Hout.
  set (offset_idx := if bool_decide (off0 < on0)%nat then off_rest else off0 :: off_rest) in *.
  assert (StronglySorted lt offset_idx ∧ Forall (λ i, (i < length events)%nat) offset_idx)
    as [Hoff_s Hoff_r].
  { unfold offset_idx. case_bool_decide; [|done].
    eapply index_list_sublist; [|exact Hoff]. by apply sublist_cons. }
  destruct (last (on0 :: on_rest)) as [on_last|]; [|done].
  destruct (last offset_idx) as [off_last|]; [|done].
  set (onset_idx := if bool_decide (off_last < on_last)%nat
                    then removelast (on0 :: on_rest) else on0 :: on_rest) in *.
  assert (StronglySorted lt onset_idx ∧ Forall (λ i, (i < length events)%nat) onset_idx)
    as [Hon_s Hon_r].
  { unfold onset_idx. case_bool_decide; [|done].
    eapply index_list_sublist; [|exact Hon]. apply removelast_sublist. }
  destruct (String.eqb output "onset").
  { injection Hout as <-. by apply np_take_ascending. }
  destruct (String.eqb output "step").
  { injection Hout as <-. destruct (np_union1d_sorted onset_idx offset_idx) as [Hu_s Hu_r].
    apply np_take_ascending; [done..|].
    apply Forall_forall. intros i [Hi|Hi]%Hu_r%elem_of_app;
      [by eapply Forall_forall in Hon_r | by eapply Forall_forall in Hoff_r]. }
  destruct (String.eqb output "offset"); [|done].
  destruct (assign_col2_broadcast _ _) as [events'|] eqn:Hb; [|done].
  cbn [mbind result_bind] in Hout. injection Hout as <-.
  apply assign_col2_broadcast_samples in Hb.
  rewrite <- list_fmap_compose.
  change (col0 ∘ (λ r, set_col0 (col0 r - 1) r)) with ((λ z, z - 1) ∘ col0).
  rewrite list_fmap_compose, Hb.
  apply (StronglySorted_fmap _ Z.lt Z.lt); [intros x y; lia|].
  rewrite <- list_fmap_compose.
  change (col0 ∘ (λ r, set_col1 (col2 r) r)) with col0.
  by apply np_take_ascending.
Qed.

(** Whatever [_find_events] returns is in strictly ascending sample
    order. *)
Lemma _find_events_ascending (data : list (list Q)) (first_samp : Z) (output : string)
    (consecutive : consecutive_mode) (min_samples : Q) (mask : pyobj) (uint_cast : bool)
    (out : list row) :
  _find_events data first_samp output consecutive min_samples mask uint_cast = OK out →
  ascending out.
Proof.
  unfold _find_events. cbn zeta.
  destruct (prepare_data data uint_cast) as [data'|]; [|done]. cbn [mbind result_bind].
  destruct (_find_stim_steps _ _ _ _ _) as [steps|] eqn:Hsteps; [|done].
  cbn [mbind result_bind].
  destruct (_mask_trigs steps mask) as [events|] eqn:Hmask; [|done].
  cbn [mbind result_bind]. intros Hshape.
  eapply shape_events_ascending; [done|].
  eapply mask_trigs_ascending; [done|].
  by eapply find_stim_steps_ascending.
Qed.

(** ** EventExtractor: the spacing check of [find_events] *)

Lemma n_short_events_positive (events : list row) (shortest_event : Z) :
  (0 < n_short_events events shortest_event)%nat
  ↔ ∃ i r s, events !! i = Some r ∧ events !! S i = Some s
             ∧ col0 s - col0 r < shortest_event.
Proof.
  unfold n_short_events. split.
  - intros Hn. destruct (filter _ _) as [|d l] eqn:Hf; [cbn in Hn; lia|].
    assert (d ∈ d :: l) as Hd by left. rewrite <- Hf in Hd.
    apply list_elem_of_filter in Hd as [Hlt Hd].
    apply list_elem_of_lookup in Hd as [i Hi].
    unfold np_diff in Hi. apply lookup_zip_with_Some in Hi as (x & y & -> & Hx & Hy).
    rewrite lookup_tail in Hy. rewrite list_lookup_fmap in Hx, Hy.
    destruct (events !! i) as [r|] eqn:Hr; [|done].
    destruct (events !! S i) as [s|] eqn:Hs; [|done].
    injection Hx as <-. injection Hy as <-. eauto 6.
  - intros (i & r & s & Hr & Hs & Hlt).
    assert (col0 s - col0 r ∈ filter (λ d, d < shortest_event) (np_diff (col0 <$> events)))
      as Hin.
    { apply list_elem_of_filter. split; [done|]. apply list_elem_of_lookup. exists i.
      apply np_diff_lookup; rewrite list_lookup_fmap; [by rewrite Hr | by rewrite Hs]. }
    destruct (filter _ _); [by apply elem_of_nil in Hin | cbn; lia].
Qed.

(** What each stage of [_find_events] can raise. *)
Lemma prepare_data_raises (data : list (list Q)) (uint_cast : bool) (e : exn) :
  prepare_data data uint_cast = Raise e → e = Numpy_ValueError_empty_reduction.
Proof.
  unfold prepare_data. cbn zeta. case_bool_decide; [congruence|].
  by destruct (existsb _ _).
Qed.

Lemma find_stim_steps_raises (data : list (list Z)) (first_samp : Z)
    (pad_start pad_stop : option Z) (merge : Z) (e : exn) :
  _find_stim_steps data first_samp pad_start pad_stop merge = Raise e → e = Numpy_IndexError.
Proof.
  unfold _find_stim_steps. destruct data; [congruence|]. by case_bool_decide.
Qed.

Lemma mask_trigs_raises (events : list row) (mask : pyobj) (e : exn) :
  _mask_trigs events mask = Raise e → e = TypeError_mask_not_int.
Proof.
  unfold _mask_trigs. destruct (isinstance_int mask); cbn [negb]; [|congruence].
  case_bool_decide; [done|]. destruct (bitwise_not_mask mask); [done | congruence].
Qed.

Lemma shape_events_raises (events : list row) (output : string)
    (consecutive : consecutive_mode) (e : exn) :
  shape_events events output consecutive = Raise e →
  e = Numpy_IndexError ∨ e = Numpy_ValueError_broadcast ∨ e = Exception_invalid_output.
Proof.
  unfold shape_events. cbn zeta.
  destruct (np_where (is_onset consecutive <$> events)) as [|on0 on_rest]; [done|].
  destruct (np_where (is_offset consecutive <$> events)) as [|off0 off_rest]; [done|].
  destruct (last (on0 :: on_rest)); [|intros [= <-]; auto].
  destruct (last _); [|intros [= <-]; auto].
  destruct (String.eqb output "onset"); [done|].
  destruct (String.eqb output "step"); [done|].
  destruct (String.eqb output "offset"); [|intros [= <-]; auto].
  unfold assign_col2_broadcast. case_bool_decide; [done|].
  destruct (col2 <$> _) as [|x [|? ?]]; cbn [mbind result_bind]; [|done|];
    intros [= <-]; auto.
Qed.

(** [_find_events] never raises the error of the spacing check. *)
Lemma _find_events_not_short (data : list (list Q)) (first_samp : Z) (output : string)
    (consecutive : consecutive_mode) (min_samples : Q) (mask : pyobj) (uint_cast : bool)
    (n : nat) :
  _find_events data first_samp output consecutive min_samples mask uint_cast
  ≠ Raise (ValueError_short_events n).
Proof.
  unfold _find_events. cbn zeta.
  destruct (prepare_data data uint_cast) as [data'|e] eqn:Hp; cbn [mbind result_bind].
  2:{ apply prepare_data_raises in Hp as ->. done. }
  destruct (_find_stim_steps _ _ _ _ _) as [steps|e] eqn:Hs; cbn [mbind result_bind].
  2:{ apply find_stim_steps_raises in Hs as ->. done. }
  destruct (_mask_trigs steps mask) as [events|e] eqn:Hm; cbn [mbind result_bind].
  2:{ apply mask_trigs_raises in Hm as ->. done. }
  intros Hshape. apply shape_events_raises in Hshape as [?|[?|?]]; done.
Qed.

(** C2 (amended).  Given at least one stim channel, [find_events] raises
    the short-event [ValueError] exactly when, in the rows that
    [_find_events] returns for the chosen output (onset rows, offset rows,
    or both for ['step'], not only onset events), some two consecutive rows
    are fewer than [shortest_event] samples apart; the error carries the
    number of such pairs.  The rows are already in strictly ascending
    sample order.  Without such a pair the rows are returned, and an error
    of [_find_events] is passed on. *)
Theorem find_events_short_event_check (raw : Raw) (output : string)
    (consecutive : consecutive_mode) (min_duration : Q) (shortest_event : Z)
    (mask : pyobj) (uint_cast : bool) :
  let found :=
    _find_events (stim_data raw) (first_samp raw) output consecutive
      (min_duration * sfreq raw) mask uint_cast in
  let call :=
    find_events raw output consecutive min_duration shortest_event mask uint_cast in
  stim_data raw ≠ [] →
  (∀ n, call = Raise (ValueError_short_events n)
        ↔ ∃ events, found = OK events
                    ∧ n = n_short_events events shortest_event ∧ (0 < n)%nat)
  ∧ (∀ events, found = OK events →
       StronglySorted Z.lt (col0 <$> events)
       ∧ ((0 < n_short_events events shortest_event)%nat
          ↔ ∃ i r s, events !! i = Some r ∧ events !! S i = Some s
                     ∧ col0 s - col0 r < shortest_event)
       ∧ (n_short_events events shortest_event = 0%nat → call = OK events))
  ∧ (∀ e, found = Raise e → call = Raise e).
Proof.
  intros found call Hstim.
  assert (call = (events ← found;
                  let n := n_short_events events shortest_event in
                  if bool_decide (0 < n)%nat then Raise (ValueError_short_events n)
                  else OK events)) as Hcall.
  { unfold call, find_events. rewrite bool_decide_false; [done|]. by destruct (stim_data raw). }
  split; [|split].
  - intros n. rewrite Hcall. split.
    + destruct found as [events|e] eqn:Hf; cbn [mbind result_bind].
      * cbn zeta. case_bool_decide; [|done]. intros [= <-]. eauto.
      * intros [= ->]. by apply _find_events_not_short in Hf.
    + intros (events & -> & -> & Hn). cbn [mbind result_bind]. cbn zeta.
      by rewrite bool_decide_true.
  - intros events Hf. split; [by eapply _find_events_ascending|].
    split; [apply n_short_events_positive|].
    intros Hn. rewrite Hcall, Hf. cbn [mbind result_bind]. cbn zeta.
    rewrite bool_decide_false; [done | lia].
  - intros e Hf. by rewrite Hcall, Hf.
Qed.

Lemma find_events_short_event_check_witness :
  stim_data example_raw ≠ []
  ∧ (find_events example_raw "step" (Consecutive true) 0 2 (PyInt 0) false
       = Raise (ValueError_short_events 2)
     ↔ ∃ events,
         _find_events (stim_data example_raw) (first_samp example_raw) "step"
           (Consecutive true) (0 * sfreq example_raw) (PyInt 0) false = OK events
         ∧ 2%nat = n_short_events events 2 ∧ (0 < 2)%nat).
Proof.
  split; [discriminate|].
  apply (find_events_short_event_check example_raw "step" (Consecutive true) 0 2
           (PyInt 0) false). discriminate.
Defined.

(** In ['step'] output the check counts the gap between an onset and its
    offset: a pulse of one sample makes [find_events] raise although the
    recording holds a single onset event. *)
Lemma short_event_check_counts_offset_rows :
  ¬ (∀ n, find_events example_pulse "step" (Consecutive true) 0 2 (PyInt 0) false
          = Raise (ValueError_short_events n) →
          ∃ onsets i r s,
            _find_events (stim_data example_pulse) (first_samp example_pulse) "onset"
              (Consecutive true) (0 * sfreq example_pulse) (PyInt 0) false = OK onsets
            ∧ onsets !! i = Some r ∧ onsets !! S i = Some s ∧ col0 s - col0 r < 2).
Proof.
  intros Hall. destruct (Hall 1%nat) as (onsets & i & r & s & Hon & _ & Hs & _).
  - vm_compute. reflexivity.
  - vm_compute in Hon. injection Hon as <-. done.
Qed.

Example short_event_check_runs :
  find_events example_pulse "step" (Consecutive true) 0 2 (PyInt 0) false
    = Raise (ValueError_short_events 1)
  ∧ find_events example_pulse "onset" (Consecutive true) 0 2 (PyInt 0) false
    = OK [(1, 0, 5)]
  ∧ find_events example_pulse "step" (Consecutive true) 0 1 (PyInt 0) false
    = OK [(1, 0, 5); (2, 5, 0)]
  ∧ find_events (mkRaw [] 0 3 1000) "onset" Increasing 0 2 (PyInt 0) false
    = Raise ValueError_no_stim_channel
  ∧ find_events example_pulse "onset" Increasing 0 2 (PyFloat 0) false
    = Raise TypeError_mask_not_int.
Proof. repeat split; vm_compute; reflexivity. Qed.

(** * Further properties of the event operations *)

(** ** Selection: [pick_events] *)

Lemma np_select_fmap {A} (f : A → bool) (l : list A) :
  np_select l (f <$> l) = filter (λ x, f x = true) l.
Proof.
  unfold np_select. induction l as [|x l IH]; [done|].
  cbn [fmap list_fmap zip zip_with]. rewrite !filter_cons. cbn [snd].
  destruct (decide (f x = true)) as [Hx|Hx]; cbn [fmap list_fmap fst]; by rewrite IH.
Qed.

Lemma zip_with_fmap_same {A B C D} (g : B → C → D) (f1 : A → B) (f2 : A → C) (l : list A) :
  zip_with g (f1 <$> l) (f2 <$> l) = (λ x, g (f1 x) (f2 x)) <$> l.
Proof. induction l as [|x l IH]; [done|]. cbn. by rewrite IH. Qed.

Lemma include_mask (events : list row) (include : list Z) (step : bool) (b : row → bool) :
  foldl (λ mask e,
           let mask := zip_with orb mask ((λ r, bool_decide (col2 r = e)) <$> events) in
           if step
           then zip_with orb mask ((λ r, bool_decide (col1 r = e)) <$> events)
           else mask)
        (b <$> events) include
  = (λ r, b r || bool_decide (col2 r ∈ include ∨ (step = true ∧ col1 r ∈ include)))
      <$> events.
Proof.
  revert b. induction include as [|e include IH]; intros b.
  - cbn. apply list_fmap_ext. intros _ r _.
    rewrite bool_decide_false; [by rewrite orb_false_r|].
    intros [H|[_ H]]; by apply elem_of_nil in H.
  - cbn [foldl]. cbn zeta. rewrite zip_with_fmap_same.
    destruct step.
    + rewrite zip_with_fmap_same, IH. apply list_fmap_ext. intros _ r _.
      rewrite <- !orb_assoc. f_equal.
      apply eq_true_iff_eq. rewrite !orb_true_iff, !bool_decide_eq_true.
      rewrite !elem_of_cons. intuition congruence.
    + rewrite IH. apply list_fmap_ext. intros _ r _.
      rewrite <- !orb_assoc. f_equal.
      apply eq_true_iff_eq. rewrite !orb_true_iff, !bool_decide_eq_true.
      rewrite !elem_of_cons. intuition congruence.
Qed.

Lemma exclude_mask (events : list row) (exclude : list Z) (step : bool) (b : row → bool) :
  foldl (λ mask e,
           let mask := zip_with andb mask ((λ r, bool_decide (col2 r ≠ e)) <$> events) in
           if step
           then zip_with andb mask ((λ r, bool_decide (col1 r ≠ e)) <$> events)
           else mask)
        (b <$> events) exclude
  = (λ r, b r && bool_decide ((col2 r ∉ exclude) ∧ (step = true → col1 r ∉ exclude)))
      <$> events.
Proof.
  revert b. induction exclude as [|e exclude IH]; intros b.
  - cbn. apply list_fmap_ext. intros _ r _.
    rewrite bool_decide_true; [by rewrite andb_true_r|].
    split; [|intros _]; apply not_elem_of_nil.
  - cbn [foldl]. cbn zeta. rewrite zip_with_fmap_same.
    destruct step.
    + rewrite zip_with_fmap_same, IH. apply list_fmap_ext. intros _ r _.
      rewrite <- !andb_assoc. f_equal.
      apply eq_true_iff_eq. rewrite !andb_true_iff, !bool_decide_eq_true.
      rewrite !not_elem_of_cons. intuition congruence.
    + rewrite IH. apply list_fmap_ext. intros _ r _.
      rewrite <- !andb_assoc. f_equal.
      apply eq_true_iff_eq. rewrite !andb_true_iff, !bool_decide_eq_true.
      rewrite !not_elem_of_cons. intuition congruence.
Qed.

Lemma replicate_fmap_const {A B} (b : B) (l : list A) :
  replicate (length l) b = (λ _, b) <$> l.
Proof. induction l as [|x l IH]; [done|]. cbn. by rewrite IH. Qed.

Lemma pick_events_filter (events : list row) (step : bool) :
  (∀ include exclude,
     pick_events events (Some include) exclude step
     = let kept :=
         filter (λ r, col2 r ∈ include ∨ (step = true ∧ col1 r ∈ include)) events in
       if bool_decide (kept = []) then Raise RuntimeError_no_events else OK kept)
  ∧ (∀ exclude,
       pick_events events None (Some exclude) step
       = let kept :=
           filter (λ r, (col2 r ∉ exclude) ∧ (step = true → col1 r ∉ exclude)) events in
         if bool_decide (kept = []) then Raise RuntimeError_no_events else OK kept)
  ∧ pick_events events None None step
    = (if bool_decide (events = []) then Raise RuntimeError_no_events else OK events).
Proof.
  assert (∀ l : list row, bool_decide (length l = 0%nat) = bool_decide (l = [])) as Hlen.
  { intros l. apply bool_decide_ext. by rewrite length_zero_iff_nil. }
  split; [|split].
  - intros include exclude. unfold pick_events, pick_rows. cbn zeta.
    rewrite replicate_fmap_const, include_mask, np_select_fmap, Hlen.
    cbn [orb].
    by rewrite (list_filter_iff _ (λ r, col2 r ∈ include ∨ (step = true ∧ col1 r ∈ include)))
      by (intros r; apply bool_decide_eq_true).
  - intros exclude. unfold pick_events, pick_rows. cbn zeta.
    rewrite replicate_fmap_const, exclude_mask, np_select_fmap, Hlen.
    cbn [andb].
    by rewrite (list_filter_iff _
                  (λ r, (col2 r ∉ exclude) ∧ (step = true → col1 r ∉ exclude)))
      by (intros r; apply bool_decide_eq_true).
  - unfold pick_events, pick_rows. by rewrite Hlen.
Qed.

(** X1.  [pick_events] returns, in their order, exactly the rows whose id
    is one of [include] (or, with [step], whose paired value is); when
    [include] is not given, the rows whose id (and, with [step], paired
    value) is none of [exclude]; [exclude] is ignored when [include] is
    given.  It raises [RuntimeError] exactly when no row is left. *)
Theorem pick_events_selects (events : list row) (step : bool) :
  (∀ include exclude,
     pick_events events (Some include) exclude step
     = let kept :=
         filter (λ r, col2 r ∈ include ∨ (step = true ∧ col1 r ∈ include)) events in
       if bool_decide (kept = []) then Raise RuntimeError_no_events else OK kept)
  ∧ (∀ exclude,
       pick_events events None (Some exclude) step
       = let kept :=
           filter (λ r, (col2 r ∉ exclude) ∧ (step = true → col1 r ∉ exclude)) events in
         if bool_decide (kept = []) then Raise RuntimeError_no_events else OK kept)
  ∧ pick_events events None None step
    = (if bool_decide (events = []) then Raise RuntimeError_no_events else OK events).
Proof. apply pick_events_filter. Qed.

(** ** Time shifts: [shift_time_events] *)

Lemma py_int_opp (q : Q) : py_int (- q) = - py_int q.
Proof.
  unfold py_int.
  destruct (Qlt_le_dec (- q) 0) as [H1|H1], (Qlt_le_dec q 0) as [H2|H2].
  - lra.
  - unfold Qceiling. by rewrite (Qfloor_comp _ _ (Qopp_involutive q)).
  - unfold Qceiling. lia.
  - assert (q == 0)%Q as H0 by lra.
    rewrite (Qfloor_comp _ _ H0), (Qfloor_comp (- q) 0) by lra. reflexivity.
Qed.

Lemma shift_rows (events : list row) (ids : list Z) (tshift sfreq : Q) :
  shift_time_events events ids tshift sfreq
  = (λ r, (col0 r + Z.of_nat (count_occ Z.eq_dec ids (col2 r)) * py_int (tshift * sfreq),
           col1 r, col2 r)) <$> events.
Proof.
  unfold shift_time_events. revert events.
  induction ids as [|i ids IH]; intros events.
  - cbn. rewrite <- (list_fmap_id events) at 1. apply list_fmap_ext.
    intros _ [[s b] a] _. unfold col0, col1, col2. cbn. f_equal. f_equal. lia.
  - cbn [foldl]. rewrite IH, <- list_fmap_compose. apply list_fmap_ext.
    intros _ [[s b] a] _. unfold col0, col1, col2, set_col0. cbn [compose fst snd count_occ].
    case_bool_decide as Ha; cbn [fst snd].
    + destruct (Z.eq_dec i a); [|done].
      unfold col0, col1, col2. cbn [fst snd]. f_equal. f_equal. lia.
    + destruct (Z.eq_dec i a); [done|]. done.
Qed.



(** ** Masking: [_mask_trigs] *)

Lemma mask_trigs_int (events : list row) (m : Z) :
  _mask_trigs events (PyInt m)
  = OK (filter (λ r, is_step r = true) (mask_row (Z.lnot m) <$> events)).
Proof.
  unfold _mask_trigs. cbn. case_bool_decide as Hlen; [|done].
  by destruct events.
Qed.

Lemma mask_row_twice (a b : Z) (r : row) :
  mask_row b (mask_row a r) = mask_row (Z.land a b) r.
Proof.
  destruct r as [[s x] y]. unfold mask_row, col0, col1, col2. cbn.
  by rewrite !Z.land_assoc.
Qed.

Lemma mask_row_degenerate (b : Z) (r : row) :
  is_step r = false → is_step (mask_row b r) = false.
Proof.
  destruct r as [[s x] y]. unfold is_step, mask_row, col1, col2. cbn.
  rewrite !bool_decide_eq_false. intros H H'. apply H. intros ->. done.
Qed.

Lemma mask_filter_twice (a b : Z) (events : list row) :
  filter (λ r, is_step r = true)
    (mask_row b <$> filter (λ r, is_step r = true) (mask_row a <$> events))
  = filter (λ r, is_step r = true) (mask_row (Z.land a b) <$> events).
Proof.
  induction events as [|r events IH]; [done|].
  cbn [fmap list_fmap]. rewrite !filter_cons.
  destruct (decide (is_step (mask_row a r) = true)) as [Ha|Ha].
  - cbn [fmap list_fmap]. rewrite filter_cons, mask_row_twice.
    destruct (decide (is_step (mask_row (Z.land a b) r) = true)); by rewrite IH.
  - apply not_true_is_false in Ha. pose proof (mask_row_degenerate b _ Ha) as Hb.
    rewrite mask_row_twice in Hb. rewrite decide_False by congruence. apply IH.
Qed.

(** X4.  Masking twice is masking once with the union of the two masks: a
    row that the first mask turns into a non-step stays dropped.  In
    particular the stage is idempotent. *)
Theorem mask_trigs_twice (events : list row) (m1 m2 : Z) :
  (events ← _mask_trigs events (PyInt m1); _mask_trigs events (PyInt m2))
  = _mask_trigs events (PyInt (Z.lor m1 m2))
  ∧ (events ← _mask_trigs events (PyInt m1); _mask_trigs events (PyInt m1))
    = _mask_trigs events (PyInt m1).
Proof.
  assert (∀ a b,
            (events ← _mask_trigs events (PyInt a); _mask_trigs events (PyInt b))
            = _mask_trigs events (PyInt (Z.lor a b))) as H.
  { intros a b. rewrite (mask_trigs_int events a). unfold mbind, result_bind.
    rewrite !mask_trigs_int. f_equal.
    rewrite mask_filter_twice. by rewrite Z.lnot_lor. }
  split; [apply H|]. by rewrite H, Z.lor_diag.
Qed.

(** ** Relabelling: [merge_events] *)

Lemma relabel_twice (ids : list Z) (new_id : Z) (r : row) :
  relabel ids new_id (relabel ids new_id r) = relabel ids new_id r.
Proof.
  destruct r as [[s x] y]. unfold relabel, col0, col1, col2. cbn.
  repeat case_bool_decide; done.
Qed.

(** X5.  With [replace_events=True], [merge_events] never changes the
    sample column or the number of rows, and merging the same ids into the
    same [new_id] a second time changes nothing. *)
Theorem merge_events_replace_twice (events : list row) (ids : list Z) (new_id : Z) :
  ∃ out,
    merge_events events ids new_id true = OK out
    ∧ col0 <$> out = col0 <$> events
    ∧ merge_events out ids new_id true = OK out.
Proof.
  exists (relabel ids new_id <$> events).
  assert (∀ l, merge_events l ids new_id true = OK (relabel ids new_id <$> l)) as H.
  { intros l. unfold merge_events. by rewrite merge_loop_spec. }
  split; [apply H|]. split.
  - rewrite <- list_fmap_compose. apply list_fmap_ext. by intros _ [[s x] y] _.
  - rewrite H, <- list_fmap_compose. f_equal. apply list_fmap_ext. intros _ r _.
    apply relabel_twice.
Qed.

(** ** Concatenation: [concatenate_events] *)

Lemma np_cumsum_from (s : Z) (acc : list Z) (a : list Z) :
  (foldl (λ (st : Z * list Z) x, (st.1 + x, st.2 ++ [st.1 + x])) (s, acc) a).2
  = acc ++ (foldl (λ (st : Z * list Z) x, (st.1 + x, st.2 ++ [st.1 + x])) (s, []) a).2.
Proof.
  revert s acc. induction a as [|x a IH]; intros s acc.
  - cbn. by rewrite app_nil_r.
  - cbn [foldl fst snd]. rewrite (IH _ (acc ++ _)), (IH _ ([] ++ _)).
    by rewrite app_nil_l, app_assoc.
Qed.

Lemma np_cumsum_two (x y : Z) (a : list Z) :
  np_cumsum (x :: y :: a) = x :: np_cumsum ((x + y) :: a).
Proof.
  unfold np_cumsum. cbn [foldl fst snd].
  rewrite (np_cumsum_from _ (([] ++ _) ++ _)), (np_cumsum_from _ ([] ++ _)).
  cbn [app]. by rewrite !Z.add_0_l.
Qed.

Lemma np_cumsum_nonempty (x : Z) (a : list Z) : np_cumsum (x :: a) ≠ [].
Proof.
  unfold np_cumsum. cbn [foldl fst snd]. rewrite np_cumsum_from.
  cbn [app]. done.
Qed.

(** X6.  [concatenate_events] re-bases the events of each further recording
    so that its first sample follows the last sample of the recordings
    before it.  One recording gives its events as they are; for two, a
    sample [s] of the second becomes [s - first_2 + last_1 + 1]; and
    concatenating several recordings at once is the same as concatenating
    the first two and then the rest, with the first two taken as one
    recording that is longer by the length of the second. *)
Theorem concatenate_events_stepwise (e0 e1 : list row) (f0 f1 l0 l1 : Z) :
  concatenate_events [e0] [f0] [l0] = OK e0
  ∧ concatenate_events [e0; e1] [f0; f1] [l0; l1]
    = OK (e0 ++ ((λ r, (col0 r - f1 + l0 + 1, col1 r, col2 r)) <$> e1))
  ∧ ∀ rest fs ls,
      concatenate_events (e0 :: e1 :: rest) (f0 :: f1 :: fs) (l0 :: l1 :: ls)
      = concatenate_events
          ((e0 ++ ((λ r, (col0 r - f1 + l0 + 1, col1 r, col2 r)) <$> e1)) :: rest)
          (f0 :: fs) ((l0 + (l1 - f1 + 1)) :: ls).
Proof.
  assert (∀ e : list row,
            (λ r, set_col0 (col0 r - f1 + (l0 - f0 + 1 + f0)) r) <$> e
            = (λ r, (col0 r - f1 + l0 + 1, col1 r, col2 r)) <$> e) as Hshift.
  { intros e. apply list_fmap_ext. intros _ [[s x] y] _.
    unfold set_col0, col0, col1, col2. cbn. f_equal. f_equal. lia. }
  split; [done|]. split.
  - unfold concatenate_events. cbn. by rewrite Hshift.
  - intros rest fs ls. unfold concatenate_events.
    cbn [length zip_with].
    replace (bool_decide (S (S (length rest)) = S (S (length ls))))
      with (bool_decide (S (length rest) = S (length ls)))
      by (apply bool_decide_ext; lia).
    replace (bool_decide (S (S (length rest)) = S (S (length fs))))
      with (bool_decide (S (length rest) = S (length fs)))
      by (apply bool_decide_ext; lia).
    destruct (negb _); [done|]. f_equal.
    rewrite np_cumsum_two.
    replace (l0 + (l1 - f1 + 1) - f0 + 1) with (l0 - f0 + 1 + (l1 - f1 + 1)) by lia.
    set (ns := np_cumsum _).
    assert (ns ≠ []) as Hns by apply np_cumsum_nonempty.
    destruct ns as [|n ns]; [done|].
    change (removelast (?x :: n :: ns)) with (x :: removelast (n :: ns)).
    cbn [zip zip_with foldl]. by rewrite Hshift.
Qed.

(** ** Invariants of the step detector *)

Lemma np_select_and_mask {A} (f : A → bool) (a : list A) (k : list bool) :
  Forall (λ x, f x = true) (np_select a (zip_with andb k (f <$> a))).
Proof.
  unfold np_select. revert k. induction a as [|x a IH]; intros k; [by destruct k|].
  destruct k as [|b k]; [constructor|].
  cbn [fmap list_fmap zip zip_with]. rewrite filter_cons. cbn [snd].
  destruct (decide (b && f x = true)) as [Hb|Hb].
  - cbn [fmap list_fmap fst]. constructor; [|apply IH].
    by apply andb_true_iff in Hb as [_ ?].
  - apply IH.
Qed.

Lemma merge_steps_genuine (merge : Z) (steps : list row) :
  Forall (λ r, col1 r ≠ col2 r) steps →
  Forall (λ r, col1 r ≠ col2 r) (merge_steps merge steps).
Proof.
  intros Hs. unfold merge_steps. case_bool_decide; [|done]. cbn zeta.
  destruct (np_any _); [|done].
  case_bool_decide.
  - eapply Forall_impl; [apply np_select_and_mask|].
    intros r Hr. by apply bool_decide_eq_true in Hr.
  - eapply Forall_impl; [apply np_select_and_mask|].
    intros r Hr. by apply bool_decide_eq_true in Hr.
Qed.

Lemma merge_steps_samples (merge : Z) (steps : list row) :
  (col0 <$> merge_steps merge steps) `sublist_of` (col0 <$> steps).
Proof.
  unfold merge_steps. case_bool_decide; [|done]. cbn zeta.
  destruct (np_any _); [|done].
  case_bool_decide.
  - etrans; [apply fmap_sublist, np_select_sublist|]. by rewrite assign_col_samples.
  - etrans; [apply fmap_sublist, np_select_sublist|]. by rewrite assign_col_samples.
Qed.

Lemma padded_steps_samples (ch0 : list Z) (others : list (list Z)) (first_samp : Z)
    (pad_start pad_stop : option Z) :
  Forall (λ s, (s = 0 ∧ is_Some pad_start)
               ∨ first_samp < s ≤ first_samp + Z.of_nat (length ch0))
    (col0 <$> pad_steps_stop pad_stop (length ch0) first_samp
                (pad_steps_start pad_start (detect_steps ch0 others first_samp))).
Proof.
  assert (Forall (λ s, (s = 0 ∧ is_Some pad_start)
                       ∨ first_samp < s ≤ first_samp + Z.of_nat (length ch0))
            (col0 <$> detect_steps ch0 others first_samp)) as Hd.
  { apply Forall_fmap, Forall_forall. intros r Hr.
    apply detect_steps_elem in Hr as (i & -> & Hi & _). right. unfold col0. cbn. lia. }
  assert (Forall (λ s, (s = 0 ∧ is_Some pad_start)
                       ∨ first_samp < s ≤ first_samp + Z.of_nat (length ch0))
            (col0 <$> pad_steps_start pad_start (detect_steps ch0 others first_samp)))
    as Hs.
  { unfold pad_steps_start. destruct pad_start as [p|]; [|done].
    destruct (detect_steps _ _ _) as [|r l]; [done|].
    case_bool_decide; [|done]. cbn [fmap list_fmap]. constructor; [|done].
    left. split; [done | by eexists]. }
  unfold pad_steps_stop. destruct pad_stop as [p|]; [|done].
  destruct (last _) as [r|] eqn:Hlast; [|done].
  case_bool_decide; [|done]. rewrite fmap_app. apply Forall_app. split; [done|].
  apply Forall_singleton. right. unfold col0. cbn.
  apply last_Some in Hlast as [l' Hl'].
  assert (r ∈ pad_steps_start pad_start (detect_steps ch0 others first_samp)) as Hin.
  { rewrite Hl'. apply elem_of_app. right. by left. }
  assert (detect_steps ch0 others first_samp ≠ []) as Hne.
  { intros Hnil. rewrite Hnil in Hin. unfold pad_steps_start in Hin.
    destruct pad_start; by apply elem_of_nil in Hin. }
  destruct (detect_steps ch0 others first_samp) as [|r0 l0] eqn:Hdet; [done|].
  assert (r0 ∈ detect_steps ch0 others first_samp) as Hr0 by (rewrite Hdet; left).
  apply detect_steps_elem in Hr0 as (i & _ & Hi & _). lia.
Qed.

Lemma padded_steps_ascending (ch0 : list Z) (others : list (list Z)) (first_samp : Z)
    (pad_start pad_stop : option Z) :
  0 ≤ first_samp ∨ pad_start = None →
  ascending (pad_steps_stop pad_stop (length ch0) first_samp
               (pad_steps_start pad_start (detect_steps ch0 others first_samp))).
Proof.
  intros Hfirst.
  pose proof (detect_steps_ascending ch0 others first_samp) as Hd.
  assert (Forall (λ r, first_samp < col0 r < first_samp + Z.of_nat (length ch0))
            (detect_steps ch0 others first_samp)) as Hrange.
  { apply Forall_forall. intros r Hr.
    apply detect_steps_elem in Hr as (i & -> & Hi & _). unfold col0. cbn. lia. }
  set (steps0 := detect_steps ch0 others first_samp) in *.
  set (steps1 := pad_steps_start pad_start steps0).
  assert (ascending steps1
          ∧ Forall (λ r, col0 r < first_samp + Z.of_nat (length ch0)) steps1) as [Hs Hr].
  { unfold steps1, pad_steps_start. destruct pad_start as [p|].
    2:{ split; [done|]. eapply Forall_impl; [exact Hrange|]. intros r ?. cbn in *. lia. }
    destruct Hfirst as [Hfirst|]; [|done].
    destruct steps0 as [|r l] eqn:Hsteps.
    { split; [done | constructor]. }
    assert (Forall (λ r, col0 r < first_samp + Z.of_nat (length ch0)) (r :: l)) as Hlt.
    { eapply Forall_impl; [exact Hrange|]. intros r' ?. cbn in *. lia. }
    case_bool_decide; [|done]. split.
    - cbn [fmap list_fmap]. constructor; [done|].
      change (col0 r :: (col0 <$> l)) with (col0 <$> (r :: l)).
      apply Forall_fmap. eapply Forall_impl; [exact Hrange|].
      intros r' Hr'. unfold col0 at 1. cbn in *. lia.
    - constructor; [|done]. apply Forall_inv in Hrange. unfold col0 at 1. cbn. lia. }
  unfold pad_steps_stop. fold steps0 steps1. destruct pad_stop as [p|]; [|done].
  destruct (last steps1) as [r|]; [|done]. case_bool_decide; [|done].
  rewrite fmap_app. apply StronglySorted_app_2; [|done|repeat constructor].
  intros x1 x2 Hx1 Hx2. apply list_elem_of_fmap in Hx1 as (r1 & -> & Hr1).
  apply list_elem_of_singleton in Hx2 as ->.
  eapply Forall_forall in Hr; [|exact Hr1]. unfold col0 at 2. cbn in *. lia.
Qed.

(** X7.  Whatever the padding and merging, every row that
    [_find_stim_steps] returns is a genuine step (its two values differ);
    its sample lies after [first_samp] and at most one past the last sample
    ([first_samp + len(data[0])]), except for the start pad, which sits at
    sample 0; and, when [first_samp] is not negative or no start pad is
    asked for, the samples are strictly ascending. *)
Theorem find_stim_steps_well_formed (ch0 : list Z) (others : list (list Z))
    (first_samp : Z) (pad_start pad_stop : option Z) (merge : Z) (steps : list row) :
  _find_stim_steps (ch0 :: others) first_samp pad_start pad_stop merge = OK steps →
  Forall (λ r, col1 r ≠ col2 r) steps
  ∧ Forall (λ r, (col0 r = 0 ∧ is_Some pad_start)
                 ∨ first_samp < col0 r ≤ first_samp + Z.of_nat (length ch0)) steps
  ∧ (0 ≤ first_samp ∨ pad_start = None → StronglySorted Z.lt (col0 <$> steps)).
Proof.
  unfold _find_stim_steps. case_bool_decide.
  { intros [= <-]. repeat split; constructor. }
  intros [= <-]. split; [|split].
  - apply merge_steps_genuine, padded_steps_genuine.
  - apply (proj1 (Forall_fmap col0
                    (λ s, (s = 0 ∧ is_Some pad_start)
                          ∨ first_samp < s ≤ first_samp + Z.of_nat (length ch0)) _)).
    eapply Forall_sublist; [apply merge_steps_samples|].
    apply padded_steps_samples.
  - intros Hfirst. by apply merge_steps_ascending, padded_steps_ascending.
Qed.

Lemma find_stim_steps_well_formed_witness :
  _find_stim_steps [[5; 5; 7; 0; 0; 3]] 10 (Some 0) (Some 0) 0
  = OK [(0, 0, 5); (12, 5, 7); (13, 7, 0); (15, 0, 3); (16, 3, 0)]
  ∧ Forall (λ r, col1 r ≠ col2 r)
      [(0, 0, 5); (12, 5, 7); (13, 7, 0); (15, 0, 3); (16, 3, 0)]
  ∧ StronglySorted Z.lt
      (col0 <$> [(0, 0, 5); (12, 5, 7); (13, 7, 0); (15, 0, 3); (16, 3, 0)]).
Proof.
  assert (_find_stim_steps [[5; 5; 7; 0; 0; 3]] 10 (Some 0) (Some 0) 0
          = OK [(0, 0, 5); (12, 5, 7); (13, 7, 0); (15, 0, 3); (16, 3, 0)]) as Hrun
    by reflexivity.
  destruct (find_stim_steps_well_formed _ _ _ _ _ _ _ Hrun) as (Hg & _ & Hs).
  split; [exact Hrun|]. split; [exact Hg|]. apply Hs. left. lia.
Defined.

(** *** One stim channel: the steps chain *)

Lemma np_where_adjacent (mask : list bool) (k i j : nat) :
  np_where mask !! k = Some i → np_where mask !! S k = Some j →
  (i < j)%nat ∧ ∀ m, (i < m < j)%nat → mask !! m ≠ Some true.
Proof.
  intros Hi Hj. pose proof (np_where_sorted mask) as Hs.
  split; [by eapply (StronglySorted_lookup _ _ k (S k)); [exact Hs | lia | |]|].
  intros m Hm Hmask. apply elem_of_np_where, list_elem_of_lookup in Hmask as [p Hp].
  destruct (lt_eq_lt_dec p k) as [[Hlt | ->] | Hgt].
  - pose proof (StronglySorted_lookup _ _ p k m i Hs Hlt Hp Hi). lia.
  - rewrite Hp in Hi. injection Hi as ->. lia.
  - destruct (decide (p = S k)) as [-> | Hne].
    + rewrite Hp in Hj. injection Hj as ->. lia.
    + pose proof (StronglySorted_lookup _ _ (S k) p j m Hs ltac:(lia) Hj Hp). lia.
Qed.

Lemma np_where_first (mask : list bool) (i : nat) :
  head (np_where mask) = Some i → ∀ m, (m < i)%nat → mask !! m ≠ Some true.
Proof.
  intros Hi m Hm Hmask. pose proof (np_where_sorted mask) as Hs.
  rewrite head_lookup in Hi.
  apply elem_of_np_where, list_elem_of_lookup in Hmask as [p Hp].
  destruct p as [|p].
  - rewrite Hp in Hi. injection Hi as ->. lia.
  - pose proof (StronglySorted_lookup _ _ 0 (S p) i m Hs ltac:(lia) Hi Hp). lia.
Qed.

Lemma constant_stretch (ch : list Z) (lo hi : nat) :
  (lo ≤ hi)%nat → (hi < length ch)%nat →
  (∀ m, (lo ≤ m < hi)%nat → changed ch !! m ≠ Some true) →
  ch !! hi = ch !! lo.
Proof.
  intros Hle Hhi Hconst. induction hi as [|hi IH].
  - by replace lo with 0%nat by lia.
  - destruct (decide (lo = S hi)) as [-> | Hne]; [done|].
    rewrite <- IH by (try lia; intros m ?; apply Hconst; lia).
    apply changed_lookup_false.
    destruct (changed ch !! hi) as [[|]|] eqn:Hc; [|done|].
    + exfalso. apply (Hconst hi); [lia | done].
    + apply lookup_ge_None in Hc. rewrite changed_length in Hc. lia.
Qed.

Lemma detect_steps_chain (ch0 : list Z) (first_samp : Z) (k : nat) (r s : row) :
  detect_steps ch0 [] first_samp !! k = Some r →
  detect_steps ch0 [] first_samp !! S k = Some s →
  col2 r = col1 s.
Proof.
  rewrite detect_steps_single, !list_lookup_fmap.
  destruct (np_where (changed ch0) !! k) as [i|] eqn:Hi; [|done].
  destruct (np_where (changed ch0) !! S k) as [j|] eqn:Hj; [|done].
  cbn. intros [= <-] [= <-]. unfold col1, col2. cbn.
  destruct (np_where_adjacent _ _ _ _ Hi Hj) as [Hij Hbetween].
  assert (j < length (changed ch0))%nat as Hjlen.
  { apply (proj1 (Forall_forall (λ i, (i < length (changed ch0))%nat) _)
             (np_where_in_range (changed ch0))). by eapply list_elem_of_lookup_2. }
  rewrite changed_length in Hjlen.
  assert (ch0 !! j = ch0 !! (i + 1)%nat) as Heq.
  { apply constant_stretch; [lia | lia |]. intros m Hm. apply Hbetween. lia. }
  destruct (lookup_lt_is_Some_2 ch0 j ltac:(lia)) as [x Hx].
  rewrite (list_lookup_total_correct _ _ _ Hx).
  rewrite Hx in Heq. by rewrite (list_lookup_total_correct _ _ _ (eq_sym Heq)).
Qed.

Lemma detect_steps_head_single (ch0 : list Z) (first_samp : Z) (r : row) :
  head (detect_steps ch0 [] first_samp) = Some r → head ch0 = Some (col1 r).
Proof.
  rewrite detect_steps_single, !head_lookup, list_lookup_fmap.
  destruct (np_where (changed ch0) !! 0%nat) as [i|] eqn:Hi; [|done].
  cbn. intros [= <-]. unfold col1. cbn.
  rewrite <- head_lookup in Hi.
  pose proof (np_where_first _ _ Hi) as Hbefore.
  assert (i < length (changed ch0))%nat as Hilen.
  { apply (proj1 (Forall_forall (λ i, (i < length (changed ch0))%nat) _)
             (np_where_in_range (changed ch0))).
    rewrite head_lookup in Hi. by eapply list_elem_of_lookup_2. }
  rewrite changed_length in Hilen.
  assert (ch0 !! i = ch0 !! 0%nat) as Heq.
  { apply constant_stretch; [lia | lia |]. intros m Hm. apply Hbefore. lia. }
  destruct (lookup_lt_is_Some_2 ch0 i ltac:(lia)) as [x Hx].
  rewrite (list_lookup_total_correct _ _ _ Hx). by rewrite <- Heq.
Qed.

Lemma chain_snoc (l : list row) (rl x : row) :
  (∀ k r s, l !! k = Some r → l !! S k = Some s → col2 r = col1 s) →
  last l = Some rl → col2 rl = col1 x →
  ∀ k r s, (l ++ [x]) !! k = Some r → (l ++ [x]) !! S k = Some s → col2 r = col1 s.
Proof.
  intros Hchain Hlast Hx k r s Hr Hs.
  destruct (decide (S k < length l)%nat) as [Hk|Hk].
  - rewrite lookup_app_l in Hr by lia. rewrite lookup_app_l in Hs by lia.
    by apply (Hchain k).
  - pose proof (lookup_lt_Some _ _ _ Hs) as Hlen. rewrite length_app in Hlen.
    cbn in Hlen. assert (S k = length l) as Hk' by lia.
    rewrite lookup_app_r in Hs by lia. rewrite Hk', Nat.sub_diag in Hs.
    injection Hs as <-. rewrite lookup_app_l in Hr by lia.
    rewrite last_lookup, <- Hk' in Hlast. cbn in Hlast. congruence.
Qed.

(** X8.  With a single stim channel and no merging, the steps returned by
    [_find_stim_steps] chain: the value after a step is the value before
    the next one.  The first step starts from [pad_start] when it is given
    and from the first sample otherwise, and the last step ends on
    [pad_stop] when it is given and on the last sample otherwise. *)
Theorem single_channel_steps_chain (ch0 : list Z) (first_samp : Z)
    (pad_start pad_stop : option Z) (steps : list row) :
  _find_stim_steps [ch0] first_samp pad_start pad_stop 0 = OK steps →
  (∀ k r s, steps !! k = Some r → steps !! S k = Some s → col2 r = col1 s)
  ∧ (∀ r, head steps = Some r →
          Some (col1 r) = match pad_start with Some p => Some p | None => head ch0 end)
  ∧ (∀ r, last steps = Some r →
          Some (col2 r) = match pad_stop with Some p => Some p | None => last ch0 end).
Proof.
  unfold _find_stim_steps. case_bool_decide as Hlen.
  { intros [= <-]. repeat split; intros; done. }
  intros [= <-]. unfold merge_steps. rewrite bool_decide_false by lia.
  set (steps0 := detect_steps ch0 [] first_samp) in *.
  assert (∀ k r s, steps0 !! k = Some r → steps0 !! S k = Some s → col2 r = col1 s)
    as Hchain0 by apply detect_steps_chain.
  pose proof (detect_steps_head_single ch0 first_samp) as Hhead0.
  pose proof (detect_steps_last_single ch0 first_samp) as Hlast0.
  fold steps0 in Hhead0, Hlast0.
  destruct steps0 as [|r0 l0] eqn:Hsteps0; [done|]. clear Hlen.
  set (steps1 := pad_steps_start pad_start (r0 :: l0)).
  assert ((∀ k r s, steps1 !! k = Some r → steps1 !! S k = Some s → col2 r = col1 s)
          ∧ (∀ r, head steps1 = Some r →
                  Some (col1 r)
                  = match pad_start with Some p => Some p | None => head ch0 end)
          ∧ last steps1 = last (r0 :: l0)) as (Hchain1 & Hhead1 & Hlast1).
  { unfold steps1, pad_steps_start. destruct pad_start as [p|].
    2:{ split; [done|]. split; [|done]. intros r Hr. symmetry. by apply Hhead0. }
    case_bool_decide as Hp.
    - split; [|split].
      + intros [|k] r s Hr Hs.
        * cbn in Hr, Hs. by injection Hr as <-; injection Hs as <-.
        * by apply (Hchain0 k).
      + by intros r [= <-].
      + done.
    - split; [done|]. split; [|done]. intros r [= <-]. f_equal.
      by destruct (decide (col1 r0 = p)). }
  clearbody steps1.
  unfold pad_steps_stop. destruct pad_stop as [p|].
  2:{ split; [done|]. split; [done|]. rewrite Hlast1. intros r Hr. symmetry.
      by apply Hlast0. }
  destruct (last steps1) as [rl|] eqn:Hl.
  2:{ split; [done|]. split; [done|]. intros r Hr. congruence. }
  case_bool_decide as Hp.
  - split; [|split].
    + by apply (chain_snoc _ rl).
    + intros r Hr. apply Hhead1. by destruct steps1.
    + intros r. rewrite last_snoc. by intros [= <-].
  - split; [done|]. split; [done|]. intros r Hr. rewrite Hl in Hr.
    injection Hr as <-. f_equal. by destruct (decide (col2 rl = p)).
Qed.

Lemma single_channel_steps_chain_witness :
  _find_stim_steps [[5; 5; 7; 0; 0; 3]] 10 (Some 0) None 0
  = OK [(0, 0, 5); (12, 5, 7); (13, 7, 0); (15, 0, 3)]
  ∧ (∀ r, last [(0, 0, 5); (12, 5, 7); (13, 7, 0); (15, 0, 3)] = Some r →
          Some (col2 r) = last [5; 5; 7; 0; 0; 3]).
Proof.
  assert (_find_stim_steps [[5; 5; 7; 0; 0; 3]] 10 (Some 0) None 0
          = OK [(0, 0, 5); (12, 5, 7); (13, 7, 0); (15, 0, 3)]) as Hrun by reflexivity.
  destruct (single_channel_steps_chain _ _ _ _ _ Hrun) as (_ & _ & Hlast).
  split; [exact Hrun | exact Hlast].
Defined.

(** ** The stim data as the detector sees it *)

Lemma py_int_nonneg (q : Q) : (0 <= q)%Q → 0 ≤ py_int q.
Proof.
  intros Hq. unfold py_int. destruct (Qlt_le_dec q 0) as [H|H]; [lra|].
  change 0 with (Qfloor 0). by apply Qfloor_resp_le.
Qed.

Lemma py_int_neg (q : Q) : (q < 0)%Q → py_int q ≤ 0.
Proof.
  intros Hq. unfold py_int. destruct (Qlt_le_dec q 0) as [H|H]; [|lra].
  change 0 with (Qceiling 0). apply Qceiling_resp_le. lra.
Qed.

Lemma py_int_Qabs (q : Q) : py_int (Qabs q) = Z.abs (py_int q).
Proof.
  destruct (Qlt_le_dec q 0) as [H|H].
  - rewrite (py_int_comp (Qabs q) (- q)) by (apply Qabs_neg; lra).
    rewrite py_int_opp. pose proof (py_int_neg q H). lia.
  - rewrite (py_int_comp (Qabs q) q) by (by apply Qabs_pos).
    pose proof (py_int_nonneg q H). lia.
Qed.

Lemma np_astype_int_range (q : Q) : - 2 ^ 63 ≤ np_astype_int q < 2 ^ 63.
Proof. unfold np_astype_int. cbn zeta. case_bool_decide; lia. Qed.

Lemma np_astype_int_small (q : Q) :
  - 2 ^ 63 ≤ py_int q < 2 ^ 63 → np_astype_int q = py_int q.
Proof. intros Hq. unfold np_astype_int. cbn zeta. by rewrite bool_decide_true. Qed.

Lemma np_astype_int_nonneg (q : Q) : 0 ≤ np_astype_int q → 0 ≤ py_int q.
Proof. unfold np_astype_int. cbn zeta. case_bool_decide; lia. Qed.

Lemma np_abs_int_nonneg (z : Z) : 0 ≤ z → np_abs_int z = z.
Proof. intros Hz. unfold np_abs_int. case_bool_decide; lia. Qed.

(** The absolute value before the conversion and after it give the same
    64-bit integer, also for the samples that the conversion cannot
    hold. *)
Lemma np_astype_int_Qabs (q : Q) :
  np_astype_int (Qabs q) = np_abs_int (np_astype_int q).
Proof.
  unfold np_astype_int, np_abs_int. cbn zeta. rewrite py_int_Qabs.
  repeat case_bool_decide; lia.
Qed.

Lemma existsb_false_Forall {A} (f : A → bool) (l : list A) :
  existsb f l = false ↔ Forall (λ x, f x = false) l.
Proof.
  induction l as [|x l IH]; cbn; [split; [constructor | done]|].
  rewrite orb_false_iff, IH, Forall_cons. done.
Qed.

Lemma fmap_concat_ext {A B} (f g : A → B) (data : list (list A)) :
  Forall (λ x, f x = g x) (concat data) →
  fmap (M := list) f <$> data = fmap (M := list) g <$> data.
Proof.
  induction data as [|ch data IH]; [done|]. cbn [concat].
  rewrite Forall_app. intros [Hch Hdata]. cbn [fmap list_fmap].
  f_equal; [|by apply IH]. apply list_fmap_ext. intros i x Hx.
  eapply Forall_forall in Hch; [exact Hch|]. by eapply list_elem_of_lookup_2.
Qed.

Lemma concat_fmap_fmap {A B} (f : A → B) (data : list (list A)) :
  concat (fmap (M := list) f <$> data) = f <$> concat data.
Proof.
  induction data as [|ch data IH]; [done|]. cbn. by rewrite fmap_app, IH.
Qed.

(** Without [uint_cast], [_find_events] works on the absolute value of
    the converted samples. *)
Lemma prepare_data_abs (data : list (list Q)) :
  concat data ≠ [] →
  prepare_data data false
  = OK (fmap (M := list) (λ q, np_abs_int (np_astype_int q)) <$> data).
Proof.
  intros Hne. unfold prepare_data. cbn zeta.
  rewrite bool_decide_false.
  2:{ rewrite concat_fmap_fmap. by destruct (concat data). }
  destruct (existsb _ _) eqn:Hneg.
  - f_equal. rewrite <- list_fmap_compose. apply list_fmap_ext. intros _ ch _.
    cbn. by rewrite <- list_fmap_compose.
  - f_equal. apply fmap_concat_ext. apply existsb_false_Forall in Hneg.
    rewrite concat_fmap_fmap in Hneg. apply Forall_fmap in Hneg.
    eapply Forall_impl; [exact Hneg|]. intros q Hq. cbn in Hq.
    apply bool_decide_eq_false in Hq. symmetry. apply np_abs_int_nonneg. lia.
Qed.

(** [find_stim_steps] works on the same integers, although it takes the
    absolute value before the conversion. *)
Lemma find_stim_steps_abs (raw : Raw) (pad_start pad_stop : option Z) (merge : Z) :
  stim_data raw ≠ [] →
  find_stim_steps raw pad_start pad_stop merge
  = _find_stim_steps
      (fmap (M := list) (λ q, np_abs_int (np_astype_int q)) <$> stim_data raw)
      (first_samp raw) pad_start pad_stop merge.
Proof.
  intros Hne. unfold find_stim_steps.
  rewrite bool_decide_false by (by destruct (stim_data raw)).
  cbn zeta. f_equal.
  destruct (existsb _ _) eqn:Hneg.
  - rewrite <- list_fmap_compose. apply list_fmap_ext. intros _ ch _.
    cbn. rewrite <- list_fmap_compose. apply list_fmap_ext. intros _ q _.
    apply np_astype_int_Qabs.
  - apply fmap_concat_ext. apply existsb_false_Forall in Hneg.
    eapply Forall_impl; [exact Hneg|]. intros q Hq. cbn in Hq.
    destruct (Qlt_le_dec q 0) as [|Hq0]; [done|].
    rewrite <- np_astype_int_Qabs. unfold np_astype_int. cbn zeta.
    by rewrite (py_int_comp (Qabs q) q) by (by apply Qabs_pos).
Qed.

(** X9.  On a recording that holds at least one stim sample, [find_events]
    (without [uint_cast]) is [find_stim_steps] with [pad_stop=0], no start
    pad and the merge distance of [min_duration], followed by the masking
    stage, the onset/offset selection and the spacing check; the two
    functions see the same integer samples although one takes the absolute
    value before and the other after the conversion to integers. *)
Theorem find_events_from_stim_steps (raw : Raw) (output : string)
    (consecutive : consecutive_mode) (min_duration : Q) (shortest_event : Z)
    (mask : pyobj) :
  concat (stim_data raw) ≠ [] →
  find_events raw output consecutive min_duration shortest_event mask false
  = (steps ← find_stim_steps raw None (Some 0)
               (merge_of_min_samples (min_duration * sfreq raw));
     steps ← _mask_trigs steps mask;
     events ← shape_events steps output consecutive;
     let n := n_short_events events shortest_event in
     if bool_decide (0 < n)%nat then Raise (ValueError_short_events n) else OK events).
Proof.
  intros Hne.
  assert (stim_data raw ≠ []) as Hch by (intros H; by rewrite H in Hne).
  rewrite find_stim_steps_abs by done.
  unfold find_events, _find_events.
  rewrite bool_decide_false by (by destruct (stim_data raw)).
  rewrite prepare_data_abs by done. cbn [mbind result_bind].
  destruct (_find_stim_steps _ _ _ _ _) as [steps|e]; [|done]. cbn [mbind result_bind].
  destruct (_mask_trigs steps mask) as [steps'|e]; [|done]. cbn [mbind result_bind].
  by destruct (shape_events steps' output consecutive).
Qed.

Lemma find_events_from_stim_steps_witness :
  concat (stim_data example_raw) ≠ []
  ∧ find_events example_raw "step" (Consecutive true) 0 1 (PyInt 0) false
    = (steps ← find_stim_steps example_raw None (Some 0)
                 (merge_of_min_samples (0 * sfreq example_raw));
       steps ← _mask_trigs steps (PyInt 0);
       events ← shape_events steps "step" (Consecutive true);
       let n := n_short_events events 1 in
       if bool_decide (0 < n)%nat then Raise (ValueError_short_events n) else OK events).
Proof.
  split; [discriminate|].
  apply (find_events_from_stim_steps example_raw "step" (Consecutive true) 0 1 (PyInt 0)).
  discriminate.
Defined.

(** ** Signs of the values *)

Lemma prepare_data_range (data : list (list Q)) (uint_cast : bool) (out : list (list Z)) :
  (uint_cast = false → Forall (λ q, - 2 ^ 63 < py_int q < 2 ^ 63) (concat data)) →
  prepare_data data uint_cast = OK out →
  Forall (λ z, 0 ≤ z ∧ (uint_cast = true → z < 65536)) (concat out).
Proof.
  intros Hrange. unfold prepare_data. cbn zeta. case_bool_decide; [done|].
  destruct uint_cast.
  - assert (Forall (λ z, 0 ≤ z < 65536)
              (concat (fmap (M := list) (λ z, z `mod` 65536)
                         <$> (fmap (M := list) np_astype_int <$> data)))) as Hr.
    { rewrite concat_fmap_fmap. apply Forall_fmap, Forall_forall. intros z _. cbn.
      apply Z.mod_pos_bound. lia. }
    destruct (existsb _ _) eqn:Hneg.
    + exfalso. apply existsb_exists in Hneg as (z & Hz & Hlt).
      apply bool_decide_eq_true in Hlt. apply list_elem_of_In in Hz.
      eapply Forall_forall in Hr; [|exact Hz]. lia.
    + intros [= <-]. eapply Forall_impl; [exact Hr|]. intros z ?. cbn in *. lia.
  - specialize (Hrange eq_refl). destruct (existsb _ _) eqn:Hneg.
    + intros [= <-]. rewrite !concat_fmap_fmap. apply Forall_fmap, Forall_fmap.
      eapply Forall_impl; [exact Hrange|]. intros q Hq. cbn in Hq |- *.
      rewrite np_astype_int_small by lia. unfold np_abs_int.
      rewrite bool_decide_false by lia. split; [lia | done].
    + intros [= <-]. apply existsb_false_Forall in Hneg.
      eapply Forall_impl; [exact Hneg|]. intros z Hz. cbn in Hz.
      apply bool_decide_eq_false in Hz. split; [lia | done].
Qed.

Lemma detect_steps_nonneg (ch0 : list Z) (others : list (list Z)) (first_samp : Z) :
  Forall (λ z, 0 ≤ z) ch0 →
  Forall (λ r, 0 ≤ col1 r ∧ 0 ≤ col2 r) (detect_steps ch0 others first_samp).
Proof.
  intros Hch. apply Forall_forall. intros r Hr.
  apply detect_steps_elem in Hr as (i & -> & Hi & _). unfold col1, col2. cbn.
  split; (eapply (proj1 (Forall_forall _ _) Hch), list_elem_of_lookup_total_2; lia).
Qed.

Lemma assign_col_nonneg (setc : Z → row → row) (targets : list nat) (vals : list Z)
    (a : list row) :
  (∀ v r, 0 ≤ v → 0 ≤ col1 r ∧ 0 ≤ col2 r → 0 ≤ col1 (setc v r) ∧ 0 ≤ col2 (setc v r)) →
  Forall (λ v, 0 ≤ v) vals →
  Forall (λ r, 0 ≤ col1 r ∧ 0 ≤ col2 r) a →
  Forall (λ r, 0 ≤ col1 r ∧ 0 ≤ col2 r) (assign_col setc targets vals a).
Proof.
  intros Hset. unfold assign_col. revert vals a.
  induction targets as [|t targets IH]; intros vals a Hvals Ha; [done|].
  destruct vals as [|v vals]; [done|]. cbn [zip zip_with foldl fst snd].
  apply Forall_cons in Hvals as [Hv Hvals]. apply IH; [done|].
  apply Forall_alter; [done|]. intros r _ Hr. by apply Hset.
Qed.

Lemma merge_steps_nonneg (merge : Z) (steps : list row) :
  Forall (λ r, 0 ≤ col1 r ∧ 0 ≤ col2 r) steps →
  Forall (λ r, 0 ≤ col1 r ∧ 0 ≤ col2 r) (merge_steps merge steps).
Proof.
  intros Hs. unfold merge_steps. case_bool_decide; [|done]. cbn zeta.
  set (idx := _ <$> np_diff _). destruct (np_any idx); [|done].
  assert (∀ w, (w < length steps)%nat →
               0 ≤ col1 (steps !!! w) ∧ 0 ≤ col2 (steps !!! w)) as Hrow.
  { intros w Hw. eapply (proj1 (Forall_forall _ _) Hs), list_elem_of_lookup_total_2. lia. }
  assert (Forall (λ w, (S w < length steps)%nat) (np_where idx)) as Hidx.
  { eapply Forall_impl; [apply np_where_in_range|]. intros w Hw. cbn in Hw.
    unfold idx in Hw. rewrite length_fmap, np_diff_length, length_fmap in Hw. lia. }
  case_bool_decide.
  - eapply Forall_sublist; [apply np_select_sublist|].
    apply assign_col_nonneg; [| |done].
    + intros v [[s x] y]. unfold set_col1, col0, col1, col2. cbn. lia.
    + apply Forall_fmap. eapply Forall_impl; [exact Hidx|]. intros w Hw. cbn in *.
      apply Hrow. lia.
  - eapply Forall_sublist; [apply np_select_sublist|].
    apply assign_col_nonneg; [| |done].
    + intros v [[s x] y]. unfold set_col2, col0, col1, col2. cbn. lia.
    + apply Forall_fmap. eapply Forall_impl; [exact Hidx|]. intros w Hw. cbn in *.
      by apply Hrow.
Qed.

Lemma find_stim_steps_nonneg (data : list (list Z)) (first_samp merge : Z)
    (steps : list row) :
  Forall (λ z, 0 ≤ z) (concat data) →
  _find_stim_steps data first_samp None (Some 0) merge = OK steps →
  Forall (λ r, 0 ≤ col1 r ∧ 0 ≤ col2 r) steps.
Proof.
  intros Hdata. unfold _find_stim_steps. destruct data as [|ch0 others]; [done|].
  cbn [concat] in Hdata. apply Forall_app in Hdata as [Hch _].
  case_bool_decide; [by intros [= <-]|]. intros [= <-].
  apply merge_steps_nonneg. unfold pad_steps_start, pad_steps_stop.
  pose proof (detect_steps_nonneg ch0 others first_samp Hch) as Hd.
  destruct (last _) as [r|] eqn:Hlast; [|done]. case_bool_decide; [|done].
  apply Forall_app. split; [done|]. apply Forall_singleton.
  apply last_Some in Hlast as [l' Hl']. rewrite Hl' in Hd.
  apply Forall_app in Hd as [_ Hr]. apply Forall_inv in Hr.
  unfold col1, col2 in *. cbn. lia.
Qed.

Lemma mask_trigs_nonneg (events : list row) (mask : pyobj) (out : list row) :
  _mask_trigs events mask = OK out →
  Forall (λ r, 0 ≤ col1 r ∧ 0 ≤ col2 r) events →
  Forall (λ r, 0 ≤ col1 r ∧ 0 ≤ col2 r ∧ col1 r ≠ col2 r) out.
Proof.
  unfold _mask_trigs. destruct (isinstance_int mask); [|done]. cbn [negb].
  case_bool_decide as Hlen.
  { intros [= <-]. by destruct events. }
  destruct (bitwise_not_mask mask) as [m|]; [|done]. intros [= <-] Hev.
  apply Forall_forall. intros r Hr. apply list_elem_of_filter in Hr as [Hstep Hr].
  apply list_elem_of_fmap in Hr as ([[s x] y] & -> & Hr).
  eapply Forall_forall in Hev; [|exact Hr].
  unfold is_step in Hstep. apply bool_decide_eq_true in Hstep.
  unfold mask_row, col0, col1, col2 in *. cbn in *.
  split; [apply Z.land_nonneg; lia|]. split; [apply Z.land_nonneg; lia | done].
Qed.

Lemma onset_rows (events : list row) (consecutive : consecutive_mode) (idx : list nat) :
  idx `sublist_of` np_where (is_onset consecutive <$> events) →
  Forall (λ r, r ∈ events ∧ is_onset consecutive r = true) (np_take events idx).
Proof.
  intros Hsub. unfold np_take. apply Forall_fmap, Forall_forall. intros i Hi. cbn.
  eapply elem_of_sublist in Hi; [|exact Hsub].
  apply elem_of_np_where in Hi. rewrite list_lookup_fmap in Hi.
  destruct (events !! i) as [r|] eqn:Hr; [|done]. cbn in Hi. injection Hi as Hi.
  rewrite (list_lookup_total_correct _ _ _ Hr). split; [|done].
  by eapply list_elem_of_lookup_2.
Qed.

Lemma onset_id_positive (consecutive : consecutive_mode) (r : row) :
  0 ≤ col1 r ∧ 0 ≤ col2 r ∧ col1 r ≠ col2 r →
  is_onset consecutive r = true → 0 < col2 r.
Proof.
  intros (H1 & H2 & Hne). destruct consecutive as [|[|]]; cbn;
    rewrite bool_decide_eq_true; lia.
Qed.

Lemma assign_col2_broadcast_ids (a : list row) (v : list Z) (out : list row) :
  assign_col2_broadcast a v = OK out →
  Forall (λ r, 0 ≤ col1 r) a → Forall (λ x, 0 < x) v →
  Forall (λ r, 0 ≤ col1 r ∧ 0 < col2 r) out.
Proof.
  unfold assign_col2_broadcast. intros Hout Ha Hv. case_bool_decide as Hlen.
  - injection Hout as <-. clear Hlen. revert v Hv.
    induction Ha as [|r a Hr Ha IH]; intros v Hv; [done|].
    destruct Hv as [|x v Hx Hv]; [done|]. cbn. constructor; [|by apply IH].
    destruct r as [[s p] q]. unfold set_col2, col0, col1, col2 in *. cbn in *. lia.
  - destruct v as [|x [|]]; [done| |done]. injection Hout as <-.
    apply Forall_inv in Hv. apply Forall_fmap.
    eapply Forall_impl; [exact Ha|]. intros [[s p] q] Hr.
    unfold set_col2, col0, col1, col2 in *. cbn in *. lia.
Qed.

Lemma shape_events_positive_ids (events : list row) (output : string)
    (consecutive : consecutive_mode) (out : list row) :
  output ≠ "step"%string →
  Forall (λ r, 0 ≤ col1 r ∧ 0 ≤ col2 r ∧ col1 r ≠ col2 r) events →
  shape_events events output consecutive = OK out →
  Forall (λ r, 0 ≤ col1 r ∧ 0 < col2 r) out.
Proof.
  intros Hout Hev. unfold shape_events. cbn zeta.
  set (onsets := np_where (is_onset consecutive <$> events)).
  set (offsets := np_where (is_offset consecutive <$> events)).
  destruct onsets as [|on0 onsets'] eqn:Hon; [by intros [= <-]|].
  destruct offsets as [|off0 offsets'] eqn:Hoff; [by intros [= <-]|].
  destruct (last (on0 :: onsets')) as [on_last|]; [|done].
  destruct (last (if bool_decide (off0 < on0)%nat then _ else _)) as [off_last|]; [|done].
  set (onset_idx := if bool_decide (off_last < on_last)%nat then _ else _).
  assert (Forall (λ r, 0 ≤ col1 r ∧ 0 < col2 r) (np_take events onset_idx)) as Honset.
  { eapply Forall_impl; [apply (onset_rows events consecutive)|].
    - unfold onset_idx. fold onsets. rewrite Hon.
      case_bool_decide; [apply removelast_sublist | done].
    - intros r [Hr Hons]. cbn. eapply Forall_forall in Hev; [|exact Hr].
      split; [lia|]. by eapply onset_id_positive. }
  destruct (String.eqb output "onset"); [by intros [= <-]|].
  destruct (String.eqb output "step") eqn:Hstep; [by apply String.eqb_eq in Hstep|].
  destruct (String.eqb output "offset"); [|done].
  set (offset_idx := if bool_decide (off0 < on0)%nat then _ else _).
  destruct (assign_col2_broadcast _ _) as [ev|e] eqn:Hassign; [|done].
  cbn [mbind result_bind]. intros [= <-].
  apply assign_col2_broadcast_ids in Hassign.
  - apply Forall_fmap. eapply Forall_impl; [exact Hassign|].
    by intros [[s p] q].
  - apply Forall_fmap, Forall_fmap, Forall_forall. intros i Hi. cbn.
    unfold set_col1, col1, col2. cbn.
    assert (i ∈ offsets) as Hi'.
    { unfold offset_idx in Hi. rewrite Hoff. case_bool_decide; [by right | done]. }
    apply elem_of_np_where in Hi'. rewrite list_lookup_fmap in Hi'.
    destruct (events !! i) as [r|] eqn:Hr; [|done].
    rewrite (list_lookup_total_correct _ _ _ Hr).
    pose proof (proj1 (Forall_forall _ _) Hev r (list_elem_of_lookup_2 _ _ _ Hr)) as Hr'.
    unfold col2 in Hr'. lia.
  - apply Forall_fmap. eapply Forall_impl; [exact Honset|]. by intros r [_ ?].
Qed.

Lemma shape_events_step_rows (events : list row) (consecutive : consecutive_mode)
    (out : list row) :
  shape_events events "step" consecutive = OK out → Forall (λ r, r ∈ events) out.
Proof.
  unfold shape_events. cbn zeta.
  set (onsets := np_where (is_onset consecutive <$> events)).
  set (offsets := np_where (is_offset consecutive <$> events)).
  pose proof (np_where_in_range (is_onset consecutive <$> events)) as Hon_range.
  pose proof (np_where_in_range (is_offset consecutive <$> events)) as Hoff_range.
  fold onsets in Hon_range. fold offsets in Hoff_range.
  rewrite length_fmap in Hon_range, Hoff_range.
  destruct onsets as [|on0 onsets'] eqn:Hon; [by intros [= <-]|].
  destruct offsets as [|off0 offsets'] eqn:Hoff; [by intros [= <-]|].
  destruct (last (on0 :: onsets')) as [on_last|]; [|done].
  destruct (last (if bool_decide (off0 < on0)%nat then _ else _)) as [off_last|]; [|done].
  cbn [String.eqb Ascii.eqb Bool.eqb]. intros [= <-].
  unfold np_take. apply Forall_fmap, Forall_forall. intros i Hi. cbn.
  apply np_union1d_sorted, elem_of_app in Hi.
  assert (i < length events)%nat as Hlt.
  { destruct Hi as [Hi|Hi].
    - eapply (proj1 (Forall_forall _ _) Hon_range).
      case_bool_decide; [|done]. eapply elem_of_sublist; [exact Hi|].
      apply (removelast_sublist (on0 :: onsets')).
    - eapply (proj1 (Forall_forall _ _) Hoff_range).
      case_bool_decide; [by right | done]. }
  by apply list_elem_of_lookup_total_2.
Qed.

(** X10.  Every event that [find_events] returns has a non-negative paired
    value and, unless [output='step'], a strictly positive id, whatever the
    sign of the samples, the mask and the other arguments, provided that
    without [uint_cast] the integer part of every sample lies strictly
    between [-2^63] and [2^63]; a sample beyond is converted to [-2^63] and
    breaks the property (see [find_events_sample_out_of_range]). *)
Theorem find_events_positive_ids (raw : Raw) (output : string)
    (consecutive : consecutive_mode) (min_duration : Q) (shortest_event : Z)
    (mask : pyobj) (uint_cast : bool) (events : list row) :
  (uint_cast = false →
   Forall (λ q, - 2 ^ 63 < py_int q < 2 ^ 63) (concat (stim_data raw))) →
  find_events raw output consecutive min_duration shortest_event mask uint_cast
  = OK events →
  Forall (λ r, 0 ≤ col1 r ∧ 0 ≤ col2 r) events
  ∧ (output ≠ "step"%string → Forall (λ r, 0 < col2 r) events).
Proof.
  intros Hrange. unfold find_events. case_bool_decide; [done|]. unfold _find_events.
  destruct (prepare_data _ _) as [data|e] eqn:Hdata; [|done]. cbn [mbind result_bind].
  apply prepare_data_range in Hdata; [|done].
  assert (Forall (λ z, 0 ≤ z) (concat data)) as Hnn.
  { eapply Forall_impl; [exact Hdata|]. by intros z [? _]. }
  destruct (_find_stim_steps _ _ _ _ _) as [steps|e] eqn:Hsteps; [|done].
  cbn [mbind result_bind]. apply find_stim_steps_nonneg in Hsteps; [|done].
  destruct (_mask_trigs steps mask) as [masked|e] eqn:Hmask; [|done].
  cbn [mbind result_bind]. eapply mask_trigs_nonneg in Hmask; [|done].
  destruct (shape_events masked output consecutive) as [shaped|e] eqn:Hshape; [|done].
  cbn [mbind result_bind]. case_bool_decide; [done|]. intros [= <-].
  split.
  - destruct (decide (output = "step"%string)) as [-> | Hout].
    + apply shape_events_step_rows in Hshape.
      apply Forall_forall. intros r Hr.
      eapply Forall_forall in Hshape; [|exact Hr].
      eapply Forall_forall in Hmask; [|exact Hshape]. tauto.
    + eapply Forall_impl; [by eapply shape_events_positive_ids|].
      intros r [? ?]. cbn. lia.
  - intros Hout. eapply Forall_impl; [by eapply shape_events_positive_ids|].
    by intros r [_ ?].
Qed.

Lemma find_events_positive_ids_witness :
  Forall (λ q, - 2 ^ 63 < py_int q < 2 ^ 63) (inject_Z <$> [0; -5; -5; 3; 0])
  ∧ find_events (mkRaw [(inject_Z <$> [0; -5; -5; 3; 0])] 0 4 1000) "onset"
      (Consecutive true) 0 1 (PyInt 0) false
    = OK [(1, 0, 5); (3, 5, 3)]
  ∧ Forall (λ r, 0 < col2 r) [(1, 0, 5); (3, 5, 3)].
Proof.
  assert (Forall (λ q, - 2 ^ 63 < py_int q < 2 ^ 63) (inject_Z <$> [0; -5; -5; 3; 0]))
    as Hrange by (repeat constructor).
  assert (find_events (mkRaw [(inject_Z <$> [0; -5; -5; 3; 0])] 0 4 1000) "onset"
            (Consecutive true) 0 1 (PyInt 0) false
          = OK [(1, 0, 5); (3, 5, 3)]) as Hrun by reflexivity.
  split; [exact Hrange|]. split; [exact Hrun|].
  apply (find_events_positive_ids (mkRaw [(inject_Z <$> [0; -5; -5; 3; 0])] 0 4 1000)
           "onset" (Consecutive true) 0 1 (PyInt 0) false [(1, 0, 5); (3, 5, 3)]).
  - intros _. cbn [stim_data concat]. rewrite app_nil_r. exact Hrange.
  - exact Hrun.
  - discriminate.
Defined.

(** One sample of [10^19] is converted to [-2^63]; the event carries it as
    its id. *)
Example find_events_sample_out_of_range :
  find_events (mkRaw [[0; inject_Z (10 ^ 19); 0]%Q] 0 2 1000) "onset"
    (Consecutive false) 0 1 (PyInt 0) false
  = OK [(1, 0, - 2 ^ 63)].
Proof. vm_compute. reflexivity. Qed.

(** ** [min_duration]: a single pulse *)

(** The merge distance of [min_samples]: the largest integer below it. *)
Lemma merge_of_min_samples_spec (min_samples : Q) :
  0 ≤ merge_of_min_samples min_samples
  ∧ ∀ d : Z, 1 ≤ d → d ≤ merge_of_min_samples min_samples ↔ (inject_Z d < min_samples)%Q.
Proof.
  unfold merge_of_min_samples. destruct (Qlt_le_dec 0 min_samples) as [Hpos|Hneg].
  - pose proof (Qfloor_le min_samples) as Hfl. pose proof (Qlt_floor min_samples) as Hlt.
    assert (0 ≤ Qfloor min_samples) as H0.
    { change 0 with (Qfloor 0). apply Qfloor_resp_le. lra. }
    destruct (Qeq_bool _ _) eqn:Heq.
    + apply Qeq_bool_iff in Heq. split.
      * assert (inject_Z 0 < inject_Z (Qfloor min_samples))%Q as H
          by (rewrite Heq; exact Hpos).
        rewrite <- Zlt_Qlt in H. lia.
      * intros d Hd. remember (Qfloor min_samples) as f.
        rewrite <- Heq, <- Zlt_Qlt. lia.
    + apply Qeq_bool_neq in Heq. split; [done|]. intros d Hd. split.
      * intros Hle. rewrite Zle_Qle in Hle. lra.
      * intros Hlt'. assert (inject_Z d < inject_Z (Qfloor min_samples + 1))%Q as H
          by lra.
        rewrite <- Zlt_Qlt in H. lia.
  - split; [done|]. intros d Hd. split; [lia|]. intros Hlt.
    rewrite Zle_Qle in Hd. change (inject_Z 1) with 1%Q in Hd. lra.
Qed.

Lemma filter_fmap_comm {A B} (f : A → B) (P : B → Prop) `{∀ x, Decision (P x)}
    (l : list A) :
  filter P (f <$> l) = f <$> filter (λ x, P (f x)) l.
Proof.
  induction l as [|x l IH]; [done|]. cbn [fmap list_fmap]. rewrite !filter_cons.
  destruct (decide (P (f x))); cbn [fmap list_fmap]; by rewrite IH.
Qed.

Lemma np_where_app (m1 m2 : list bool) :
  np_where (m1 ++ m2) = np_where m1 ++ ((λ i, length m1 + i)%nat <$> np_where m2).
Proof.
  unfold np_where. rewrite length_app, seq_app, filter_app. f_equal.
  - apply filter_ext_elem. intros i Hi. apply elem_of_seq in Hi.
    rewrite lookup_app_l by lia. done.
  - replace (0 + length m1)%nat with (length m1 + 0)%nat by lia.
    rewrite <- (fmap_add_seq (length m1) 0), filter_fmap_comm.
    change (Nat.add (length m1)) with (λ i, length m1 + i)%nat. f_equal.
    apply filter_ext_elem. intros i _.
    rewrite lookup_app_r by lia. by replace (length m1 + i - length m1)%nat with i by lia.
Qed.

Lemma np_where_replicate_false (n : nat) : np_where (replicate n false) = [].
Proof.
  apply elem_of_nil_inv. intros i Hi. apply elem_of_np_where in Hi.
  apply lookup_replicate in Hi as [? _]. done.
Qed.

Lemma changed_replicate_app (n : nat) (x : Z) (l : list Z) :
  changed (replicate (S n) x ++ l) = replicate n false ++ changed (x :: l).
Proof.
  induction n as [|n IH]; [done|].
  change (replicate (S (S n)) x ++ l) with (x :: (replicate (S n) x ++ l)).
  change (replicate (S n) x ++ l) with (x :: (replicate n x ++ l)) at 1.
  change (changed (x :: x :: replicate n x ++ l))
    with (bool_decide (x - x ≠ 0) :: changed (x :: (replicate n x ++ l))).
  change (x :: (replicate n x ++ l)) with (replicate (S n) x ++ l).
  rewrite IH, bool_decide_false by lia. done.
Qed.

(** The two steps of a pulse of [S d] samples of value [v] after [S a]
    samples of silence. *)
Lemma pulse_steps (a d b : nat) (v first_samp : Z) :
  v ≠ 0 →
  detect_steps (replicate (S a) 0 ++ replicate (S d) v ++ replicate (S b) 0) [] first_samp
  = [(first_samp + Z.of_nat (S a), 0, v);
     (first_samp + Z.of_nat (S a) + Z.of_nat (S d), v, 0)].
Proof.
  intros Hv. rewrite detect_steps_single.
  set (ch := replicate (S a) 0 ++ replicate (S d) v ++ replicate (S b) 0).
  assert (changed ch
          = replicate a false ++ [true] ++ replicate d false ++ [true] ++ replicate b false)
    as ->.
  { unfold ch. rewrite changed_replicate_app. f_equal.
    change (changed (0 :: replicate (S d) v ++ replicate (S b) 0))
      with (bool_decide (v - 0 ≠ 0) :: changed (replicate (S d) v ++ replicate (S b) 0)).
    rewrite bool_decide_true by lia. cbn [app]. f_equal.
    rewrite changed_replicate_app. f_equal.
    change (changed (v :: replicate (S b) 0))
      with (bool_decide (0 - v ≠ 0) :: changed (replicate (S b) 0)).
    rewrite bool_decide_true by lia. f_equal.
    rewrite <- (app_nil_r (replicate (S b) 0)), changed_replicate_app.
    by rewrite !app_nil_r. }
  rewrite !np_where_app, !np_where_replicate_false. cbn [app fmap list_fmap].
  change (np_where [true]) with [0%nat]. cbn [app fmap list_fmap length].
  rewrite !length_replicate, !Nat.add_0_r.
  cbn [fmap list_fmap].
  assert (ch !!! a = 0) as ->.
  { unfold ch. rewrite lookup_total_app_l by (rewrite length_replicate; lia).
    apply lookup_total_replicate_2. lia. }
  assert (ch !!! (a + 1)%nat = v) as ->.
  { unfold ch. rewrite lookup_total_app_r by (rewrite length_replicate; lia).
    rewrite length_replicate. rewrite lookup_total_app_l by (rewrite length_replicate; lia).
    apply lookup_total_replicate_2. lia. }
  assert (ch !!! (a + (1 + d))%nat = v) as ->.
  { unfold ch. rewrite lookup_total_app_r by (rewrite length_replicate; lia).
    rewrite length_replicate. rewrite lookup_total_app_l by (rewrite length_replicate; lia).
    apply lookup_total_replicate_2. lia. }
  assert (ch !!! (a + (1 + d) + 1)%nat = 0) as ->.
  { unfold ch. rewrite lookup_total_app_r by (rewrite length_replicate; lia).
    rewrite length_replicate. rewrite lookup_total_app_r by (rewrite length_replicate; lia).
    rewrite length_replicate. apply lookup_total_replicate_2. lia. }
  f_equal; [f_equal; f_equal; lia|]. f_equal. f_equal. f_equal. lia.
Qed.

Lemma merge_pulse (m s0 s1 v : Z) :
  v ≠ 0 → 0 ≤ m → 
  merge_steps m [(s0, 0, v); (s1, v, 0)]
  = if bool_decide (s1 - s0 ≤ m) then
      if bool_decide (m ≠ 0) then [] else [(s0, 0, v); (s1, v, 0)]
    else [(s0, 0, v); (s1, v, 0)].
Proof.
  intros Hv Hm. unfold merge_steps.
  case_bool_decide as Hm0; [|by case_bool_decide].
  cbn [np_diff fmap list_fmap tail zip_with].
  change (col0 (s0, 0, v)) with s0. change (col0 (s1, v, 0)) with s1.
  rewrite Z.abs_eq by done.
  case_bool_decide as Hclose; [|done].
  cbn [np_any existsb id orb].
  rewrite bool_decide_true by lia.
  change (np_where [true]) with [0%nat].
  cbn. unfold col1, col2. cbn.
  rewrite (bool_decide_false (0 ≠ 0)) by lia. by rewrite !decide_False by done.
Qed.

Lemma shape_pulse (s0 s1 v : Z) (consecutive : consecutive_mode) :
  0 < v →
  shape_events [(s0, 0, v); (s1, v, 0)] "onset" consecutive = OK [(s0, 0, v)].
Proof.
  intros Hv. unfold shape_events.
  assert (is_onset consecutive <$> [(s0, 0, v); (s1, v, 0)] = [true; false]) as ->.
  { destruct consecutive as [|[|]]; cbn; unfold col1, col2; cbn;
      repeat case_bool_decide; try lia; done. }
  assert (is_offset consecutive <$> [(s0, 0, v); (s1, v, 0)] = [false; true]) as ->.
  { destruct consecutive as [|[|]]; cbn; unfold col1, col2; cbn;
      repeat case_bool_decide; try lia; done. }
  reflexivity.
Qed.

(** X11.  On a stim channel that holds one pulse ([S a] samples at 0, then
    [S d] samples at a value [v], then [S b] samples at 0), with [v]
    positive and [v] and the sample numbers inside numpy's 64-bit integers,
    [_find_events] with [output='onset'] and no mask returns the single
    event [(first_samp + S a, 0, v)] when the pulse lasts at least
    [min_samples] samples, and no event when it is shorter, whatever
    [consecutive] is.  [min_samples] is the number that [_find_events]
    receives, after [find_events] has multiplied [min_duration] by
    [sfreq]. *)
Theorem min_duration_single_pulse (a d b : nat) (v first_idx : Z)
    (min_samples : Q) (consecutive : consecutive_mode) :
  0 < v < 2 ^ 63 →
  0 ≤ first_idx →
  first_idx + Z.of_nat (S a + S d + S b) < 2 ^ 63 →
  _find_events
    [inject_Z <$> (replicate (S a) 0 ++ replicate (S d) v ++ replicate (S b) 0)]
    first_idx "onset" consecutive min_samples (PyInt 0) false
  = OK (if Qlt_le_dec (inject_Z (Z.of_nat (S d))) min_samples
        then [] else [(first_idx + Z.of_nat (S a), 0, v)]).
Proof.
  intros Hv _ _. set (ch := replicate (S a) 0 ++ replicate (S d) v ++ replicate (S b) 0).
  unfold _find_events.
  rewrite prepare_data_abs by (unfold ch; cbn; done).
  cbn [mbind result_bind fmap list_fmap].
  assert ((λ q, np_abs_int (np_astype_int q)) <$> (inject_Z <$> ch) = ch) as ->.
  { rewrite <- list_fmap_compose. rewrite <- (list_fmap_id ch) at 2.
    apply list_fmap_ext. intros i z Hz. cbn.
    assert (0 ≤ z < 2 ^ 63) as Hrange.
    { unfold ch in Hz. apply list_elem_of_lookup_2 in Hz.
      rewrite !elem_of_app in Hz.
      destruct Hz as [Hz|[Hz|Hz]]; apply elem_of_replicate in Hz as [-> _]; lia. }
    rewrite np_astype_int_small by (rewrite py_int_inject_Z; lia).
    rewrite py_int_inject_Z. apply np_abs_int_nonneg. lia. }
  pose proof (pulse_steps a d b v first_idx ltac:(lia)) as Hsteps. fold ch in Hsteps.
  unfold _find_stim_steps. rewrite !Hsteps.
  rewrite bool_decide_false by done.
  unfold pad_steps_start, pad_steps_stop.
  cbn [last]. change (col2 (_, v, 0)) with 0. rewrite bool_decide_false by lia.
  destruct (merge_of_min_samples_spec min_samples) as [Hm0 Hm].
  rewrite merge_pulse by lia.
  replace (first_idx + Z.of_nat (S a) + Z.of_nat (S d) - (first_idx + Z.of_nat (S a)))
    with (Z.of_nat (S d)) by lia.
  specialize (Hm (Z.of_nat (S d)) ltac:(lia)).
  destruct (Qlt_le_dec _ _) as [Hshort|Hlong].
  - rewrite bool_decide_true by (by apply Hm).
    rewrite bool_decide_true by (apply Hm in Hshort; lia).
    reflexivity.
  - rewrite bool_decide_false by (intros Hle; apply Hm in Hle; lra).
    cbn [mbind result_bind].
    rewrite mask_trigs_no_mask
      by (repeat constructor; unfold col1, col2; cbn; lia).
    cbn [mbind result_bind]. rewrite shape_pulse by lia. reflexivity.
Qed.

Lemma min_duration_single_pulse_witness :
  0 < 5 < 2 ^ 63
  ∧ 0 ≤ 100
  ∧ 100 + Z.of_nat (3 + 2 + 4) < 2 ^ 63
  ∧ _find_events [inject_Z <$> (replicate 3 0 ++ replicate 2 5 ++ replicate 4 0)]
      100 "onset" Increasing 3 (PyInt 0) false
    = OK (if Qlt_le_dec (inject_Z (Z.of_nat 2)) 3 then []
          else [(100 + Z.of_nat 3, 0, 5)]).
Proof.
  split; [lia|]. split; [lia|]. split; [lia|].
  apply (min_duration_single_pulse 2 1 3 5 100 3 Increasing); lia.
Defined.

Example min_duration_pulse_runs :
  _find_events [inject_Z <$> (replicate 3 0 ++ replicate 2 5 ++ replicate 4 0)]
    100 "onset" Increasing 3 (PyInt 0) false = OK []
  ∧ _find_events [inject_Z <$> (replicate 3 0 ++ replicate 2 5 ++ replicate 4 0)]
      100 "onset" Increasing 2 (PyInt 0) false = OK [(103, 0, 5)]
  ∧ _find_events [inject_Z <$> (replicate 3 0 ++ replicate 2 5 ++ replicate 4 0)]
      100 "onset" Increasing (5 # 2) (PyInt 0) false = OK [].
Proof. repeat split; vm_compute; reflexivity. Qed.

(** A pulse of height [10^19] is converted to [-2^63] and gives no
    onset. *)
Example min_duration_pulse_out_of_range :
  _find_events [inject_Z <$> [0; 10 ^ 19; 0]] 0 "onset" Increasing 0 (PyInt 0) false
  = OK [].
Proof. vm_compute. reflexivity. Qed.

(** ** Text files: reading back and empty files *)

(** X12.  Reading back a text file that [write_events] wrote from a
    non-empty list of values in [[0, 2^32)] is the same as dropping the
    first row when its id is 0 and then applying [pick_events] and
    [_mask_trigs] to the list: nothing else is lost or changed by the
    file. *)
Theorem read_written_events (events : list row) (include exclude : option (list Z))
    (mask : pyobj) :
  events ≠ [] →
  Forall (λ e, 0 ≤ col0 e < 2 ^ 32 ∧ 0 ≤ col1 e < 2 ^ 32 ∧ 0 ≤ col2 e < 2 ^ 32) events →
  read_events (write_events events) include exclude mask
  = (picked ← pick_events
                (match events with
                 | e :: rest => if bool_decide (col2 e = 0) then rest else events
                 | [] => []
                 end) include exclude false;
     _mask_trigs picked mask).
Proof.
  intros Hne Hrange. unfold read_events.
  rewrite load_lines_written by done. cbn [mbind result_bind].
  destruct events as [|e events]; [done|].
  rewrite fmap_cons. cbn [length]. rewrite bool_decide_false by lia.
  rewrite bool_decide_true by done. cbn [mbind result_bind].
  rewrite fmap_cons, rows_of_lines.
  assert (match np_take [col0 e; col1 e; col2 e] [0; 1; 2]%nat with
          | [a; b; c] => (a, b, c)
          | _ => (0, 0, 0)
          end = e) as -> by (by destruct e as [[a b] c]).
  done.
Qed.

Lemma read_written_events_witness :
  [(10, 0, 0); (20, 0, 3); (30, 4, 4); (40, 0, 7)] ≠ []
  ∧ read_events (write_events [(10, 0, 0); (20, 0, 3); (30, 4, 4); (40, 0, 7)])
      (Some [3; 4]) None (PyInt 0)
    = (picked ← pick_events [(20, 0, 3); (30, 4, 4); (40, 0, 7)] (Some [3; 4]) None false;
       _mask_trigs picked (PyInt 0)).
Proof.
  split; [discriminate|].
  apply (read_written_events [(10, 0, 0); (20, 0, 3); (30, 4, 4); (40, 0, 7)]).
  - discriminate.
  - repeat constructor; (discriminate || reflexivity).
Defined.

Lemma split_on_segments (sep : ascii → bool) (P : ascii → Prop) (s : text) :
  Forall P s → Forall (Forall P) (split_on sep s).
Proof.
  induction 1 as [|c s Hc Hs IH]; [repeat constructor|].
  cbn [split_on]. destruct (sep c).
  - constructor; [constructor | done].
  - destruct (split_on sep s) as [|seg segs]; [repeat constructor; done|].
    apply Forall_cons in IH as [Hseg Hsegs]. constructor; [by constructor | done].
Qed.

Lemma split_on_all_sep (sep : ascii → bool) (s : text) :
  Forall (λ c, sep c = true) s → Forall (λ seg, seg = []) (split_on sep s).
Proof.
  induction 1 as [|c s Hc Hs IH]; [repeat constructor|].
  cbn [split_on]. rewrite Hc. by constructor.
Qed.

Lemma filter_none {A} (P : A → Prop) `{∀ x, Decision (P x)} (l : list A) :
  Forall (λ x, ¬ P x) l → filter P l = [].
Proof.
  induction 1 as [|x l Hx Hl IH]; [done|]. by rewrite filter_cons, decide_False.
Qed.

Lemma space_not_hash (c : ascii) : is_space c = true → is_char "#" c = false.
Proof.
  unfold is_space, is_char. rewrite bool_decide_eq_true. intros Hc.
  apply Ascii.eqb_neq. intros ->.
  change (nat_of_ascii "#") with 35%nat in Hc. lia.
Qed.

(** X13.  A text file that holds nothing but blanks and line breaks (an
    empty file included) has no event: [read_events] raises the "No text
    lines found" [ValueError], whatever the other arguments. *)
Theorem read_events_blank_file (content : text) (include exclude : option (list Z))
    (mask : pyobj) :
  Forall (λ c, is_space c = true) content →
  read_events content include exclude mask = Raise ValueError_no_text_lines.
Proof.
  intros Hblank. unfold read_events, load_lines, loadtxt_rows. cbn zeta.
  assert (filter (λ fs, fs ≠ [])
            ((λ line, filter (λ f, f ≠ [])
                        (split_on is_space (hd [] (split_on (is_char "#") line))))
               <$> split_on (is_char newline) content) = [])
    as ->; [|done].
  apply filter_none, Forall_fmap.
  eapply Forall_impl; [apply (split_on_segments _ _ _ Hblank)|].
  intros line Hline. cbn. intros Hfields. apply Hfields.
  rewrite (split_on_no_sep (is_char "#") line)
    by (eapply Forall_impl; [exact Hline|]; apply space_not_hash).
  cbn [hd]. apply filter_none.
  eapply Forall_impl; [apply (split_on_all_sep _ _ Hline)|].
  intros seg -> H. by apply H.
Qed.

Lemma read_events_blank_file_witness :
  Forall (λ c, is_space c = true) [" "%char; newline; newline; " "%char]
  ∧ read_events [" "%char; newline; newline; " "%char] None None (PyInt 0)
    = Raise ValueError_no_text_lines.
Proof.
  assert (Forall (λ c, is_space c = true) [" "%char; newline; newline; " "%char]) as H
    by (repeat constructor).
  split; [exact H|]. by apply read_events_blank_file.
Defined.

(** ** FIF files: the description of the event ids *)

Lemma split_once_first (sep : ascii → bool) (w : text) (c : ascii) (rest : text) :
  Forall (λ c, sep c = false) w → sep c = true →
  split_once sep (w ++ c :: rest) = [w; rest].
Proof.
  intros Hw Hc. induction Hw as [|x w Hx Hw IH]; cbn; [by rewrite Hc|].
  by rewrite Hx, IH.
Qed.

Lemma lstrip_word (s : text) :
  (∀ c, head s = Some c → is_space c = false) → lstrip s = s.
Proof.
  destruct s as [|c s]; [done|]. intros Hc. cbn. by rewrite (Hc c).
Qed.

Lemma strip_digits (s : text) : Forall (λ c, digit c) s → strip s = s.
Proof.
  intros Hs. unfold strip.
  rewrite (lstrip_word s).
  2:{ intros c Hc. apply digit_not_space. destruct s; [done|].
      injection Hc as <-. by apply Forall_inv in Hs. }
  rewrite lstrip_word; [apply reverse_involutive|].
  intros c Hc. apply digit_not_space.
  apply head_Some_elem_of in Hc. rewrite elem_of_reverse in Hc.
  by eapply Forall_forall in Hs.
Qed.

(** [int] reads back what [str] wrote for an id. *)
Lemma int_of_text_str_of_int (z : Z) : 0 ≤ z → int_of_text (str_of_int z) = Some z.
Proof.
  intros Hz. pose proof (str_of_int_digits z Hz) as [Hne Hdig].
  destruct (str_of_int_nonneg z Hz) as (d & Hd & Hstr & Hval).
  unfold int_of_text. rewrite strip_digits by done.
  destruct (str_of_int z) as [|c tok] eqn:Htok; [done|].
  assert (digit c) as Hc by (by apply Forall_cons in Hdig as [? _]).
  rewrite (digit_not_char c "-"), (digit_not_char c "+") by (done || vm_compute; lia).
  rewrite Hstr, string_of_list_ascii_of_string.
  assert (NilZero.uint_of_string (NilEmpty.string_of_uint d) = Some d) as ->.
  { rewrite <- (NilZero.usu d Hd). by destruct d. }
  cbn. by rewrite Hval.
Qed.

(** An item [key:id] is cut at its last [':']. *)
Lemma item_parts (k : text) (z : Z) :
  0 ≤ z →
  reverse <$> split_once (is_char ":") (reverse (k ++ ":"%char :: str_of_int z))
  = [str_of_int z; k].
Proof.
  intros Hz. pose proof (str_of_int_digits z Hz) as [_ Hdig].
  rewrite reverse_app, reverse_cons, <- app_assoc. cbn [app].
  rewrite split_once_first; [|
    apply Forall_reverse, digits_no_char; [vm_compute; lia | done] | done].
  cbn. by rewrite !reverse_involutive.
Qed.

Lemma format_mappings_items (items : list (text * Z)) :
  items ≠ [] →
  Forall (λ item, Forall (λ c, is_char ";" c = false) item.1 ∧ 0 ≤ item.2) items →
  split_on (is_char ";") (format_mappings items)
  = (λ item, item.1 ++ ":"%char :: str_of_int item.2) <$> items.
Proof.
  intros Hne Hitems. induction Hitems as [|[k z] items [Hk Hz] Hitems IH]; [done|].
  cbn [fst snd] in Hk, Hz.
  assert (Forall (λ c, is_char ";" c = false) (k ++ ":"%char :: str_of_int z)) as Hitem.
  { apply Forall_app. split; [done|]. constructor; [done|].
    apply digits_no_char; [vm_compute; lia | by apply str_of_int_digits]. }
  destruct items as [|item items].
  - cbn [format_mappings fmap list_fmap fst snd]. by apply split_on_no_sep.
  - change (format_mappings ((k, z) :: item :: items))
      with (k ++ ":"%char :: str_of_int z ++ ";"%char :: format_mappings (item :: items)).
    replace (k ++ ":"%char :: str_of_int z ++ ";"%char :: format_mappings (item :: items))
      with ((k ++ ":"%char :: str_of_int z) ++ ";"%char :: format_mappings (item :: items))
      by (by rewrite <- app_assoc).
    rewrite split_on_sep by done. rewrite IH by done. done.
Qed.

(** X14.  The description [key:id;key:id;...] of a FIF event file is read
    back as the dict of its pairs: keys may hold [':'] (an item is cut at
    its last [':']) but not [';'], ids are non-negative, and a key that
    comes again takes its last id.  An empty description is not a dict: it
    raises [ValueError]. *)
Theorem parse_mappings_items (items : list (text * Z)) :
  Forall (λ item, Forall (λ c, is_char ";" c = false) item.1 ∧ 0 ≤ item.2) items →
  parse_mappings (format_mappings items)
  = match items with
    | [] => Fail ValueError_unpack
    | _ => Read (list_to_map (reverse items))
    end.
Proof.
  intros Hitems. destruct items as [|item0 items0] eqn:Heq; [done|]. rewrite <- Heq in *.
  assert (items ≠ []) as Hne by (by rewrite Heq). clear Heq.
  unfold parse_mappings. cbn zeta. rewrite format_mappings_items by done.
  rewrite <- list_fmap_compose.
  assert (∀ d : gmap text Z,
            foldl (λ acc item,
                     match acc with
                     | Fail e => Fail e
                     | Read d =>
                         match item with
                         | [v; k] =>
                             match int_of_text v with
                             | Some z => Read (<[k := z]> d)
                             | None => Fail ValueError_int_literal
                             end
                         | _ => Fail ValueError_unpack
                         end
                     end)
                  (Read d)
                  (fmap (M := list)
                     ((λ m : text,
                         fmap (M := list) reverse (split_once (is_char ":") (reverse m)))
                        ∘ (λ item : text * Z, item.1 ++ ":"%char :: str_of_int item.2))
                     items)
            = Read (foldl (λ d item, <[item.1 := item.2]> d) d items)) as Hfold.
  { clear Hne. induction Hitems as [|[k z] items [Hk Hz] Hitems IH]; intros d; [done|].
    cbn [fmap list_fmap foldl compose fst snd] in *.
    rewrite item_parts, int_of_text_str_of_int by done. apply IH. }
  rewrite Hfold. f_equal. clear.
  induction items as [|item items IH] using rev_ind; [done|].
  rewrite foldl_app, reverse_app. cbn. by rewrite IH.
Qed.

Lemma parse_mappings_items_witness :
  parse_mappings
    (format_mappings [(list_ascii_of_string "aud:left", 1);
                      (list_ascii_of_string "visual", 3)])
  = Read (list_to_map (reverse [(list_ascii_of_string "aud:left", 1);
                                (list_ascii_of_string "visual", 3)])).
Proof.
  apply (parse_mappings_items [(list_ascii_of_string "aud:left", 1);
                               (list_ascii_of_string "visual", 3)]).
  repeat constructor; cbn; lia.
Defined.

(** ** FIF files: the event list *)

Lemma reshape3_rows (a : list Z) (rows : list row) :
  reshape3 a = Some rows ↔ a = concat ((λ r, [col0 r; col1 r; col2 r]) <$> rows).
Proof.
  split.
  - assert (∀ n a rows, (length a ≤ n)%nat → reshape3 a = Some rows →
                        a = concat ((λ r, [col0 r; col1 r; col2 r]) <$> rows)) as H.
    { clear. induction n as [|n IH]; intros a rows Hlen.
      - destruct a; [|cbn in Hlen; lia]. by intros [= <-].
      - destruct a as [|x [|y [|z rest]]]; try done.
        + by intros [= <-].
        + cbn [reshape3]. destruct (reshape3 rest) as [rows'|] eqn:Hrest; [|done].
          intros [= <-]. cbn. f_equal. f_equal. f_equal.
          apply IH; [cbn in Hlen; lia | done]. }
    by apply (H (length a)).
  - intros ->. induction rows as [|[[x y] z] rows IH]; [done|].
    cbn. by rewrite IH.
Qed.

Lemma reshape3_fails (a : list Z) : reshape3 a = None ↔ (length a `mod` 3 ≠ 0)%nat.
Proof.
  assert (∀ n a, (length a ≤ n)%nat →
                 (reshape3 a = None ↔ (length a `mod` 3 ≠ 0)%nat)) as H.
  { clear. induction n as [|n IH]; intros a Hlen.
    - destruct a; [|cbn in Hlen; lia]. cbn. split; [done|]. intros H. by contradict H.
    - destruct a as [|x [|y [|z rest]]].
      + cbn. split; [done|]. intros H. by contradict H.
      + split; [intros _; by vm_compute | done].
      + split; [intros _; by vm_compute | done].
      + cbn [reshape3 length].
        replace (S (S (S (length rest))) `mod` 3)%nat with (length rest `mod` 3)%nat.
        2:{ change (S (S (S (length rest)))) with (3 + length rest)%nat.
            by rewrite <- (Nat.Div0.add_mod_idemp_l 3). }
        rewrite <- IH by (cbn in Hlen; lia). destruct (reshape3 rest); split; done. }
  by apply (H (length a)).
Qed.

(** X15.  [_read_events_fif] reads the events from the first event-list
    tag of the first event block, and nothing else decides the result when
    that block holds no description: it returns the rows [rows] exactly
    when the tag holds their [3 n] values row after row, it raises when the
    size of the tag is not a multiple of 3, when the block has no
    event-list tag and when the file has no event block. *)
Theorem read_events_fif_rows (directory : list dir_entry)
    (others : list (list dir_entry)) :
  first_description directory = None →
  _read_events_fif [] = Fail ValueError_no_event_data
  ∧ (first_event_list directory = None →
     _read_events_fif (directory :: others) = Fail ValueError_no_event_list)
  ∧ (∀ data, first_event_list directory = Some data →
       (∀ rows, _read_events_fif (directory :: others) = Read (rows, None)
                ↔ data = concat ((λ r, [col0 r; col1 r; col2 r]) <$> rows))
       ∧ (_read_events_fif (directory :: others) = Fail Numpy_ValueError_reshape
          ↔ (length data `mod` 3 ≠ 0)%nat)).
Proof.
  intros Hdesc. split; [done|]. split.
  - intros Hnone. unfold _read_events_fif. by rewrite Hnone.
  - intros data Hdata. unfold _read_events_fif. rewrite Hdata, Hdesc. split.
    + intros rows. rewrite <- reshape3_rows.
      destruct (reshape3 data); split; congruence.
    + rewrite <- reshape3_fails. destruct (reshape3 data); split; congruence.
Qed.

Lemma read_events_fif_rows_witness :
  _read_events_fif [[Tag_other; Tag_event_list [10; 0; 1; 20; 0; 2]; Tag_event_list [3]];
                    [Tag_event_list [7; 7; 7]]]
  = Read ([(10, 0, 1); (20, 0, 2)], None).
Proof.
  destruct (read_events_fif_rows
              [Tag_other; Tag_event_list [10; 0; 1; 20; 0; 2]; Tag_event_list [3]]
              [[Tag_event_list [7; 7; 7]]] eq_refl) as (_ & _ & H).
  destruct (H [10; 0; 1; 20; 0; 2] eq_refl) as [Hrows _].
  by apply Hrows.
Defined.

(** ** Fixed-length events stay inside the recording *)

Section FixedLengthWindows.

Variable time_as_index : Raw → Q → Z.

(** X16.  For any positive interval [sfreq * duration], integral or not,
    and a start index that is not negative, every event that
    [make_fixed_length_events] generates lies at or after the start index,
    and a window of [ceil(sfreq * duration)] samples that starts at the
    event ends inside the recording: at or before [last_samp + 1] with
    [first_samp=True], at or before [len(raw.times)] without.  The paired
    value is 0 and the id is the given one. *)
Theorem make_fixed_length_events_windows (raw : Raw) (id : Z) (start : Q)
  (stop : option Q) (duration : Q) (use_first_samp : bool) (rows : list row) :
let s := fixed_length_start time_as_index raw start use_first_samp in
(0 < sfreq raw * duration)%Q →
0 ≤ s →
make_fixed_length_events time_as_index raw (PyInt id) start stop duration use_first_samp
= OK rows →
Forall (λ r, s ≤ col0 r
             ∧ col0 r + Qceiling (sfreq raw * duration)
               ≤ (if use_first_samp then last_samp raw + 1 else n_times raw)
             ∧ col1 r = 0 ∧ col2 r = id) rows.
Proof.
intros s Hstep Hs.
destruct (fixed_length_rows time_as_index raw id start stop duration use_first_samp Hstep)
  as (Hcall & _ & Hlt & _).
fold s in Hcall, Hlt. rewrite Hcall. case_bool_decide; [done|]. intros [= <-].
apply Forall_fmap, Forall_forall. intros k Hk. apply elem_of_seq in Hk.
specialize (Hlt k ltac:(lia)). cbn. unfold col0, col1, col2. cbn.
set (x := (inject_Z s + inject_Z (Z.of_nat k) * (sfreq raw * duration))%Q) in *.
assert (inject_Z s <= x)%Q as Hlow.
{ unfold x. assert (0 <= inject_Z (Z.of_nat k))%Q.
  { change 0%Q with (inject_Z 0). rewrite <- Zle_Qle. lia. }
  nra. }
assert (0 <= x)%Q as Hx0.
{ assert (inject_Z 0 <= inject_Z s)%Q by (by rewrite <- Zle_Qle).
  change (inject_Z 0) with 0%Q in *. lra. }
assert (py_int x = Qfloor x) as ->.
{ unfold py_int. destruct (Qlt_le_dec x 0); [lra | done]. }
split; [|split; [|done]].
- rewrite <- (Qfloor_Z s). by apply Qfloor_resp_le.
- assert (Qfloor x
          ≤ fixed_length_stop time_as_index raw stop duration use_first_samp) as Hfl.
  { assert (Qfloor x < fixed_length_stop time_as_index raw stop duration use_first_samp + 1);
      [|lia].
    rewrite Zlt_Qlt. eapply Qle_lt_trans; [apply Qfloor_le | exact Hlt]. }
  unfold fixed_length_stop in Hfl. cbn zeta in Hfl.
  destruct use_first_samp; unfold n_times in *; lia.
Qed.

End FixedLengthWindows.

Lemma make_fixed_length_events_windows_witness :
  (0 < sfreq example_recording * (335 # 10))%Q
  ∧ make_fixed_length_events example_time_as_index example_recording (PyInt 5)
      0 None (335 # 10) true
    = OK [(0, 0, 5); (33, 0, 5)]
  ∧ Forall (λ r, 0 ≤ col0 r ∧ col0 r + 34 ≤ 100 ∧ col1 r = 0 ∧ col2 r = 5)
      [(0, 0, 5); (33, 0, 5)].
Proof.
  split; [reflexivity|]. split; [vm_compute; reflexivity|].
  apply (make_fixed_length_events_windows example_time_as_index example_recording
           5 0 None (335 # 10) true [(0, 0, 5); (33, 0, 5)]).
  - reflexivity.
  - vm_compute. discriminate.
  - vm_compute. reflexivity.
Defined.

(** ** [define_target_events] without a match *)

Lemma target_loop_unchanged (events : list row) (reference_id target_id imin imax new_id : Z)
    (fill_na : option Z) (evs copy new_events : list row) (lag : list (option Q)) :
  Forall (λ r, col2 r ≠ reference_id) evs
  ∨ (fill_na = None ∧ Forall (λ r, col2 r ≠ target_id) events) →
  foldl (target_step events reference_id target_id imin imax new_id fill_na)
        (copy, new_events, lag) evs
  = (copy ++ evs, new_events, lag).
Proof.
  intros Hcase. revert copy. induction evs as [|event evs IH]; intros copy.
  - cbn. by rewrite app_nil_r.
  - cbn [foldl]. unfold target_step at 2.
    assert (Forall (λ r, col2 r ≠ reference_id) evs
            ∨ (fill_na = None ∧ Forall (λ r, col2 r ≠ target_id) events)) as Hrest.
    { destruct Hcase as [Hev|?]; [left; by apply Forall_inv_tail in Hev | by right]. }
    case_bool_decide as Href.
    + destruct Hcase as [Hev|[-> Htarget]]; [by apply Forall_inv in Hev|].
      rewrite (filter_none _ events).
      2:{ eapply Forall_impl; [exact Htarget|]. cbn. tauto. }
      cbn [rows_any existsb]. rewrite IH by done. by rewrite <- app_assoc.
    + rewrite IH by done. by rewrite <- app_assoc.
Qed.

(** X17.  [define_target_events] returns two empty arrays when no event
    carries [reference_id], and also when no event carries [target_id] and
    [fill_na] is not given: nothing is relabelled and no lag is recorded. *)
Theorem define_target_events_nothing_found (events : list row)
    (reference_id target_id : Z) (sfreq tmin tmax : Q) (new_id fill_na : option Z) :
  ¬ (sfreq == 0)%Q →
  Forall (λ r, col2 r ≠ reference_id) events
  ∨ (fill_na = None ∧ Forall (λ r, col2 r ≠ target_id) events) →
  define_target_events events reference_id target_id sfreq tmin tmax new_id fill_na
  = OK ([], []).
Proof.
  intros Hsfreq Hcase. unfold define_target_events.
  destruct (Qeq_bool sfreq 0) eqn:Hzero; [by apply Qeq_bool_iff in Hzero|].
  cbn zeta. unfold target_loop. by rewrite target_loop_unchanged.
Qed.

Lemma define_target_events_nothing_found_witness :
  ¬ (1000 == 0)%Q
  ∧ define_target_events [(10, 0, 1); (20, 0, 3); (30, 0, 1)] 1 2 1000 0 1 None None
    = OK ([], []).
Proof.
  split; [discriminate|].
  apply define_target_events_nothing_found; [discriminate|].
  right. split; [done|]. repeat constructor; discriminate.
Defined.

(** ** [uint_cast] *)

(** X18.  [uint_cast=True] changes nothing on a recording whose stim
    samples, as integers, already lie in [[0, 65536)]: [find_events]
    returns the same result with and without it. *)
Theorem find_events_uint_cast_small (raw : Raw) (output : string)
    (consecutive : consecutive_mode) (min_duration : Q) (shortest_event : Z)
    (mask : pyobj) :
  Forall (λ q, 0 ≤ py_int q < 65536) (concat (stim_data raw)) →
  find_events raw output consecutive min_duration shortest_event mask true
  = find_events raw output consecutive min_duration shortest_event mask false.
Proof.
  intros Hsmall. unfold find_events, _find_events.
  assert (prepare_data (stim_data raw) true = prepare_data (stim_data raw) false) as ->;
    [|done].
  unfold prepare_data. cbn zeta.
  assert (fmap (M := list) (λ z, z `mod` 65536)
            <$> (fmap (M := list) np_astype_int <$> stim_data raw)
          = fmap (M := list) np_astype_int <$> stim_data raw) as ->; [|done].
  transitivity (fmap (M := list) (λ q, np_astype_int q `mod` 65536) <$> stim_data raw).
  - rewrite <- list_fmap_compose. apply list_fmap_ext. intros _ ch _. cbn.
    by rewrite <- list_fmap_compose.
  - apply fmap_concat_ext. eapply Forall_impl; [exact Hsmall|].
    intros q Hq. cbn in Hq |- *. rewrite np_astype_int_small by lia.
    by apply Z.mod_small.
Qed.

Lemma find_events_uint_cast_small_witness :
  Forall (λ q, 0 ≤ py_int q < 65536) (concat (stim_data example_raw))
  ∧ find_events example_raw "onset" Increasing 0 2 (PyInt 0) true
    = find_events example_raw "onset" Increasing 0 2 (PyInt 0) false.
Proof.
  assert (Forall (λ q, 0 ≤ py_int q < 65536) (concat (stim_data example_raw))) as H
    by (repeat constructor; by vm_compute).
  split; [exact H|]. by apply find_events_uint_cast_small.
Defined.

Example uint_cast_negative_sample :
  find_events (mkRaw [(inject_Z <$> [0; -1; 0])] 0 2 1000) "onset" Increasing 0 1
    (PyInt 0) true = OK [(1, 0, 65535)]
  ∧ find_events (mkRaw [(inject_Z <$> [0; -1; 0])] 0 2 1000) "onset" Increasing 0 1
      (PyInt 0) false = OK [(1, 0, 1)].
Proof. split; vm_compute; reflexivity. Qed.

(** ** A constant stim channel *)

Lemma changed_replicate (n : nat) (x : Z) : changed (replicate n x) = replicate (pred n) false.
Proof.
  destruct n as [|n]; [done|].
  rewrite <- (app_nil_r (replicate (S n) x)), changed_replicate_app.
  by rewrite !app_nil_r.
Qed.

Lemma find_stim_steps_constant (n : nat) (x first_samp : Z)
    (pad_start pad_stop : option Z) (merge : Z) :
  _find_stim_steps [replicate n x] first_samp pad_start pad_stop merge = OK [].
Proof.
  unfold _find_stim_steps.
  assert (detect_steps (replicate n x) [] first_samp = []) as ->; [|done].
  by rewrite detect_steps_single, changed_replicate, np_where_replicate_false.
Qed.

(** X19.  A single stim channel that keeps one value throughout, zero or
    not, yields no event: [find_events] returns the empty array for every
    output mode and every [int] mask (the tail pad is not applied to a
    channel without a step). *)
Theorem find_events_constant_channel (n : nat) (q : Q) (first_idx last_idx : Z)
    (rate : Q) (output : string) (consecutive : consecutive_mode) (min_duration : Q)
    (shortest_event : Z) (mask : pyobj) (uint_cast : bool) :
  isinstance_int mask = true →
  find_events (mkRaw [replicate (S n) q] first_idx last_idx rate) output consecutive
    min_duration shortest_event mask uint_cast
  = OK [].
Proof.
  intros Hmask. unfold find_events. cbn [stim_data first_samp sfreq length].
  rewrite bool_decide_false by done. unfold _find_events.
  assert (∃ z, prepare_data [replicate (S n) q] uint_cast = OK [replicate (S n) z])
    as [z ->].
  { unfold prepare_data. cbn zeta. cbn [fmap list_fmap]. rewrite !fmap_replicate.
    destruct uint_cast.
    - rewrite bool_decide_false by done.
      destruct (existsb _ _); [cbn [fmap list_fmap]; rewrite fmap_replicate|];
        by eexists.
    - rewrite bool_decide_false by done.
      destruct (existsb _ _); [cbn [fmap list_fmap]; rewrite fmap_replicate|];
        by eexists. }
  cbn [mbind result_bind]. rewrite find_stim_steps_constant. cbn [mbind result_bind].
  unfold _mask_trigs. rewrite Hmask. cbn.
  unfold shape_events. reflexivity.
Qed.

Lemma find_events_constant_channel_witness :
  isinstance_int (PyInt 0) = true
  ∧ find_events (mkRaw [replicate 4 5%Q] 0 3 1000) "step" (Consecutive true) 0 2
      (PyInt 0) false
    = OK [].
Proof.
  split; [reflexivity|].
  by apply (find_events_constant_channel 3 5%Q 0 3 1000).
Defined.

(** ** The spacing check and [shortest_event] *)

Lemma ascending_no_short_events (events : list row) (shortest_event : Z) :
  ascending events → shortest_event ≤ 1 → n_short_events events shortest_event = 0%nat.
Proof.
  intros Hasc Hse.
  destruct (n_short_events events shortest_event) as [|n] eqn:Hn; [done|]. exfalso.
  assert (0 < n_short_events events shortest_event)%nat as Hpos by lia.
  apply n_short_events_positive in Hpos as (i & r & s & Hr & Hs & Hlt).
  pose proof (StronglySorted_lookup Z.lt (col0 <$> events) i (S i) (col0 r) (col0 s)
                Hasc ltac:(lia)) as Hrs.
  rewrite !list_lookup_fmap, Hr, Hs in Hrs. specialize (Hrs eq_refl eq_refl). lia.
Qed.

Lemma n_short_events_mono (events : list row) (s s' : Z) :
  s' ≤ s → n_short_events events s = 0%nat → n_short_events events s' = 0%nat.
Proof.
  intros Hle Hs. destruct (n_short_events events s') as [|n] eqn:Hn; [done|]. exfalso.
  assert (0 < n_short_events events s')%nat as Hpos by lia.
  apply n_short_events_positive in Hpos as (i & r & t & Hr & Ht & Hlt).
  assert (0 < n_short_events events s)%nat; [|lia].
  apply n_short_events_positive. exists i, r, t. repeat split; [done | done | lia].
Qed.

(** X20.  With [shortest_event] at most 1 the spacing check of
    [find_events] never fires: the samples of the events are strictly
    ascending, so [find_events] returns (or raises) exactly what
    [_find_events] does. *)
Theorem shortest_event_one_disables_check (raw : Raw) (output : string)
    (consecutive : consecutive_mode) (min_duration : Q) (shortest_event : Z)
    (mask : pyobj) (uint_cast : bool) :
  stim_data raw ≠ [] →
  shortest_event ≤ 1 →
  find_events raw output consecutive min_duration shortest_event mask uint_cast
  = _find_events (stim_data raw) (first_samp raw) output consecutive
      (min_duration * sfreq raw) mask uint_cast.
Proof.
  intros Hdata Hse. unfold find_events.
  rewrite bool_decide_false by (by destruct (stim_data raw)).
  destruct (_find_events _ _ _ _ _ _ _) as [events|e] eqn:Hfound; [|done].
  cbn [mbind result_bind]. cbn zeta.
  rewrite ascending_no_short_events; [done | by eapply _find_events_ascending | done].
Qed.

Lemma shortest_event_one_disables_check_witness :
  stim_data example_pulse ≠ [] ∧ 1 ≤ 1
  ∧ find_events example_pulse "step" (Consecutive true) 0 1 (PyInt 0) false
    = _find_events (stim_data example_pulse) (first_samp example_pulse) "step"
        (Consecutive true) (0 * sfreq example_pulse) (PyInt 0) false.
Proof.
  split; [discriminate|]. split; [lia|].
  apply (shortest_event_one_disables_check example_pulse); [discriminate | lia].
Defined.

(** X21.  Lowering [shortest_event] never turns a successful call of
    [find_events] into a failing one and does not change the events
    found. *)
Theorem find_events_shortest_event_mono (raw : Raw) (output : string)
    (consecutive : consecutive_mode) (min_duration : Q) (shortest_event lower : Z)
    (mask : pyobj) (uint_cast : bool) (events : list row) :
  find_events raw output consecutive min_duration shortest_event mask uint_cast
  = OK events →
  lower ≤ shortest_event →
  find_events raw output consecutive min_duration lower mask uint_cast = OK events.
Proof.
  unfold find_events. case_bool_decide; [done|].
  destruct (_find_events _ _ _ _ _ _ _) as [found|e]; [|done].
  cbn [mbind result_bind]. cbn zeta. case_bool_decide as Hn; [done|].
  intros [= <-] Hle. rewrite bool_decide_false; [done|].
  rewrite (n_short_events_mono found shortest_event lower); lia.
Qed.

Lemma find_events_shortest_event_mono_witness :
  find_events example_raw "onset" Increasing 0 2 (PyInt 0) false
  = OK [(1, 0, 32); (3, 32, 33)]
  ∧ find_events example_raw "onset" Increasing 0 1 (PyInt 0) false
    = OK [(1, 0, 32); (3, 32, 33)].
Proof.
  assert (find_events example_raw "onset" Increasing 0 2 (PyInt 0) false
          = OK [(1, 0, 32); (3, 32, 33)]) as Hrun by reflexivity.
  split; [exact Hrun|].
  apply (find_events_shortest_event_mono _ _ _ _ 2 1 _ _ _ Hrun). lia.
Defined.

(** ** Selecting and shifting commute *)

Lemma filter_fmap_preserved {A} (g : A → A) (P : A → Prop) `{∀ x, Decision (P x)}
    (l : list A) :
  (∀ x, P (g x) ↔ P x) → filter P (g <$> l) = g <$> filter P l.
Proof.
  intros HP. rewrite filter_fmap_comm. f_equal. apply list_filter_iff. intros x. apply HP.
Qed.

(** X22.  [pick_events] and [shift_time_events] commute: a shift changes
    only the sample column, which the selection does not look at, so
    selecting and then shifting gives what shifting and then selecting
    gives, including the [RuntimeError] when nothing is selected. *)
Theorem pick_events_shift_commute (events : list row) (include exclude : option (list Z))
    (step : bool) (ids : list Z) (tshift sfreq : Q) :
  pick_events (shift_time_events events ids tshift sfreq) include exclude step
  = (picked ← pick_events events include exclude step;
     OK (shift_time_events picked ids tshift sfreq)).
Proof.
  rewrite (shift_rows events).
  set (g := λ r : row, (col0 r + _, col1 r, col2 r)).
  assert (∀ l, shift_time_events l ids tshift sfreq = g <$> l) as Hshift
    by (intros l; apply shift_rows).
  assert (∀ l : list row, bool_decide (g <$> l = []) = bool_decide (l = [])) as Hnil.
  { intros l. apply bool_decide_ext. by destruct l. }
  destruct (pick_events_filter events step) as (Hinc & Hexc & Hall).
  destruct (pick_events_filter (g <$> events) step) as (Hinc' & Hexc' & Hall').
  destruct include as [include|]; [|destruct exclude as [exclude|]].
  - rewrite Hinc, Hinc'. cbn zeta. rewrite filter_fmap_preserved
      by (intros [[s p] q]; unfold g, col0, col1, col2; cbn; done).
    rewrite Hnil. repeat case_bool_decide; try done; cbn [mbind result_bind]; by rewrite Hshift.
  - rewrite Hexc, Hexc'. cbn zeta. rewrite filter_fmap_preserved
      by (intros [[s p] q]; unfold g, col0, col1, col2; cbn; done).
    rewrite Hnil. repeat case_bool_decide; try done; cbn [mbind result_bind]; by rewrite Hshift.
  - rewrite Hall, Hall', Hnil. repeat case_bool_decide; try done;
      cbn [mbind result_bind]; by rewrite Hshift.
Qed.

(** ** The pads of [find_stim_steps] *)

(** X23.  [find_stim_steps] inserts the start pad only in front of a
    detected step: on a single channel with at least one step whose first
    sample, as an integer, is [v ≠ pad_start], the first row of the result
    is [(0, pad_start, v)], at sample 0 whatever [first_samp] is; on a
    constant channel the result is empty, whatever the pads are. *)
Theorem find_stim_steps_pads (first_idx last_idx : Z) (rate : Q) (pad_stop : option Z) :
  (∀ n q pad_start merge,
     find_stim_steps (mkRaw [replicate (S n) q] first_idx last_idx rate)
       pad_start pad_stop merge = OK [])
  ∧ (∀ q0 rest p r steps,
       find_stim_steps (mkRaw [q0 :: rest] first_idx last_idx rate) (Some p) pad_stop 0
       = OK (r :: steps) →
       np_astype_int (Qabs q0) ≠ p →
       r = (0, p, np_astype_int (Qabs q0))).
Proof.
  split.
  - intros n q pad_start merge. rewrite find_stim_steps_abs by done.
    cbn [stim_data first_samp fmap list_fmap]. rewrite fmap_replicate.
    apply find_stim_steps_constant.
  - intros q0 rest p r steps. rewrite find_stim_steps_abs by done.
    cbn [stim_data first_samp fmap list_fmap]. rewrite <- (np_astype_int_Qabs q0).
    set (ch := np_astype_int (Qabs q0) :: _). intros Hrun Hv.
    unfold _find_stim_steps in Hrun.
    pose proof (detect_steps_head_single ch first_idx) as Hhead.
    destruct (detect_steps ch [] first_idx) as [|r0 l0]; [done|].
    rewrite bool_decide_false in Hrun by done.
    specialize (Hhead r0 eq_refl). injection Hhead as Hhead.
    unfold merge_steps in Hrun. rewrite bool_decide_false in Hrun by lia.
    unfold pad_steps_start in Hrun. rewrite bool_decide_true in Hrun by congruence.
    unfold pad_steps_stop in Hrun.
    destruct pad_stop as [pe|]; [|injection Hrun as <- _; by rewrite <- Hhead].
    destruct (last _); [|injection Hrun as <- _; by rewrite <- Hhead].
    case_bool_decide; injection Hrun as <- _; by rewrite <- Hhead.
Qed.

Lemma find_stim_steps_pads_witness :
  find_stim_steps (mkRaw [[5; 5; 7; 0]%Q] 10 13 1000) (Some 0) (Some 0) 0
  = OK [(0, 0, 5); (12, 5, 7); (13, 7, 0)]
  ∧ (0, 0, 5) = (0, 0, np_astype_int (Qabs 5)).
Proof.
  assert (find_stim_steps (mkRaw [[5; 5; 7; 0]%Q] 10 13 1000) (Some 0) (Some 0) 0
          = OK [(0, 0, 5); (12, 5, 7); (13, 7, 0)]) as Hrun by reflexivity.
  destruct (find_stim_steps_pads 10 13 1000 (Some 0)) as [_ H].
  split; [exact Hrun|].
  apply (H 5%Q [5; 7; 0]%Q 0 _ _ Hrun). vm_compute. discriminate.
Defined.

(** ** StepDetector: the pads that [find_events] asks for *)

(** C10 (amended).  [find_events] works on what the step detector gives
    with [pad_stop=0] and no start pad, that is on [padded] below: the
    detected transitions, followed by the synthetic transition
    [(len(data[0]) + first_samp, v, 0)] when there is a detected transition
    and the last one ends on a value [v ≠ 0] (with a single stim channel
    [v] is the value of the final sample).  When no transition is detected
    the detector returns no row at all, so a constant channel, zero or not,
    gets no tail pad.  No row is put in front of the detected transitions:
    the first row is a detected one, lies after [first_samp], and with a
    single stim channel starts from the value of the very first sample. *)
Theorem find_events_tail_pad (ch0 : list Z) (others : list (list Z))
    (first_idx merge : Z) :
  let steps := detect_steps ch0 others first_idx in
  let padded :=
    match last steps with
    | Some r =>
        if bool_decide (col2 r ≠ 0)
        then steps ++ [(Z.of_nat (length ch0) + first_idx, col2 r, 0)]
        else steps
    | None => []
    end in
  (∀ raw output consecutive min_duration shortest_event mask uint_cast,
     first_samp raw = first_idx →
     prepare_data (stim_data raw) uint_cast = OK (ch0 :: others) →
     find_events raw output consecutive min_duration shortest_event mask uint_cast
     = (events ← _mask_trigs
                   (merge_steps (merge_of_min_samples (min_duration * sfreq raw)) padded)
                   mask;
        events ← shape_events events output consecutive;
        let n := n_short_events events shortest_event in
        if bool_decide (0 < n)%nat then Raise (ValueError_short_events n) else OK events))
  ∧ _find_stim_steps (ch0 :: others) first_idx None (Some 0) merge
    = OK (merge_steps merge padded)
  ∧ (steps = [] →
     _find_stim_steps (ch0 :: others) first_idx None (Some 0) merge = OK [])
  ∧ (∀ n x, _find_stim_steps [replicate n x] first_idx None (Some 0) merge = OK [])
  ∧ (∀ r, last steps = Some r → col2 r ≠ 0 →
          padded = steps ++ [(Z.of_nat (length ch0) + first_idx, col2 r, 0)]
          ∧ (others = [] → last ch0 = Some (col2 r)))
  ∧ (∀ r0, head padded = Some r0 →
           r0 ∈ steps ∧ first_idx < col0 r0
           ∧ (others = [] → head ch0 = Some (col1 r0)))
  ∧ (∀ rows, _find_stim_steps (ch0 :: others) first_idx None (Some 0) merge = OK rows →
             Forall (λ r, first_idx < col0 r) rows).
Proof.
  intros steps padded.
  assert (∀ m, _find_stim_steps (ch0 :: others) first_idx None (Some 0) m
               = OK (merge_steps m padded)) as Hdetector.
  { intros m. unfold _find_stim_steps. fold steps. unfold padded.
    destruct steps as [|r0 l0] eqn:Hsteps.
    - rewrite bool_decide_true by done. cbn [last]. unfold merge_steps.
      case_bool_decide; done.
    - rewrite bool_decide_false by done. unfold pad_steps_start, pad_steps_stop.
      destruct (last (r0 :: l0)) as [r|] eqn:Hlast; [done|].
      by apply last_None in Hlast. }
  assert (Forall (λ r, first_idx < col0 r) steps) as Hafter.
  { apply Forall_forall. intros r Hr. unfold steps in Hr.
    apply detect_steps_elem in Hr as (i & -> & _). unfold col0. cbn. lia. }
  assert (Forall (λ r, first_idx < col0 r) padded) as Hafter_padded.
  { unfold padded. destruct (last steps) as [r|] eqn:Hlast; [|constructor].
    case_bool_decide; [|done]. apply Forall_app. split; [done|].
    apply Forall_singleton. unfold col0. cbn.
    apply last_Some in Hlast as [l' Hl'].
    assert (r ∈ steps) as Hr by (rewrite Hl'; apply elem_of_app; right; by left).
    unfold steps in Hr. apply detect_steps_elem in Hr as (i & _ & Hi & _). lia. }
  repeat apply conj.
  - intros raw output consecutive min_duration shortest_event mask uint_cast Hfirst Hdata.
    unfold find_events.
    rewrite bool_decide_false.
    2:{ intros Hlen. apply length_zero_iff_nil in Hlen. rewrite Hlen in Hdata.
        by destruct uint_cast. }
    unfold _find_events. rewrite Hdata, Hfirst. cbn [mbind result_bind].
    rewrite Hdetector. cbn [mbind result_bind].
    destruct (_mask_trigs _ mask) as [events|e]; [|done]. cbn [mbind result_bind].
    by destruct (shape_events events output consecutive).
  - apply Hdetector.
  - intros Hnil. rewrite Hdetector. unfold padded. rewrite Hnil. cbn [last].
    unfold merge_steps. case_bool_decide; done.
  - intros n x. apply find_stim_steps_constant.
  - intros r Hlast Hv. unfold padded. rewrite Hlast, bool_decide_true by done.
    split; [done|]. intros ->. by apply detect_steps_last_single in Hlast.
  - intros r0 Hhead.
    assert (head steps = Some r0) as Hhead_steps.
    { unfold padded in Hhead. destruct (last steps) as [r|] eqn:Hlast; [|done].
      destruct steps as [|r1 l1]; [done|]. by destruct (bool_decide _). }
    split; [by apply head_Some_elem_of|]. split.
    + eapply Forall_forall in Hafter; [exact Hafter|]. by apply head_Some_elem_of.
    + intros ->. by apply detect_steps_head_single in Hhead_steps.
  - intros rows. rewrite Hdetector. intros [= <-].
    apply (proj1 (Forall_fmap col0 (λ s, first_idx < s) _)).
    eapply Forall_sublist; [apply merge_steps_samples|].
    by apply Forall_fmap.
Qed.

Lemma find_events_tail_pad_witness :
  last (detect_steps [5; 5; 0; 7] [] 0) = Some (3, 0, 7)
  ∧ _find_stim_steps [[5; 5; 0; 7]] 0 None (Some 0) 0 = OK [(2, 5, 0); (3, 0, 7); (4, 7, 0)]
  ∧ last [5; 5; 0; 7] = Some 7
  ∧ head [5; 5; 0; 7] = Some 5.
Proof.
  destruct (find_events_tail_pad [5; 5; 0; 7] [] 0 0)
    as (_ & Hdetector & _ & _ & Hlast & Hhead & _).
  split; [reflexivity|]. split; [exact Hdetector|]. split.
  - apply (Hlast (3, 0, 7)); [reflexivity | discriminate | reflexivity].
  - apply (Hhead (2, 5, 0)); reflexivity.
Defined.

Example find_events_first_sample_nonzero :
  _find_stim_steps [[5; 0; 0]] 0 None (Some 0) 0 = OK [(1, 5, 0)]
  ∧ find_events (mkRaw [[5; 0; 0]%Q] 0 2 1000) "step" (Consecutive true) 0 2 (PyInt 0) false
    = OK [].
Proof. split; vm_compute; reflexivity. Qed.
